(** * Mython: the lexer and the statement evaluator

    A shallow embedding of [lexer.h], [lexer.cpp] and [statement.cpp].
    The C++ namespaces [parse::token_type], [parse] and [ast] become
    modules of the same names.  Streams are strings that are consumed
    from the front, containers are lists and finite maps, C++ exceptions
    are explicit results. *)

From stdpp Require Import gmap strings list fin_maps.
From Stdlib Require Import ZArith Bool Lia Ascii DecimalString DecimalZ DecimalPos.

Local Open Scope string_scope.
Local Open Scope list_scope.

(** ** Characters *)

Module chars.

Definition quote : ascii := Ascii.ascii_of_nat 34.
Definition apostrophe : ascii := "'"%char.
Definition backslash : ascii := Ascii.ascii_of_nat 92.
Definition LF : ascii := Ascii.ascii_of_nat 10.
Definition CR : ascii := Ascii.ascii_of_nat 13.
Definition TAB : ascii := Ascii.ascii_of_nat 9.
Definition SP : ascii := " "%char.
Definition hash : ascii := "#"%char.

Definition code (c : ascii) : nat := Ascii.nat_of_ascii c.

Definition between (lo hi : nat) (c : ascii) : bool :=
  (lo <=? code c)%nat && (code c <=? hi)%nat.

(** [<cctype>] in the "C" locale. *)
Definition isspace (c : ascii) : bool := (code c =? 32)%nat || between 9 13 c.
Definition isdigit (c : ascii) : bool := between 48 57 c.
Definition isalpha (c : ascii) : bool := between 65 90 c || between 97 122 c.
Definition isalnum (c : ascii) : bool := isalpha c || isdigit c.

Definition eqb (a b : ascii) : bool := Ascii.eqb a b.

(** [std::set<char>::count]. *)
Definition count (s : list ascii) (c : ascii) : nat :=
  if existsb (eqb c) s then 1 else 0.

End chars.

(** ** Tokens ([lexer.h]) *)

Module token_type.

Inductive Token : Type :=
| Number (value : Z)
| Id (value : string)
| Char (value : ascii)
| String (value : string)
| Class
| Return
| If
| Else
| Def
| Newline
| Print
| Indent
| Dedent
| And
| Or
| Not
| Eq
| NotEq
| LessOrEq
| GreaterOrEq
| None
| True
| False
| Eof.

End token_type.

Module parse.

Abbreviation Token := token_type.Token.

(** [std::variant::index]: the position of the alternative in [TokenBase]. *)
Definition index (t : Token) : nat :=
  match t with
  | token_type.Number _ => 0
  | token_type.Id _ => 1
  | token_type.Char _ => 2
  | token_type.String _ => 3
  | token_type.Class => 4
  | token_type.Return => 5
  | token_type.If => 6
  | token_type.Else => 7
  | token_type.Def => 8
  | token_type.Newline => 9
  | token_type.Print => 10
  | token_type.Indent => 11
  | token_type.Dedent => 12
  | token_type.And => 13
  | token_type.Or => 14
  | token_type.Not => 15
  | token_type.Eq => 16
  | token_type.NotEq => 17
  | token_type.LessOrEq => 18
  | token_type.GreaterOrEq => 19
  | token_type.None => 20
  | token_type.True => 21
  | token_type.False => 22
  | token_type.Eof => 23
  end.

(** [operator==(const Token&, const Token&)]. *)
Definition Token_eq (lhs rhs : Token) : bool :=
  if negb (index lhs =? index rhs)%nat then false
  else match lhs, rhs with
       | token_type.Char a, token_type.Char b => chars.eqb a b
       | token_type.Number a, token_type.Number b => (a =? b)%Z
       | token_type.String a, token_type.String b => String.eqb a b
       | token_type.Id a, token_type.Id b => String.eqb a b
       | _, _ => true
       end.

(** Number of tokens of [l] equal to [t]. *)
Definition count_token (t : Token) (l : list Token) : nat :=
  length (List.filter (Token_eq t) l).

(** [class LexerError : public std::runtime_error]. *)
Inductive LexerError : Type := MkLexerError (what : string).

(** What a lexer routine yields: a value, a thrown [LexerError], or the
    exhaustion of the recursion bound of the model (never reached from
    [ReadBody], see [ScanLine_fuel]). *)
Inductive Outcome (A : Type) : Type :=
| Done (a : A)
| Throw (e : LexerError)
| OutOfFuel.
Arguments Done {A} a.
Arguments Throw {A} e.
Arguments OutOfFuel {A}.

(** The private members of [Lexer]; [in_] is the string still to read. *)
Record Lexer : Type := MkLexer {
  token_ : list Token;
  indents : nat
}.

Definition key_words_list : list (string * Token) :=
  [ ("class", token_type.Class);
    ("return", token_type.Return);
    ("if", token_type.If);
    ("else", token_type.Else);
    ("def", token_type.Def);
    ("print", token_type.Print);
    ("and", token_type.And);
    ("or", token_type.Or);
    ("not", token_type.Not);
    ("==", token_type.Eq);
    ("!=", token_type.NotEq);
    ("<=", token_type.LessOrEq);
    (">=", token_type.GreaterOrEq);
    ("None", token_type.None);
    ("True", token_type.True);
    ("False", token_type.False) ].

Definition key_words_ : gmap string Token := list_to_map key_words_list.

Definition delimiter_ : list ascii :=
  [ ":"; "("; ")"; "."; ","; "@"; "%"; "$"; "^"; "&"; ";"; "{"; "}"; "["; "]";
    "?"; "#" ]%char.

Definition logic_operations_ : list ascii := [ "="; "<"; ">"; "!" ]%char.

Definition ariphmetic_operations_ : list ascii := [ "+"; "-"; "*"; "/" ]%char.

Definition INT_MAX : Z := 2147483647.
Definition INT_MIN : Z := -2147483648.

(** [bool Lexer::IsPunct(char c) const]. *)
Definition IsPunct (c : ascii) : bool :=
  (chars.count delimiter_ c =? 1)%nat
  || (chars.count logic_operations_ c =? 1)%nat
  || (chars.count ariphmetic_operations_ c =? 1)%nat.

(** [std::string::find_first_not_of(ch)]; [None] is [npos]. *)
Fixpoint find_first_not_of (ch : ascii) (line : string) : option nat :=
  match line with
  | EmptyString => Datatypes.None
  | String.String c rest =>
      if chars.eqb c ch then S <$> find_first_not_of ch rest
      else Some 0
  end.

(** [line.substr(pos)]. *)
Fixpoint substr (pos : nat) (line : string) : string :=
  match pos, line with
  | 0, _ => line
  | S p, String.String _ rest => substr p rest
  | S _, EmptyString => EmptyString
  end.

(** [bool Lexer::IsEmptyLine(const string& line) const]. *)
Definition IsEmptyLine (line : string) : bool :=
  match line with
  | EmptyString => true
  | _ =>
      match find_first_not_of chars.SP line with
      | Datatypes.None => true
      | Some pos => match String.get pos line with
                    | Some c => chars.eqb c chars.hash
                    | Datatypes.None => false
                    end
      end
  end.

(** [bool Lexer::IsString(char c) const]. *)
Definition IsString (c : ascii) : bool :=
  chars.eqb c chars.quote || chars.eqb c chars.apostrophe.

(** [bool Lexer::IsIdentifiersOrNumber(char c) const]. *)
Definition IsIdentifiersOrNumber (c : ascii) : bool :=
  chars.isalnum c || chars.eqb c "_"%char.

(** The longest prefix of [ss] whose characters satisfy [p], and the rest:
    the loops [while (p(ss.peek())) parsed += ss.get();]. *)
Fixpoint read_while (p : ascii -> bool) (ss : string) : string * string :=
  match ss with
  | EmptyString => (EmptyString, EmptyString)
  | String.String c rest =>
      if p c then let '(run, rest') := read_while p rest in (String.String c run, rest')
      else (EmptyString, ss)
  end.

Definition digit_value (c : ascii) : Z := Z.of_nat (chars.code c) - 48.

(** The value of a string of decimal digits, most significant first. *)
Fixpoint decimal_from (acc : Z) (digits : string) : Z :=
  match digits with
  | EmptyString => acc
  | String.String c rest => decimal_from (10 * acc + digit_value c) rest
  end.

Definition decimal (digits : string) : Z := decimal_from 0 digits.

(** [std::stoi] on a non-empty string of digits: the value, or
    [std::out_of_range] ([None]) when it does not fit an [int]. *)
Definition stoi (digits : string) : option Z :=
  let v := decimal digits in
  if (v <=? INT_MAX)%Z then Some v else Datatypes.None.

(** [Token Lexer::ReadNumber(char c, istream& ss)]. *)
Definition ReadNumber (c : ascii) (ss : string) : Outcome (Token * string) :=
  let '(digits, rest) := read_while chars.isdigit ss in
  let parsed_num := String.String c digits in
  match stoi parsed_num with
  | Some result => Done (token_type.Number result, rest)
  | Datatypes.None => Throw (MkLexerError "Number conversion error")
  end.

(** [Token Lexer::ReadIdentifiersOrNumber(char c, std::istream& ss)]. *)
Definition ReadIdentifiersOrNumber (c : ascii) (ss : string) : Outcome (Token * string) :=
  if chars.isdigit c then ReadNumber c ss
  else
    let '(run, rest) :=
      read_while (fun p => chars.isalnum p || chars.eqb p "_"%char) ss in
    let parsed := String.String c run in
    match key_words_ !! parsed with
    | Some t => Done (t, rest)
    | Datatypes.None => Done (token_type.Id parsed, rest)
    end.

(** The [switch] of [ReadStrings] on the character after a backslash. *)
Definition escape (c : ascii) : option ascii :=
  if chars.eqb c chars.quote then Some chars.quote
  else if chars.eqb c "n"%char then Some chars.LF
  else if chars.eqb c "r"%char then Some chars.CR
  else if chars.eqb c chars.apostrophe then Some chars.apostrophe
  else if chars.eqb c "t"%char then Some chars.TAB
  else if chars.eqb c chars.backslash then Some chars.backslash
  else Datatypes.None.

(** [Token Lexer::ReadStrings(char c, std::istream& ss)], with [line] the
    text read so far.  At the end of the stream [ReadChar] throws
    "Failed read" on its second call; a backslash that ends the stream
    reaches the [default] of the [switch]. *)
Fixpoint ReadStrings_loop (c : ascii) (ss : string) (line : string)
  : Outcome (Token * string) :=
  match ss with
  | EmptyString => Throw (MkLexerError "Failed read")
  | String.String x rest =>
      if chars.eqb x c then Done (token_type.String line, rest)
      else if chars.eqb x chars.backslash then
        match rest with
        | EmptyString => Throw (MkLexerError "Failed string")
        | String.String e rest' =>
            match escape e with
            | Some r => ReadStrings_loop c rest' (line +:+ String.String r EmptyString)
            | Datatypes.None => Throw (MkLexerError "Failed string")
            end
        end
      else ReadStrings_loop c rest (line +:+ String.String x EmptyString)
  end.

Definition ReadStrings (c : ascii) (ss : string) : Outcome (Token * string) :=
  ReadStrings_loop c ss EmptyString.

(** The bodies of the two loops of [ReadIndents]. *)
Definition push_Indent (lx : Lexer) : Lexer :=
  MkLexer (token_ lx ++ [token_type.Indent]) (S (indents lx)).

Definition push_Dedent (lx : Lexer) : Lexer :=
  MkLexer (token_ lx ++ [token_type.Dedent]) (pred (indents lx)).

(** [void Lexer::ReadIndents(size_t count_spaces)]: the loop variable [i]
    runs from [last_indents] up to [count_spaces], or from [count_spaces]
    up to [last_indents]. *)
Definition ReadIndents (count_spaces : nat) (lx : Lexer) : Lexer :=
  let last_indents := indents lx in
  let lx1 :=
    if (indents lx <? count_spaces)%nat
    then Nat.iter (count_spaces - last_indents) push_Indent lx
    else lx in
  if (count_spaces <? indents lx1)%nat
  then Nat.iter (last_indents - count_spaces) push_Dedent lx1
  else lx1.

(** Sequencing of lexer routines: an exception ends the sequence. *)
Definition bind {A B : Type} (c : Outcome A) (k : A -> Outcome B) : Outcome B :=
  match c with
  | Done a => k a
  | Throw e => Throw e
  | OutOfFuel => OutOfFuel
  end.

Notation "'let*' p ':=' c 'in' k" := (bind c (fun p => k))
  (at level 10, p pattern, c at level 100, k at level 200).

(** [ss.peek() == ch]; at the end of the stream [peek] gives [EOF]. *)
Definition peek_is (ch : ascii) (ss : string) : bool :=
  match ss with
  | String.String x _ => chars.eqb x ch
  | EmptyString => false
  end.

(** [ss.get()] or [ss.ignore()], for the stream that is left. *)
Definition ignore (ss : string) : string :=
  match ss with
  | String.String _ rest => rest
  | EmptyString => EmptyString
  end.

(** The block [if (IsPunct(c)) { ... }] of [ReadToken]; [ss] is the line
    after [c]. *)
Definition punct_block (c : ascii) (token_ : list Token) (ss : string)
  : list Token * string :=
  if IsPunct c then
    let token_1 :=
      if (chars.count delimiter_ c =? 1)%nat
         || (chars.count ariphmetic_operations_ c =? 1)%nat
      then token_ ++ [token_type.Char c]
      else token_ in
    if (chars.count logic_operations_ c =? 1)%nat then
      if peek_is "="%char ss then
        let parsed := String.String c (String.String "="%char EmptyString) in
        match key_words_ !! parsed with
        | Some t => (token_1 ++ [t], ignore ss)
        | Datatypes.None => (token_1, ignore ss)
        end
      else (token_1 ++ [token_type.Char c], ss)
    else (token_1, ss)
  else (token_, ss).

(** The block [if (IsIdentifiersOrNumber(c)) { ... }]. *)
Definition identifier_block (c : ascii) (token_ : list Token) (ss : string)
  : Outcome (list Token * string) :=
  if IsIdentifiersOrNumber c then
    let* (t, rest) := ReadIdentifiersOrNumber c ss in
    Done (token_ ++ [t], rest)
  else Done (token_, ss).

(** The block [if (IsString(c)) { ... }]. *)
Definition string_block (c : ascii) (token_ : list Token) (ss : string)
  : Outcome (list Token * string) :=
  if IsString c then
    let* (t, rest) := ReadStrings c ss in
    Done (token_ ++ [t], rest)
  else Done (token_, ss).

(** The loop [while (ss.get(c)) { ... }] of [ReadToken] over the body of
    one line.  Every round consumes a character, so [fuel] rounds are
    enough for a line of [fuel] characters. *)
Fixpoint ScanLine (fuel : nat) (ss : string) (token_ : list Token)
  : Outcome (list Token) :=
  match ss with
  | EmptyString => Done token_
  | String.String c ss1 =>
      match fuel with
      | 0 => OutOfFuel
      | S fuel' =>
          if chars.eqb c chars.hash then Done token_
          else if chars.isspace c then ScanLine fuel' ss1 token_
          else
            let '(token_1, ss2) := punct_block c token_ ss1 in
            let* (token_2, ss3) := identifier_block c token_1 ss2 in
            let* (token_3, ss4) := string_block c token_2 ss3 in
            ScanLine fuel' ss4 token_3
      end
  end.

Definition ReadBody (ss : string) (token_ : list Token) : Outcome (list Token) :=
  ScanLine (String.length ss) ss token_.

(** The body of the loop [while (getline(in_, line)) { ... }]. *)
Definition ReadLine (line : string) (lx : Lexer) : Outcome Lexer :=
  if negb (IsEmptyLine line) then
    match find_first_not_of chars.SP line with
    | Datatypes.None => Throw (MkLexerError "Invalid indents")
    | Some count_space =>
        if negb (count_space mod 2 =? 0)%nat
        then Throw (MkLexerError "Invalid indents")
        else
          let lx1 := ReadIndents (count_space / 2) lx in
          let* toks := ReadBody (substr count_space line) (token_ lx1) in
          Done (MkLexer (toks ++ [token_type.Newline]) (indents lx1))
    end
  else Done lx.

(** The lines [std::getline] delivers: a line ends at a line feed, which
    is dropped; the characters after the last line feed are a line when
    there are any.  [cur] is the line read so far. *)
Fixpoint getlines_from (cur : string) (input : string) : list string :=
  match input with
  | EmptyString => match cur with EmptyString => [] | _ => [cur] end
  | String.String c rest =>
      if chars.eqb c chars.LF then cur :: getlines_from EmptyString rest
      else getlines_from (cur +:+ String.String c EmptyString) rest
  end.

Definition getlines (input : string) : list string :=
  getlines_from EmptyString input.

Fixpoint ReadLines (lines : list string) (lx : Lexer) : Outcome Lexer :=
  match lines with
  | [] => Done lx
  | line :: rest => let* lx1 := ReadLine line lx in ReadLines rest lx1
  end.

(** [void Lexer::ReadToken()] on the input [in_]. *)
Definition ReadToken (in_ : string) (lx : Lexer) : Outcome Lexer :=
  let* lx1 := ReadLines (getlines in_) lx in
  let lx2 := if (0 <? indents lx1)%nat then ReadIndents 0 lx1 else lx1 in
  Done (MkLexer (token_ lx2 ++ [token_type.Eof]) (indents lx2)).

(** [Lexer::Lexer(std::istream& input)]. *)
Definition new_Lexer (input : string) : Outcome Lexer :=
  ReadToken input (MkLexer [] 0).

(** [const Token& Lexer::CurrentToken() const]; the deque is never empty
    after construction. *)
Definition CurrentToken (lx : Lexer) : option Token := head (token_ lx).

(** [Token Lexer::NextToken()]. *)
Definition NextToken (lx : Lexer) : option Token * Lexer :=
  let lx1 :=
    if (1 <? length (token_ lx))%nat then MkLexer (tail (token_ lx)) (indents lx)
    else lx in
  (CurrentToken lx1, lx1).

(** The tokens of an input, when the lexer accepts it. *)
Definition tokens (input : string) : Outcome (list Token) :=
  let* lx := new_Lexer input in Done (token_ lx).

(** *** Printing and expecting tokens *)

(** [os << value] for an [int]: its decimal digits, after a minus sign
    when it is negative. *)
Definition show_int (value : Z) : string :=
  DecimalString.NilZero.string_of_int (Z.to_int value).

(** [std::ostream& operator<<(std::ostream& os, const Token& rhs)]: the
    text written. *)
Definition show_Token (rhs : Token) : string :=
  match rhs with
  | token_type.Number value => "Number{" +:+ show_int value +:+ "}"
  | token_type.Id value => "Id{" +:+ value +:+ "}"
  | token_type.String value => "String{" +:+ value +:+ "}"
  | token_type.Char value => "Char{" +:+ String.String value "}"
  | token_type.Class => "Class"
  | token_type.Return => "Return"
  | token_type.If => "If"
  | token_type.Else => "Else"
  | token_type.Def => "Def"
  | token_type.Newline => "Newline"
  | token_type.Print => "Print"
  | token_type.Indent => "Indent"
  | token_type.Dedent => "Dedent"
  | token_type.And => "And"
  | token_type.Or => "Or"
  | token_type.Not => "Not"
  | token_type.Eq => "Eq"
  | token_type.NotEq => "NotEq"
  | token_type.LessOrEq => "LessOrEq"
  | token_type.GreaterOrEq => "GreaterOrEq"
  | token_type.None => "None"
  | token_type.True => "True"
  | token_type.False => "False"
  | token_type.Eof => "Eof"
  end.

(** The alternatives of [TokenBase], as the template arguments [T] of
    [Is], [Expect] and [ExpectNext]. *)
Module tag.

Inductive Tag : Type :=
| Number | Id | Char | String
| Class | Return | If | Else | Def | Newline | Print | Indent | Dedent
| And | Or | Not | Eq | NotEq | LessOrEq | GreaterOrEq
| None | True | False | Eof.

End tag.


(** [T()]: the value-initialised token of the alternative [T]. *)
Definition default_Token (T : tag.Tag) : Token :=
  match T with
  | tag.Number => token_type.Number 0
  | tag.Id => token_type.Id EmptyString
  | tag.Char => token_type.Char (Ascii.ascii_of_nat 0)
  | tag.String => token_type.String EmptyString
  | tag.Class => token_type.Class
  | tag.Return => token_type.Return
  | tag.If => token_type.If
  | tag.Else => token_type.Else
  | tag.Def => token_type.Def
  | tag.Newline => token_type.Newline
  | tag.Print => token_type.Print
  | tag.Indent => token_type.Indent
  | tag.Dedent => token_type.Dedent
  | tag.And => token_type.And
  | tag.Or => token_type.Or
  | tag.Not => token_type.Not
  | tag.Eq => token_type.Eq
  | tag.NotEq => token_type.NotEq
  | tag.LessOrEq => token_type.LessOrEq
  | tag.GreaterOrEq => token_type.GreaterOrEq
  | tag.None => token_type.None
  | tag.True => token_type.True
  | tag.False => token_type.False
  | tag.Eof => token_type.Eof
  end.

(** [Token::Is<T>()], [std::holds_alternative<T>]. *)
Definition Is (T : tag.Tag) (t : Token) : bool :=
  (index t =? index (default_Token T))%nat.

(** The member [value] of the four alternatives that have one. *)
Inductive Payload : Type :=
| int_value (v : Z)
| string_value (v : string)
| char_value (v : ascii).

Definition value_of (t : Token) : option Payload :=
  match t with
  | token_type.Number v => Some (int_value v)
  | token_type.Id v => Some (string_value v)
  | token_type.String v => Some (string_value v)
  | token_type.Char v => Some (char_value v)
  | _ => Datatypes.None
  end.

(** [token.value != value], for a [value] of the type of the member. *)
Definition value_differs (t : Token) (value : Payload) : bool :=
  match value_of t, value with
  | Some (int_value a), int_value b => negb (a =? b)%Z
  | Some (string_value a), string_value b => negb (String.eqb a b)
  | Some (char_value a), char_value b => negb (chars.eqb a b)
  | _, _ => true
  end.

(** The message that an exception made from the string [s] delivers:
    [what()] returns a C string, which ends before the first NUL
    character of [s]. *)
Fixpoint c_str (s : string) : string :=
  match s with
  | EmptyString => EmptyString
  | String.String c rest =>
      if chars.eqb c (Ascii.ascii_of_nat 0) then EmptyString
      else String.String c (c_str rest)
  end.

(** The error of [Expect] and [ExpectNext] for the alternative [T]:
    [LexerError("Lexer expects token "s + ss.str())] after [ss << T()].
    The value-initialised [Char] holds the NUL character, so for [Char]
    the message ends after the opening brace. *)
Definition expects (T : tag.Tag) : LexerError :=
  MkLexerError (c_str ("Lexer expects token " +:+ show_Token (default_Token T))).

(** [template<typename T> const T& Lexer::Expect() const]; [None] when
    the deque is empty, where [front()] is undefined. *)
Definition Expect (T : tag.Tag) (lx : Lexer) : option (Outcome Token) :=
  match CurrentToken lx with
  | Some t => Some (if Is T t then Done t else Throw (expects T))
  | Datatypes.None => Datatypes.None
  end.

(** [template<typename T, typename U> void Lexer::Expect(const U& value)
    const]. *)
Definition Expect_value (T : tag.Tag) (value : Payload) (lx : Lexer)
  : option (Outcome unit) :=
  match Expect T lx with
  | Some (Done token) =>
      Some (if value_differs token value then Throw (expects T) else Done tt)
  | Some (Throw e) => Some (Throw e)
  | Some OutOfFuel => Some OutOfFuel
  | Datatypes.None => Datatypes.None
  end.


Definition ExpectNext_value (T : tag.Tag) (value : Payload) (lx : Lexer)
  : option (Outcome unit) * Lexer :=
  let lx1 := (NextToken lx).2 in (Expect_value T value lx1, lx1).

(** The lexer after [k] calls of [NextToken]. *)
Definition advance (k : nat) (lx : Lexer) : Lexer :=
  Nat.iter k (fun l => (NextToken l).2) lx.

End parse.

(** ** Vocabulary for the statements about the lexer *)

Module lexer_spec.

Import parse.

(** The tokens that the body of a line can produce: all but the four
    layout tokens. *)
Definition body_token (t : Token) : bool :=
  match t with
  | token_type.Newline | token_type.Indent | token_type.Dedent
  | token_type.Eof => false
  | _ => true
  end.

(** [n] space characters. *)
Fixpoint spaces (n : nat) : string :=
  match n with
  | 0 => EmptyString
  | S k => String.String chars.SP (spaces k)
  end.

(** A line made of space characters only (the empty line included), or
    whose first character other than a space is the hash sign. *)
Definition blank_line (line : string) : Prop :=
  (exists n, line = spaces n)
  \/ (exists n rest, line = spaces n +:+ String.String chars.hash rest).

(** Every character of the line is white space for [isspace]. *)
Fixpoint whitespace_only (line : string) : bool :=
  match line with
  | EmptyString => true
  | String.String c rest => chars.isspace c && whitespace_only rest
  end.

(** A character that no branch of the scanning loop recognises. *)
Definition unrecognised (c : ascii) : Prop :=
  chars.isspace c = false
  /\ c <> chars.hash
  /\ IsString c = false
  /\ IsIdentifiersOrNumber c = false
  /\ chars.count delimiter_ c = 0
  /\ chars.count logic_operations_ c = 0
  /\ chars.count ariphmetic_operations_ c = 0.

(** The non-blank lines of an input, as [ReadToken] tells them apart. *)
Definition code_lines (input : string) : list string :=
  List.filter (fun line => negb (IsEmptyLine line)) (getlines input).

(** The token stream of [chunks], one chunk per line, each closed by a
    [Newline]. *)
Definition with_newlines (chunks : list (list Token)) : list Token :=
  concat (map (fun chunk => chunk ++ [token_type.Newline]) chunks).

(** [chunk] is what the lexer pushes for the line before the [Newline]
    that ends it. *)
Definition line_chunk (line : string) (chunk : list Token) : Prop :=
  exists lx lx',
    ReadLine line lx = Done lx'
    /\ token_ lx' = token_ lx ++ chunk ++ [token_type.Newline].

(** What one round of the scanning loop appends, and that it does not
    put characters back. *)
Definition round_ok (token_ : list Token) (ss : string)
    (r : list Token * string) : Prop :=
  (exists new, r.1 = token_ ++ new /\ Forall (fun t => body_token t = true) new)
  /\ String.length r.2 <= String.length ss.

(** The input of scenario 1 and the tokens the spec expects for it. *)
Definition scenario1 : string :=
  "x = 1" +:+ String.String chars.LF
  ("if x:" +:+ String.String chars.LF
  ("  y = 2" +:+ String.String chars.LF
  ("  print y" +:+ String.String chars.LF
  ("print x" +:+ String.String chars.LF EmptyString)))).

Definition scenario1_tokens : list Token :=
  [ token_type.Id "x"; token_type.Char "="; token_type.Number 1; token_type.Newline;
    token_type.If; token_type.Id "x"; token_type.Char ":"; token_type.Newline;
    token_type.Indent;
    token_type.Id "y"; token_type.Char "="; token_type.Number 2; token_type.Newline;
    token_type.Print; token_type.Id "y"; token_type.Newline;
    token_type.Dedent;
    token_type.Print; token_type.Id "x"; token_type.Newline;
    token_type.Eof ].

(** A line that holds one tab character, and an input with such a line
    inside an indented block. *)
Definition tab_line : string := String.String chars.TAB EmptyString.

Definition block_with_tab_line : string :=
  "if x:" +:+ String.String chars.LF
  ("  y" +:+ String.String chars.LF
  (tab_line +:+ String.String chars.LF
  ("  z" +:+ String.String chars.LF EmptyString))).

End lexer_spec.

(** ** Further vocabulary for the lexer *)

Module lexer_extra.

Import parse lexer_spec.

(** A character of an identifier, and a first character of one. *)
Definition ident_char (c : ascii) : bool := chars.isalnum c || chars.eqb c "_"%char.

Definition ident_start (c : ascii) : bool := chars.isalpha c || chars.eqb c "_"%char.

Fixpoint all_chars (p : ascii -> bool) (s : string) : bool :=
  match s with
  | EmptyString => true
  | String.String c rest => p c && all_chars p rest
  end.

(** A name: a letter or an underscore, then letters, digits and
    underscores. *)
Definition is_identifier (s : string) : bool :=
  match s with
  | EmptyString => false
  | String.String c rest => ident_start c && all_chars ident_char rest
  end.

(** What the lexer promises about a token it emits: a [Number] is
    between 0 and [INT_MAX], an [Id] is a name that is no keyword, a
    [Char] is one of the punctuation characters other than the hash
    sign. *)
Definition well_formed (t : Token) : Prop :=
  match t with
  | token_type.Number value => (0 <= value <= INT_MAX)%Z
  | token_type.Id value => is_identifier value = true /\ key_words_ !! value = Datatypes.None
  | token_type.Char value => IsPunct value = true /\ value <> chars.hash
  | _ => True
  end.

(** A line of code that starts after an odd number of spaces. *)
Definition odd_indent (line : string) : Prop :=
  exists k c rest,
    line = spaces (2 * k + 1) +:+ String.String c rest
    /\ c <> chars.SP /\ c <> chars.hash.

(** The text of a string literal for [s], without the quotes: the two
    quotes, the backslash, line feed, carriage return and tab are written
    as escapes. *)
Definition escaped (c : ascii) : string :=
  let esc (x : ascii) := String.String chars.backslash (String.String x EmptyString) in
  if chars.eqb c chars.quote then esc chars.quote
  else if chars.eqb c chars.apostrophe then esc chars.apostrophe
  else if chars.eqb c chars.backslash then esc chars.backslash
  else if chars.eqb c chars.LF then esc "n"%char
  else if chars.eqb c chars.CR then esc "r"%char
  else if chars.eqb c chars.TAB then esc "t"%char
  else String.String c EmptyString.

Fixpoint literal_text (s : string) : string :=
  match s with
  | EmptyString => EmptyString
  | String.String c rest => escaped c +:+ literal_text rest
  end.

(** No character of [s] is [c]. *)
Definition free_of (c : ascii) (s : string) : bool :=
  all_chars (fun x => negb (chars.eqb x c)) s.

(** The stream is at its end or at a character that cannot go on a
    name. *)
Definition word_end (rest : string) : bool :=
  match rest with
  | EmptyString => true
  | String.String c _ => negb (ident_char c)
  end.

(** The token of a word: the keyword it spells, or an identifier. *)
Definition word_token (s : string) : Token :=
  match key_words_ !! s with
  | Some t => t
  | Datatypes.None => token_type.Id s
  end.

(** The comparison operator that [c] followed by an equals sign
    spells. *)
Definition comparison_token (c : ascii) : option Token :=
  if chars.eqb c "="%char then Some token_type.Eq
  else if chars.eqb c "!"%char then Some token_type.NotEq
  else if chars.eqb c "<"%char then Some token_type.LessOrEq
  else if chars.eqb c ">"%char then Some token_type.GreaterOrEq
  else Datatypes.None.


(** A character of code outside string literals: neither the hash sign
    nor a quote. *)
Definition code_char (c : ascii) : bool :=
  negb (chars.eqb c chars.hash) && negb (IsString c).

(** The [Dedent] tokens of [toks] never outnumber the [Indent] tokens
    before them, and [level] more blocks are open at the end than are
    closed. *)
Definition nested (toks : list Token) (level : nat) : Prop :=
  (forall k, count_token token_type.Dedent (take k toks)
             <= count_token token_type.Indent (take k toks))
  /\ count_token token_type.Indent toks
     = count_token token_type.Dedent toks + level.

End lexer_extra.

(** ** The evaluator ([statement.cpp]) *)

Module ast.

(** The comparison function a [Comparison] node is built with, by its
    name; the runtime interprets it ([Compare] below). *)
Definition Comparator : Type := string.

#[local] Unset Elimination Schemes.

(** Modelled from the spec: the four literal nodes and the shape of
    [Class] and [Method]; [statement.h] and the runtime library are not
    part of the sources.  The literal nodes are the spec's NumericLiteral,
    StringLiteral, BoolLiteral and NoneLiteral ("return the corresponding
    Value"); [Class] is the spec's [Class{name, methods, parent?}], a
    method being a name, its formal parameters and a body.

    The other constructors are the classes that [statement.cpp] gives an
    [Execute] to, with the members of the class as arguments
    ([FieldAssignment] holds the dotted path of its [VariableValue]
    member; a null [unique_ptr] is [None]). *)
Inductive Statement : Type :=
| NumericLiteral (value : Z)
| StringLiteral (value : string)
| BoolLiteral (value : bool)
| NoneLiteral
| VariableValue (dotted_ids : list string)
| Assignment (var : string) (rv : Statement)
| FieldAssignment (object : list string) (field_name : string) (rv : Statement)
| Print (args : list Statement)
| MethodCall (object : Statement) (method : string) (args : list Statement)
| Stringify (argument : Statement)
| Add (lhs rhs : Statement)
| Sub (lhs rhs : Statement)
| Mult (lhs rhs : Statement)
| Div (lhs rhs : Statement)
| Compound (statements : list Statement)
| Return (statement : Statement)
| ClassDefinition (cls : Class)
| IfElse (condition : Statement) (if_body else_body : option Statement)
| Or (lhs rhs : Statement)
| And (lhs rhs : Statement)
| Not (argument : Statement)
| Comparison (cmp : Comparator) (lhs rhs : Statement)
| NewInstance (class_ : Class) (args : list Statement)
| MethodBody (body : Statement)
with Class : Type :=
| MkClass (name : string) (methods : list Method) (parent : option Class)
with Method : Type :=
| MkMethod (name : string) (formal_params : list string) (body : Statement).

#[local] Set Elimination Schemes.

(** Modelled from the spec: [Class::GetName() -> string]. *)
Definition GetName (c : Class) : string :=
  match c with MkClass name _ _ => name end.

(** Modelled from the spec: the variants of [runtime::Object],
    [Number{int}], [String{text}], [Bool{bool}], [ClassInstance] and
    [Class].  Instances are shared and mutable, so a [ClassInstance] value
    is the address of the instance in the heap. *)
Inductive Object : Type :=
| Number (value : Z)
| String (value : string)
| Bool (value : bool)
| ClassInstance (address : nat)
| ClassObject (cls : Class).

(** Modelled from the spec: [runtime::ObjectHolder], "an opaque shared
    handle that either is empty (denotes None) or shares ownership of an
    Object". *)
Definition ObjectHolder : Type := option Object.

(** Modelled from the spec: [ObjectHolder::TryAs<T>() -> raw_ptr_or_null];
    [None] is the null pointer. *)
Definition TryAs_Number (h : ObjectHolder) : option Z :=
  match h with Some (Number v) => Some v | _ => None end.

Definition TryAs_String (h : ObjectHolder) : option string :=
  match h with Some (String v) => Some v | _ => None end.

Definition TryAs_ClassInstance (h : ObjectHolder) : option nat :=
  match h with Some (ClassInstance a) => Some a | _ => None end.

(** Modelled from the spec: [runtime::Closure], "a mutable mapping from
    identifier name to Value". *)
Abbreviation Closure := (gmap string ObjectHolder).

(** Modelled from the spec: [ClassInstance{class_ref, fields}], a class
    instance in memory, with its class and its [Fields()]. *)
Record Instance : Type := MkInstance {
  class_of : Class;
  Fields : gmap string ObjectHolder
}.

(** Modelled from the spec: [runtime::Context] "carries the output
    sink"; the stream of [GetOutputStream()] is the text written so far
    and whether the stream is in a good state ([if (output)] in
    [Print::Execute]). *)
Record Context : Type := MkContext {
  output : string;
  output_good : bool
}.

(** What [Execute] works on besides the closure: the instances allocated
    so far, by address, and the context. *)
Record Machine : Type := MkMachine {
  heap : list Instance;
  context : Context
}.

(** What C++ code throws: [ast::Exception] (the value of a [return]),
    [std::runtime_error], and the [std::out_of_range] of
    [unordered_map::at]. *)
Inductive Thrown : Type :=
| Exception (value : ObjectHolder)
| runtime_error (what : string)
| out_of_range.

(** How a computation ends: with a value, with an exception, in
    undefined behaviour (a null pointer is dereferenced, a signed
    operation overflows), or beyond the nesting of method calls that the
    model follows. *)
Inductive Result (A : Type) : Type :=
| Value (a : A)
| Throw (e : Thrown)
| Undefined
| OutOfFuel.
Arguments Value {A} a.
Arguments Throw {A} e.
Arguments Undefined {A}.
Arguments OutOfFuel {A}.

(** A computation over a closure and a machine; both are returned as the
    computation left them, also when it does not end with a value. *)
Definition M (A : Type) : Type := Closure -> Machine -> Result A * Closure * Machine.

Definition ret {A} (a : A) : M A := fun cl m => (Value a, cl, m).

Definition throw {A} (e : Thrown) : M A := fun cl m => (Throw e, cl, m).

Definition undefined {A} : M A := fun cl m => (Undefined, cl, m).

Definition bind {A B} (c : M A) (k : A -> M B) : M B :=
  fun cl m =>
    match c cl m with
    | (Value a, cl1, m1) => k a cl1 m1
    | (Throw e, cl1, m1) => (Throw e, cl1, m1)
    | (Undefined, cl1, m1) => (Undefined, cl1, m1)
    | (OutOfFuel, cl1, m1) => (OutOfFuel, cl1, m1)
    end.

Notation "'let*' p ':=' c 'in' k" := (bind c (fun p => k))
  (at level 10, p pattern, c at level 100, k at level 200).

(** [try { c } catch (Exception& ex) { return ex.getValue(); }]. *)
Definition catch_Exception (c : M ObjectHolder) : M ObjectHolder :=
  fun cl m =>
    match c cl m with
    | (Throw (Exception value), cl1, m1) => (Value value, cl1, m1)
    | r => r
    end.

(** A call into the runtime: it sees the machine, not the closure. *)
Definition R (A : Type) : Type := Machine -> Result A * Machine.

Definition lift {A} (r : R A) : M A :=
  fun cl m => let '(res, m1) := r m in (res, cl, m1).

(** The runtime library, as the interface that [statement.cpp] calls.
    The runtime runs method bodies through the [Execute] it is handed.
    - [HasMethod c name argc]: [ClassInstance::HasMethod] on an instance
      of class [c];
    - [Call run a name args]: [ClassInstance::Call] on the instance at
      address [a];
    - [ObjectPrint run o]: [Object::Print] into a stream, as the text
      written;
    - [IsTrue];
    - [Compare run cmp lhs rhs]: the comparator [cmp]. *)
Record Runtime : Type := MkRuntime {
  HasMethod : Class -> string -> nat -> bool;
  Call : (Statement -> M ObjectHolder) -> nat -> string -> list ObjectHolder -> R ObjectHolder;
  ObjectPrint : (Statement -> M ObjectHolder) -> Object -> R string;
  IsTrue : ObjectHolder -> bool;
  Compare : (Statement -> M ObjectHolder) -> Comparator -> ObjectHolder -> ObjectHolder -> R bool
}.

Definition INT_MAX : Z := 2147483647.
Definition INT_MIN : Z := -2147483648.

Definition in_int_range (z : Z) : bool := (INT_MIN <=? z)%Z && (z <=? INT_MAX)%Z.

(** A [Number] made from the result of an [int] operation: the operation
    is undefined when its result is not an [int]. *)
Definition int_result (z : Z) : M ObjectHolder :=
  if in_int_range z then ret (Some (Number z)) else undefined.

(** [closure.count(name)] and [closure.at(name)]. *)
Definition get_var (name : string) : M (option ObjectHolder) :=
  fun cl m => (Value (cl !! name), cl, m).

(** [closure[name] = value]. *)
Definition set_var (name : string) (value : ObjectHolder) : M unit :=
  fun cl m => (Value tt, <[name := value]> cl, m).

(** [output << text]: nothing is written to a stream that is not good. *)
Definition write (text : string) : M unit :=
  fun cl m =>
    (Value tt, cl,
     if output_good (context m)
     then MkMachine (heap m)
            (MkContext (output (context m) +:+ text) (output_good (context m)))
     else m).

(** The instance a [ClassInstance*] points to; there is none at an
    address that was never allocated. *)
Definition instance_at (a : nat) : M Instance :=
  fun cl m =>
    match heap m !! a with
    | Some inst => (Value inst, cl, m)
    | None => (Undefined, cl, m)
    end.

(** Replaces the fields of the instance at [a]. *)
Definition set_Fields (a : nat) (fields : gmap string ObjectHolder) : M unit :=
  fun cl m =>
    match heap m !! a with
    | Some inst =>
        (Value tt, cl,
         MkMachine (<[a := MkInstance (class_of inst) fields]> (heap m)) (context m))
    | None => (Undefined, cl, m)
    end.

(** [new runtime::ClassInstance(cls)]: a fresh instance without fields. *)
Definition new_ClassInstance (cls : Class) : M nat :=
  fun cl m =>
    (Value (length (heap m)), cl,
     MkMachine (heap m ++ [MkInstance cls ∅]) (context m)).

(** [parent.TryAs<runtime::ClassInstance>()->Fields().at(name)], the
    function that [VariableValue::Execute] folds over the dotted path. *)
Definition field_at (parent : ObjectHolder) (name : string) : M ObjectHolder :=
  match TryAs_ClassInstance parent with
  | None => undefined
  | Some a =>
      let* inst := instance_at a in
      match Fields inst !! name with
      | Some value => ret value
      | None => throw out_of_range
      end
  end.

(** [std::accumulate(first, last, init, field_at)]. *)
Fixpoint accumulate (names : list string) (init : ObjectHolder) : M ObjectHolder :=
  match names with
  | [] => ret init
  | name :: rest => let* next := field_at init name in accumulate rest next
  end.

(** [VariableValue::Execute]. *)
Definition VariableValue_Execute (dotted_ids : list string) : M ObjectHolder :=
  match dotted_ids with
  | [] => undefined
  | var_name :: rest =>
      let* found := get_var var_name in
      match found with
      | None => throw (runtime_error ("unknown variable " +:+ var_name))
      | Some value => accumulate rest value
      end
  end.

(** [Fields()[field_name]] on the instance at [a]: the entry is created,
    holding an empty holder, when the map has none for the name. *)
Definition Fields_subscript (a : nat) (field_name : string) : M unit :=
  let* inst := instance_at a in
  match Fields inst !! field_name with
  | Some _ => ret tt
  | None => set_Fields a (<[field_name := None]> (Fields inst))
  end.

(** [field = value] through the reference that [Fields()[field_name]]
    gave. *)
Definition Fields_store (a : nat) (field_name : string) (value : ObjectHolder) : M unit :=
  let* inst := instance_at a in
  set_Fields a (<[field_name := value]> (Fields inst)).

(** The loops [for (arg : args_) actual_args.push_back(arg->Execute(..))]. *)
Definition eval_args (exec : Statement -> M ObjectHolder)
  : list Statement -> M (list ObjectHolder) :=
  fix go (args : list Statement) : M (list ObjectHolder) :=
    match args with
    | [] => ret []
    | arg :: rest =>
        let* value := exec arg in
        let* values := go rest in
        ret (value :: values)
    end.

(** One round of the loop of [Compound::Execute] for the statement [st],
    [run_st] being its [Execute] and [rest] the rounds that follow. *)
Definition Compound_round (st : Statement) (run_st : M ObjectHolder)
    (rest : M ObjectHolder) : M ObjectHolder :=
  match st with
  | Return _ => run_st
  | IfElse _ _ _ | MethodCall _ _ _ =>
      let* result := run_st in
      match result with
      | Some _ => ret result
      | None => rest
      end
  | _ => let* _ := run_st in rest
  end.

(** [Compound::Execute] over [statements_]. *)
Definition Compound_Execute (exec : Statement -> M ObjectHolder)
  : list Statement -> M ObjectHolder :=
  fix go (statements : list Statement) : M ObjectHolder :=
    match statements with
    | [] => ret None
    | st :: rest => Compound_round st (exec st) (go rest)
    end.

Section Evaluator.

Variable rt : Runtime.

(** [Execute] as the runtime gets it, for the bodies of the methods it
    runs. *)
Variable run : Statement -> M ObjectHolder.

(** [object->Print(output, context)] for a holder, with "None" for the
    empty one: the text that goes to the stream. *)
Definition render (object : ObjectHolder) : M string :=
  match object with
  | Some o => lift (ObjectPrint rt run o)
  | None => ret "None"
  end.

(** The loop of [Print::Execute]: after the first argument, a space is
    written before the argument is evaluated. *)
Definition Print_loop (exec : Statement -> M ObjectHolder)
  : bool -> list Statement -> M unit :=
  fix go (first_ : bool) (args : list Statement) : M unit :=
    match args with
    | [] => ret tt
    | statement :: rest =>
        let* _ := (if first_ then ret tt else write " ") in
        let* object := exec statement in
        let* text := render object in
        let* _ := write text in
        go false rest
    end.

(** [class_instance->HasMethod(name, argc)]. *)
Definition instance_HasMethod (a : nat) (name : string) (argc : nat) : M bool :=
  let* inst := instance_at a in
  ret (HasMethod rt (class_of inst) name argc).

(** [executeBinaryOperationOnClasses]. *)
Definition executeBinaryOperationOnClasses (lhs : nat) (rhs : ObjectHolder)
    (operation : string) : M (option ObjectHolder) :=
  let* has := instance_HasMethod lhs operation 1 in
  if has then
    let* result := lift (Call rt run lhs operation [rhs]) in ret (Some result)
  else ret None.

(** The end of [Add], [Sub], [Mult] and [Div::Execute]: the operator
    method of a class instance on the left, or the error of the node. *)
Definition class_operation (lhs_h rhs_h : ObjectHolder)
    (operation what : string) : M ObjectHolder :=
  match TryAs_ClassInstance lhs_h with
  | Some a =>
      let* result := executeBinaryOperationOnClasses a rhs_h operation in
      match result with
      | Some value => ret value
      | None => throw (runtime_error what)
      end
  | None => throw (runtime_error what)
  end.

(** The truth value that [Or], [And] and [Not] take from an operand: an
    empty holder is replaced by [Bool(false)]. *)
Definition truth (h : ObjectHolder) : bool :=
  match h with
  | Some _ => IsTrue rt h
  | None => IsTrue rt (Some (Bool false))
  end.

(** [Statement::Execute(closure, context)], by the class of the node.
    Two remarks.  [MethodBody] keeps its body in a [Compound] member (the
    constructor calls [body_.AddStatement]), so its [Execute] runs one
    round of [Compound::Execute] inside the [try].  In [Comparison] the
    operands are the arguments of one call of the comparator; C++ does
    not fix the order in which the arguments of a call are evaluated,
    and the program as g++ compiles it evaluates the right operand
    first, then the left one: so does [Execute_node]. *)
Fixpoint Execute_node (s : Statement) {struct s} : M ObjectHolder :=
  match s with
  | NumericLiteral value => ret (Some (Number value))
  | StringLiteral value => ret (Some (String value))
  | BoolLiteral value => ret (Some (Bool value))
  | NoneLiteral => ret None
  | VariableValue dotted_ids => VariableValue_Execute dotted_ids
  | Assignment var rv =>
      let* new_value := Execute_node rv in
      let* _ := set_var var new_value in
      ret new_value
  | FieldAssignment object field_name rv =>
      let* target := VariableValue_Execute object in
      match TryAs_ClassInstance target with
      | None => undefined
      | Some a =>
          let* _ := Fields_subscript a field_name in
          let* value := Execute_node rv in
          let* _ := Fields_store a field_name value in
          ret value
      end
  | Print args =>
      fun cl m =>
        if output_good (context m) then
          (let* _ := Print_loop Execute_node true args in
           let* _ := write (String.String chars.LF EmptyString) in
           ret None) cl m
        else ret None cl m
  | MethodCall object method args =>
      let* actual_args := eval_args Execute_node args in
      let* receiver := Execute_node object in
      match TryAs_ClassInstance receiver with
      | Some class_instance =>
          let* has := instance_HasMethod class_instance method (length actual_args) in
          if has then lift (Call rt run class_instance method actual_args)
          else throw (runtime_error ("Bad Method call: " +:+ method))
      | None => throw (runtime_error ("Bad Method call: " +:+ method))
      end
  | Stringify argument =>
      let* str := Execute_node argument in
      match str with
      | None => ret (Some (String "None"))
      | Some o =>
          let* out := lift (ObjectPrint rt run o) in
          ret (Some (String out))
      end
  | Add lhs rhs =>
      let* lhs_h := Execute_node lhs in
      let* rhs_h := Execute_node rhs in
      match TryAs_Number lhs_h, TryAs_Number rhs_h with
      | Some a, Some b => int_result (a + b)
      | _, _ =>
          match TryAs_String lhs_h, TryAs_String rhs_h with
          | Some a, Some b => ret (Some (String (a +:+ b)))
          | _, _ => class_operation lhs_h rhs_h "__add__" "Bad Addition!"
          end
      end
  | Sub lhs rhs =>
      let* lhs_h := Execute_node lhs in
      let* rhs_h := Execute_node rhs in
      match TryAs_Number lhs_h, TryAs_Number rhs_h with
      | Some a, Some b => int_result (a - b)
      | _, _ => class_operation lhs_h rhs_h "__sub__" "Bad Subtraction!"
      end
  | Mult lhs rhs =>
      let* lhs_h := Execute_node lhs in
      let* rhs_h := Execute_node rhs in
      match TryAs_Number lhs_h, TryAs_Number rhs_h with
      | Some a, Some b => int_result (a * b)
      | _, _ => class_operation lhs_h rhs_h "__mul__" "Bad Multiplication!"
      end
  | Div lhs rhs =>
      let* lhs_h := Execute_node lhs in
      let* rhs_h := Execute_node rhs in
      match TryAs_Number lhs_h, TryAs_Number rhs_h with
      | Some a, Some b =>
          if (b =? 0)%Z then throw (runtime_error "Zero Division!")
          else int_result (Z.quot a b)
      | _, _ => class_operation lhs_h rhs_h "__div__" "Bad Division!"
      end
  | Compound statements => Compound_Execute Execute_node statements
  | Return statement =>
      let* value := Execute_node statement in
      throw (Exception value)
  | ClassDefinition cls =>
      let* _ := set_var (GetName cls) (Some (ClassObject cls)) in
      ret None
  | IfElse condition if_body else_body =>
      let* cond := Execute_node condition in
      let run_else :=
        match else_body with
        | Some body => Execute_node body
        | None => ret None
        end in
      match cond with
      | Some _ =>
          if IsTrue rt cond then
            match if_body with
            | Some body => Execute_node body
            | None => ret None
            end
          else run_else
      | None => run_else
      end
  | Or lhs rhs =>
      let* lhs_h := Execute_node lhs in
      let* rhs_h := Execute_node rhs in
      ret (Some (Bool (truth lhs_h || truth rhs_h)))
  | And lhs rhs =>
      let* lhs_h := Execute_node lhs in
      let* rhs_h := Execute_node rhs in
      ret (Some (Bool (truth lhs_h && truth rhs_h)))
  | Not argument =>
      let* argument_h := Execute_node argument in
      ret (Some (Bool (negb (truth argument_h))))
  | Comparison cmp lhs rhs =>
      let* rhs_h := Execute_node rhs in
      let* lhs_h := Execute_node lhs in
      let* result := lift (Compare rt run cmp lhs_h rhs_h) in
      ret (Some (Bool result))
  | NewInstance class_ args =>
      let* new_instance := new_ClassInstance class_ in
      if HasMethod rt class_ "__init__" (length args) then
        let* actual_args := eval_args Execute_node args in
        let* _ := lift (Call rt run new_instance "__init__" actual_args) in
        ret (Some (ClassInstance new_instance))
      else ret (Some (ClassInstance new_instance))
  | MethodBody body =>
      catch_Exception (Compound_round body (Execute_node body) (ret None))
  end.

End Evaluator.

(** [Execute] with method calls nested at most [fuel] deep: the syntax
    tree is walked by structural recursion, and the runtime is handed the
    evaluator one level down. *)
Fixpoint Execute (rt : Runtime) (fuel : nat) : Statement -> M ObjectHolder :=
  match fuel with
  | 0 => fun _ cl m => (OutOfFuel, cl, m)
  | S n => Execute_node rt (Execute rt n)
  end.

End ast.

(** ** A runtime library *)

Module runtime_model.

Import ast.

(** Modelled from the spec: the method lookup of the runtime library
    (absent from the sources), "the class (or an ancestor) declares" a
    method of that name "with arity equal to" the number of arguments. *)
Fixpoint GetMethod (c : Class) (name : string) (argc : nat) : option Method :=
  match c with
  | MkClass _ methods parent =>
      match
        List.find
          (fun m => match m with
                    | MkMethod n params _ => String.eqb n name && (length params =? argc)%nat
                    end) methods
      with
      | Some m => Some m
      | None =>
          match parent with
          | Some p => GetMethod p name argc
          | None => None
          end
      end
  end.

(** Modelled from the spec: [ClassInstance::HasMethod(name, arity)]. *)
Definition HasMethod (c : Class) (name : string) (argc : nat) : bool :=
  match GetMethod c name argc with
  | Some _ => true
  | None => false
  end.

(** Modelled from the spec: [ClassInstance::Call(name, args, ctx)], "each
    function call executes against a fresh closure populated with
    parameter bindings"; the instance itself is bound to [self].  The
    spec does not say what a call of a method that the class lacks does;
    [statement.cpp] asks [HasMethod] before every call. *)
Definition Call (run : Statement -> M ObjectHolder) (a : nat) (name : string)
    (args : list ObjectHolder) : R ObjectHolder :=
  fun m =>
    match heap m !! a with
    | None => (Undefined, m)
    | Some inst =>
        match GetMethod (class_of inst) name (length args) with
        | None => (Undefined, m)
        | Some (MkMethod _ formal_params body) =>
            let closure : Closure :=
              <["self" := Some (ClassInstance a)]>
                (list_to_map (zip formal_params args)) in
            let '(res, _, m1) := run body closure m in (res, m1)
        end
    end.

(** The decimal digits of a natural number, least significant first;
    [fuel] bounds their number. *)
Fixpoint digits_of (fuel : nat) (n : N) : list ascii :=
  match fuel with
  | 0 => []
  | S f =>
      let d := Ascii.ascii_of_N (48 + N.modulo n 10) in
      if (n <? 10)%N then [d] else d :: digits_of f (N.div n 10)
  end.

Definition string_of_digits (ds : list ascii) : string :=
  fold_left (fun acc d => String.String d acc) ds EmptyString.

(** An [int] as [operator<<] writes it. *)
Definition decimal_text (z : Z) : string :=
  let body := string_of_digits (digits_of 20 (Z.abs_N z)) in
  if (z <? 0)%Z then String.String "-"%char body else body.

(** Modelled from the spec: [Object::Print(out, ctx)] "writes the
    object's display form".  The spec leaves the form of an instance
    open; here it is the name of the class. *)
Definition ObjectPrint (run : Statement -> M ObjectHolder) (o : Object) : R string :=
  fun m =>
    match o with
    | Number value => (Value (decimal_text value), m)
    | String value => (Value value, m)
    | Bool value => (Value (if value then "True" else "False"), m)
    | ClassObject cls => (Value ("Class " +:+ GetName cls), m)
    | ClassInstance a =>
        match heap m !! a with
        | Some inst => (Value (GetName (class_of inst)), m)
        | None => (Undefined, m)
        end
    end.

(** Modelled from the spec: [IsTrue] returns false for the empty value,
    [Bool(false)], [Number(0)] and the empty [String], and true
    otherwise. *)
Definition IsTrue (h : ObjectHolder) : bool :=
  match h with
  | None => false
  | Some (Bool b) => b
  | Some (Number n) => negb (n =? 0)%Z
  | Some (String s) => negb (String.eqb s "")
  | Some _ => true
  end.

(** Modelled from the spec: a comparator is "a function of (Value, Value,
    Context) -> bool".  The spec names none; equality and order of numbers
    stand for them here. *)
Definition Compare (run : Statement -> M ObjectHolder) (cmp : Comparator)
    (lhs rhs : ObjectHolder) : R bool :=
  fun m =>
    match TryAs_Number lhs, TryAs_Number rhs with
    | Some a, Some b =>
        if String.eqb cmp "Equal" then (Value (a =? b)%Z, m)
        else if String.eqb cmp "Less" then (Value (a <? b)%Z, m)
        else (Throw (runtime_error "Cannot compare objects"), m)
    | _, _ => (Throw (runtime_error "Cannot compare objects"), m)
    end.

Definition rt : Runtime := MkRuntime HasMethod Call ObjectPrint IsTrue Compare.

End runtime_model.

(** ** Vocabulary and sample programs for the statements about the evaluator *)

Module eval_spec.

Import ast.

(** The statements whose non-empty result ends a [Compound]. *)
Definition ends_Compound (st : Statement) : bool :=
  match st with
  | IfElse _ _ _ | MethodCall _ _ _ => true
  | _ => false
  end.

(** A condition counts as true for [IfElse] when it is not empty and
    [IsTrue]. *)
Definition holds (rt : Runtime) (cond : ObjectHolder) : bool :=
  match cond with
  | Some _ => IsTrue rt cond
  | None => false
  end.

(** The method body of scenario 5:
<<
    if cond:
      if other:
        return 7
      return 8
    return 9
>> *)
Definition scenario5 : Statement :=
  MethodBody
    (Compound
       [ IfElse (VariableValue ["cond"])
           (Some (Compound
                    [ IfElse (VariableValue ["other"])
                        (Some (Compound [Return (NumericLiteral 7)]))
                        None;
                      Return (NumericLiteral 8) ]))
           None;
         Return (NumericLiteral 9) ]).

(** The machine before anything is allocated or written. *)
Definition machine0 : Machine := MkMachine [] (MkContext "" true).

(** A class with a method [get] that returns its argument, and a machine
    with one instance of it, bound to [self]. *)
Definition Box : Class :=
  MkClass "Box"
    [ MkMethod "get" ["v"] (MethodBody (Compound [Return (VariableValue ["v"])])) ]
    None.

Definition machine1 : Machine :=
  MkMachine [MkInstance Box ∅] (MkContext "" true).

Definition closure1 : Closure :=
  <["self" := Some (ClassInstance 0)]> (<["x" := Some (Number 1)]> ∅).

(** A call whose receiver [x] is a number and whose argument divides by
    zero, and one whose argument prints. *)
Definition call_on_number : Statement :=
  MethodCall (VariableValue ["x"]) "get"
    [Div (NumericLiteral 1) (NumericLiteral 0)].

Definition call_on_number_printing : Statement :=
  MethodCall (VariableValue ["x"]) "get" [Print [StringLiteral "argument"]].

(** The machine after [Fields()[field_name]] on the instance at [a]. *)
Definition with_field_created (a : nat) (field_name : string) (m : Machine) : Machine :=
  match heap m !! a with
  | Some inst =>
      match Fields inst !! field_name with
      | Some _ => m
      | None =>
          MkMachine
            (<[a := MkInstance (class_of inst) (<[field_name := None]> (Fields inst))]>
               (heap m))
            (context m)
      end
  | None => m
  end.

(** The machine after [value] is stored in the field of the instance at
    [a]. *)
Definition with_field_stored (a : nat) (field_name : string) (value : ObjectHolder)
    (m : Machine) : Machine :=
  match heap m !! a with
  | Some inst =>
      MkMachine
        (<[a := MkInstance (class_of inst) (<[field_name := value]> (Fields inst))]>
           (heap m))
        (context m)
  | None => m
  end.

(** The fields of the instance at [a], when there is one. *)
Definition Fields_at (a : nat) (m : Machine) : option (gmap string ObjectHolder) :=
  Fields <$> heap m !! a.

(** An assignment to a field whose right-hand side divides by zero. *)
Definition failing_field_assignment : Statement :=
  FieldAssignment ["self"] "f" (Div (NumericLiteral 1) (NumericLiteral 0)).

(** [self.f = self.f]. *)
Definition field_assigned_from_itself : Statement :=
  FieldAssignment ["self"] "f" (VariableValue ["self"; "f"]).


(** The machine after [text] went to the output stream. *)
Definition written (text : string) (m : Machine) : Machine :=
  if output_good (context m)
  then MkMachine (heap m)
         (MkContext (output (context m) +:+ text) (output_good (context m)))
  else m.

Definition newline : string := String.String chars.LF EmptyString.

End eval_spec.

(** ** Further vocabulary for the evaluator *)

Module eval_extra.

Import ast eval_spec.

(** The texts, each after a space. *)
Fixpoint spaced (texts : list string) : string :=
  match texts with
  | [] => EmptyString
  | text :: rest => " " +:+ (text +:+ spaced rest)
  end.

(** The texts of a [print] statement, separated by single spaces. *)
Definition join_space (texts : list string) : string :=
  match texts with
  | [] => EmptyString
  | text :: rest => text +:+ spaced rest
  end.

(** An argument of [Print] that only reads: from every machine that has
    the heap [h] and a good output stream, it has a value, the value is
    rendered as [text], and the closure and the machine stay as they
    are. *)
Definition prints_as (rt : Runtime) (fuel : nat) (cl : Closure) (h : list Instance)
    (arg : Statement) (text : string) : Prop :=
  forall m, heap m = h -> output_good (context m) = true ->
    exists value,
      Execute rt (S fuel) arg cl m = (Value value, cl, m)
      /\ render rt (Execute rt fuel) value cl m = (Value text, cl, m).

(** The four arithmetic nodes with the name of the operator method and
    the message of the error. *)
Definition arithmetic_nodes
  : list ((Statement -> Statement -> Statement) * string * string) :=
  [ (Add, "__add__", "Bad Addition!");
    (Sub, "__sub__", "Bad Subtraction!");
    (Mult, "__mul__", "Bad Multiplication!");
    (Div, "__div__", "Bad Division!") ].

(** The machine after [new ClassInstance(cls)]. *)
Definition with_new_instance (cls : Class) (m : Machine) : Machine :=
  MkMachine (heap m ++ [MkInstance cls ∅]) (context m).

(** A class whose [__add__] returns its argument, and a machine with
    one instance of it. *)
Definition Money : Class :=
  MkClass "Money"
    [ MkMethod "__add__" ["other"]
        (MethodBody (Compound [Return (VariableValue ["other"])])) ]
    None.

Definition machine2 : Machine :=
  MkMachine [MkInstance Money ∅] (MkContext "" true).

(** Two names for the instance at address 0. *)
Definition closure2 : Closure :=
  <["p" := Some (ClassInstance 0)]> (<["q" := Some (ClassInstance 0)]> ∅).

(** A block that calls [self.get(5)] and does not return. *)
Definition body_without_return : Statement :=
  Compound [MethodCall (VariableValue ["self"]) "get" [NumericLiteral 5]].

End eval_extra.
(** * Properties of the lexer *)

Section LexerFacts.

Import parse lexer_spec.

Lemma count_token_app t (l1 l2 : list Token) :
  count_token t (l1 ++ l2) = count_token t l1 + count_token t l2.
Proof. unfold count_token. now rewrite List.filter_app, length_app. Qed.

Lemma count_token_replicate_same t n :
  Token_eq t t = true -> count_token t (replicate n t) = n.
Proof.
  intros Ht. unfold count_token.
  induction n as [|n IH]; simpl; [reflexivity|].
  rewrite Ht. simpl. now rewrite IH.
Qed.

Lemma count_token_replicate_other t u n :
  Token_eq t u = false -> count_token t (replicate n u) = 0.
Proof.
  intros Ht. unfold count_token.
  induction n as [|n IH]; simpl; [reflexivity|]. now rewrite Ht.
Qed.

Lemma replicate_snoc {A} n (x : A) : replicate n x ++ [x] = x :: replicate n x.
Proof. induction n as [|n IH]; simpl; [reflexivity|]. now rewrite IH. Qed.

Lemma iter_push_Indent n lx :
  Nat.iter n push_Indent lx
  = MkLexer (token_ lx ++ replicate n token_type.Indent) (indents lx + n).
Proof.
  induction n as [|n IH]; simpl.
  - destruct lx; simpl. now rewrite app_nil_r, Nat.add_0_r.
  - rewrite IH. unfold push_Indent; simpl.
    rewrite <- app_assoc, replicate_snoc. f_equal. lia.
Qed.

Lemma iter_push_Dedent n lx :
  Nat.iter n push_Dedent lx
  = MkLexer (token_ lx ++ replicate n token_type.Dedent) (indents lx - n).
Proof.
  induction n as [|n IH]; simpl.
  - destruct lx; simpl. now rewrite app_nil_r, Nat.sub_0_r.
  - rewrite IH. unfold push_Dedent; simpl.
    rewrite <- app_assoc, replicate_snoc. f_equal. lia.
Qed.

(** [ReadIndents] moves the level to [count_spaces] and pushes one token
    per level crossed. *)
Lemma ReadIndents_spec count_spaces lx :
  ReadIndents count_spaces lx
  = MkLexer (token_ lx
             ++ replicate (count_spaces - indents lx) token_type.Indent
             ++ replicate (indents lx - count_spaces) token_type.Dedent)
            count_spaces.
Proof.
  unfold ReadIndents.
  destruct (indents lx <? count_spaces)%nat eqn:Hup.
  - apply Nat.ltb_lt in Hup. rewrite iter_push_Indent. simpl.
    replace (indents lx + (count_spaces - indents lx)) with count_spaces by lia.
    rewrite Nat.ltb_irrefl.
    replace (indents lx - count_spaces) with 0 by lia.
    simpl. now rewrite app_nil_r.
  - apply Nat.ltb_ge in Hup.
    destruct (count_spaces <? indents lx)%nat eqn:Hdown.
    + apply Nat.ltb_lt in Hdown. rewrite iter_push_Dedent.
      replace (count_spaces - indents lx) with 0 by lia. simpl.
      f_equal. lia.
    + apply Nat.ltb_ge in Hdown.
      replace (count_spaces - indents lx) with 0 by lia.
      replace (indents lx - count_spaces) with 0 by lia.
      simpl. rewrite app_nil_r. destruct lx; simpl in *. f_equal. lia.
Qed.

Lemma key_words_body s t : key_words_ !! s = Some t -> body_token t = true.
Proof.
  unfold key_words_. intros H. apply elem_of_list_to_map_2 in H.
  unfold key_words_list in H.
  repeat (apply elem_of_cons in H as [H|H]; [inversion H; reflexivity|]).
  inversion H.
Qed.

Lemma read_while_length p ss :
  String.length (read_while p ss).2 <= String.length ss.
Proof.
  induction ss as [|c ss IH]; simpl; [lia|].
  destruct (p c); simpl; [|lia].
  destruct (read_while p ss) as [run rest]. simpl in *. lia.
Qed.

Lemma ReadIdentifiersOrNumber_spec c ss :
  (exists t rest, ReadIdentifiersOrNumber c ss = Done (t, rest)
                  /\ body_token t = true
                  /\ String.length rest <= String.length ss)
  \/ (exists e, ReadIdentifiersOrNumber c ss = Throw e).
Proof.
  unfold ReadIdentifiersOrNumber, ReadNumber.
  destruct (chars.isdigit c).
  - pose proof (read_while_length chars.isdigit ss) as Hlen.
    destruct (read_while chars.isdigit ss) as [digits rest]. simpl in Hlen.
    destruct (stoi _); [left|right]; eauto 6.
  - match goal with
    | |- context [read_while ?p ss] =>
        pose proof (read_while_length p ss) as Hlen;
        destruct (read_while p ss) as [run rest]
    end.
    simpl in Hlen. left.
    destruct (key_words_ !! _) eqn:Hk; eauto 6 using key_words_body.
Qed.

Lemma ReadStrings_loop_bounded c n : forall ss line,
  String.length ss <= n ->
  (exists s rest, ReadStrings_loop c ss line = Done (token_type.String s, rest)
                  /\ String.length rest <= String.length ss)
  \/ (exists e, ReadStrings_loop c ss line = Throw e).
Proof.
  induction n as [|n IH]; intros ss line Hn.
  { destruct ss; simpl in *; [right; eauto|lia]. }
  destruct ss as [|x rest]; simpl in *; [right; eauto|].
  destruct (chars.eqb x c).
  { left. do 2 eexists. split; [reflexivity|]. lia. }
  destruct (chars.eqb x chars.backslash).
  - destruct rest as [|e rest']; [right; eauto|].
    destruct (escape e) as [r|]; [|right; eauto].
    destruct (IH rest' (line +:+ String.String r EmptyString))
      as [(s & r' & -> & Hlen)|[e' ->]]; simpl in *; try lia; eauto.
    left. do 2 eexists. split; [reflexivity|]. lia.
  - destruct (IH rest (line +:+ String.String x EmptyString))
      as [(s & r' & -> & Hlen)|[e' ->]]; simpl in *; try lia; eauto.
    left. do 2 eexists. split; [reflexivity|]. lia.
Qed.

Lemma ReadStrings_spec c ss :
  (exists s rest, ReadStrings c ss = Done (token_type.String s, rest)
                  /\ String.length rest <= String.length ss)
  \/ (exists e, ReadStrings c ss = Throw e).
Proof. unfold ReadStrings. now apply (ReadStrings_loop_bounded c (String.length ss)). Qed.

Lemma round_ok_refl token_ ss : round_ok token_ ss (token_, ss).
Proof.
  split; [exists []; simpl; split; [now rewrite app_nil_r|constructor]|simpl; lia].
Qed.

Lemma round_ok_trans token_ ss r1 r2 :
  round_ok token_ ss r1 -> round_ok r1.1 r1.2 r2 -> round_ok token_ ss r2.
Proof.
  intros [(n1 & E1 & F1) L1] [(n2 & E2 & F2) L2]. split; [|lia].
  exists (n1 ++ n2). rewrite E2, E1, app_assoc. split; [reflexivity|].
  now apply Forall_app.
Qed.

Lemma round_ok_push token_ ss t rest :
  body_token t = true -> String.length rest <= String.length ss ->
  round_ok token_ ss (token_ ++ [t], rest).
Proof.
  intros Ht Hl. split; [|exact Hl]. exists [t]. split; [reflexivity|].
  now repeat constructor.
Qed.

Lemma ignore_length ss : String.length (ignore ss) <= String.length ss.
Proof. destruct ss; simpl; lia. Qed.

Lemma punct_block_ok c token_ ss : round_ok token_ ss (punct_block c token_ ss).
Proof.
  unfold punct_block. destruct (IsPunct c); [|apply round_ok_refl].
  match goal with
  | |- context [if ?b then token_ ++ [token_type.Char c] else token_] =>
      set (token_1 := if b then token_ ++ [token_type.Char c] else token_);
      assert (H1 : round_ok token_ ss (token_1, ss))
        by (subst token_1; destruct b;
            [now apply round_ok_push|apply round_ok_refl])
  end.
  destruct (chars.count logic_operations_ c =? 1)%nat; [|exact H1].
  eapply round_ok_trans; [exact H1|]. simpl.
  destruct (peek_is _ ss); [|now apply round_ok_push].
  destruct (key_words_ !! _) eqn:Hk.
  - apply round_ok_push; [eauto using key_words_body|apply ignore_length].
  - split; [exists []; simpl; split; [now rewrite app_nil_r|constructor]|].
    apply ignore_length.
Qed.

Lemma identifier_block_ok c token_ ss :
  (exists r, identifier_block c token_ ss = Done r /\ round_ok token_ ss r)
  \/ (exists e, identifier_block c token_ ss = Throw e).
Proof.
  unfold identifier_block.
  destruct (IsIdentifiersOrNumber c); [|left; eauto using round_ok_refl].
  destruct (ReadIdentifiersOrNumber_spec c ss)
    as [(t & rest & -> & Ht & Hl)|[e ->]]; simpl; [left|right; eauto].
  eexists. split; [reflexivity|]. now apply round_ok_push.
Qed.

Lemma string_block_ok c token_ ss :
  (exists r, string_block c token_ ss = Done r /\ round_ok token_ ss r)
  \/ (exists e, string_block c token_ ss = Throw e).
Proof.
  unfold string_block.
  destruct (IsString c); [|left; eauto using round_ok_refl].
  destruct (ReadStrings_spec c ss)
    as [(t & rest & -> & Hl)|[e ->]]; simpl; [left|right; eauto].
  eexists. split; [reflexivity|]. now apply round_ok_push.
Qed.

(** The scanning loop never runs out of rounds when it is given one round
    per character, and all it appends are body tokens. *)
Lemma ScanLine_spec fuel : forall ss token_,
  String.length ss <= fuel ->
  (exists new, ScanLine fuel ss token_ = Done (token_ ++ new)
               /\ Forall (fun t => body_token t = true) new)
  \/ (exists e, ScanLine fuel ss token_ = Throw e).
Proof.
  induction fuel as [|fuel IH]; intros ss token_ Hlen.
  { destruct ss; simpl in *; [|lia]. left. exists []. now rewrite app_nil_r. }
  destruct ss as [|c ss1]; simpl in *.
  { left. exists []. now rewrite app_nil_r. }
  destruct (chars.eqb c chars.hash).
  { left. exists []. now rewrite app_nil_r. }
  destruct (chars.isspace c); [apply IH; lia|].
  pose proof (punct_block_ok c token_ ss1) as Hp.
  destruct (punct_block c token_ ss1) as [token_1 ss2].
  destruct (identifier_block_ok c token_1 ss2)
    as [([token_2 ss3] & -> & Hi)|[e ->]]; simpl; [|right; eauto].
  destruct (string_block_ok c token_2 ss3)
    as [([token_3 ss4] & -> & Hs)|[e ->]]; simpl; [|right; eauto].
  pose proof (round_ok_trans _ _ _ _ (round_ok_trans _ _ _ _ Hp Hi) Hs)
    as [(new & E & F) L]. simpl in *.
  destruct (IH ss4 token_3 ltac:(lia)) as [(new' & -> & F')|[e ->]];
    [left|right; eauto].
  exists (new ++ new'). subst token_3. rewrite app_assoc.
  split; [reflexivity|]. now apply Forall_app.
Qed.

Lemma ReadBody_spec ss token_ :
  (exists new, ReadBody ss token_ = Done (token_ ++ new)
               /\ Forall (fun t => body_token t = true) new)
  \/ (exists e, ReadBody ss token_ = Throw e).
Proof. unfold ReadBody. now apply ScanLine_spec. Qed.

Lemma layout_not_body t x :
  body_token t = false -> body_token x = true -> Token_eq t x = false.
Proof. destruct t, x; simpl; intros; try discriminate; reflexivity. Qed.

Lemma count_token_body t new :
  body_token t = false -> Forall (fun x => body_token x = true) new ->
  count_token t new = 0.
Proof.
  intros Ht F. unfold count_token.
  induction F as [|x l Hx _ IH]; simpl; [reflexivity|].
  now rewrite (layout_not_body t x Ht Hx).
Qed.

(** A line of code appends its indentation tokens, then body tokens, then
    one [Newline], and leaves the level at half its leading spaces. *)
Lemma ReadLine_code line lx lx' :
  IsEmptyLine line = false -> ReadLine line lx = Done lx' ->
  exists body,
    token_ lx' = token_ lx
                 ++ (replicate (indents lx' - indents lx) token_type.Indent
                     ++ replicate (indents lx - indents lx') token_type.Dedent
                     ++ body)
                 ++ [token_type.Newline]
    /\ Forall (fun t => body_token t = true) body.
Proof.
  unfold ReadLine. intros -> H. simpl in H.
  destruct (find_first_not_of chars.SP line) as [count_space|]; [|discriminate].
  destruct (negb _); [discriminate|].
  rewrite ReadIndents_spec in H. simpl in H.
  match type of H with
  | context [ReadBody ?ss ?tk] =>
      destruct (ReadBody_spec ss tk) as [(body & E & F)|[e E]];
      rewrite E in H; simpl in H; [|discriminate]
  end.
  injection H as <-. simpl. exists body. split; [|exact F].
  now rewrite <- !app_assoc.
Qed.

Lemma ReadLine_blank line lx : IsEmptyLine line = true -> ReadLine line lx = Done lx.
Proof. unfold ReadLine. now intros ->. Qed.

Lemma ReadLine_no_fuel line lx : ReadLine line lx <> OutOfFuel.
Proof.
  unfold ReadLine. destruct (negb (IsEmptyLine line)); [|discriminate].
  destruct (find_first_not_of chars.SP line) as [count_space|]; [|discriminate].
  destruct (negb _); [discriminate|].
  match goal with
  | |- context [ReadBody ?ss ?tk] =>
      destruct (ReadBody_spec ss tk) as [(body & -> & F)|[e ->]]; discriminate
  end.
Qed.

Lemma ReadLines_no_fuel lines : forall lx, ReadLines lines lx <> OutOfFuel.
Proof.
  induction lines as [|line lines IH]; intros lx; simpl; [discriminate|].
  pose proof (ReadLine_no_fuel line lx).
  destruct (ReadLine line lx); simpl; [apply IH|discriminate|congruence].
Qed.

(** The lexer is total: every input is either tokenized or rejected with
    a [LexerError]. *)
Lemma new_Lexer_total input :
  (exists lx, new_Lexer input = Done lx) \/ (exists e, new_Lexer input = Throw e).
Proof.
  unfold new_Lexer, ReadToken.
  pose proof (ReadLines_no_fuel (getlines input) (MkLexer [] 0)).
  destruct (ReadLines _ _); simpl; eauto. congruence.
Qed.

Lemma ReadLines_app l1 : forall l2 lx,
  ReadLines (l1 ++ l2) lx = bind (ReadLines l1 lx) (ReadLines l2).
Proof.
  induction l1 as [|line l1 IH]; intros l2 lx; simpl; [reflexivity|].
  destruct (ReadLine line lx); simpl; [apply IH|reflexivity|reflexivity].
Qed.

Lemma with_newlines_cons chunk chunks :
  with_newlines (chunk :: chunks)
  = chunk ++ [token_type.Newline] ++ with_newlines chunks.
Proof. unfold with_newlines. simpl. now rewrite <- app_assoc. Qed.

(** The lines read so far, chunk by chunk. *)
Lemma ReadLines_spec lines : forall lx lx',
  ReadLines lines lx = Done lx' ->
  exists chunks,
    token_ lx' = token_ lx ++ with_newlines chunks
    /\ Forall2 line_chunk
         (List.filter (fun line => negb (IsEmptyLine line)) lines) chunks
    /\ Forall (fun chunk => count_token token_type.Newline chunk = 0
                            /\ count_token token_type.Eof chunk = 0) chunks
    /\ count_token token_type.Indent (with_newlines chunks) + indents lx
       = count_token token_type.Dedent (with_newlines chunks) + indents lx'.
Proof.
  induction lines as [|line lines IH]; intros lx lx' H; simpl in H.
  { injection H as <-. exists []. simpl. rewrite app_nil_r.
    repeat split; try reflexivity; constructor. }
  destruct (ReadLine line lx) as [lx1| |] eqn:E1; simpl in H; try discriminate.
  destruct (IH _ _ H) as (chunks & Et & El & Fc & Hb).
  simpl. destruct (IsEmptyLine line) eqn:Eb; simpl.
  - rewrite ReadLine_blank in E1 by assumption. injection E1 as <-.
    now exists chunks.
  - destruct (ReadLine_code _ _ _ Eb E1) as (body & E & F).
    set (up := replicate (indents lx1 - indents lx) token_type.Indent) in *.
    set (down := replicate (indents lx - indents lx1) token_type.Dedent) in *.
    exists ((up ++ down ++ body) :: chunks).
    assert (Cu : forall t, body_token t = false ->
                 count_token t body = 0) by (intros; now apply count_token_body).
    split; [|split; [|split]].
    + rewrite Et, E, with_newlines_cons. now rewrite <- !app_assoc.
    + constructor; [|exact El]. now exists lx, lx1.
    + constructor; [|exact Fc]. subst up down.
      rewrite !count_token_app, !count_token_replicate_other, !Cu by reflexivity.
      now split.
    + rewrite with_newlines_cons. subst up down.
      rewrite !count_token_app, !Cu by reflexivity.
      rewrite !count_token_replicate_same by reflexivity.
      rewrite !count_token_replicate_other by reflexivity.
      change (count_token token_type.Indent [token_type.Newline]) with 0.
      change (count_token token_type.Dedent [token_type.Newline]) with 0.
      lia.
Qed.

Lemma count_with_newlines chunks :
  Forall (fun chunk => count_token token_type.Newline chunk = 0
                       /\ count_token token_type.Eof chunk = 0) chunks ->
  count_token token_type.Newline (with_newlines chunks) = length chunks.
Proof.
  induction 1 as [|chunk chunks [Hn _] _ IH]; [reflexivity|].
  rewrite with_newlines_cons, !count_token_app, Hn, IH. reflexivity.
Qed.

Lemma last_snoc_Some {A} (l : list A) x : last (l ++ [x]) = Some x.
Proof. induction l as [|y [|z l] IH]; simpl in *; auto. Qed.

(** ** The token stream of an accepted input *)

(** C4. When the lexer accepts an input, the token stream ends with
    [Eof]; it holds as many [Indent] as [Dedent] tokens, the [Dedent]s
    pushed at the end of the input bringing the level back to 0 just
    before [Eof]; and it is, non-blank line by non-blank line, the chunk
    of tokens that the lexer pushes for the line, which holds no
    [Newline], followed by one [Newline], so that the [Newline] tokens are
    as many as the non-blank lines. *)
Theorem lexer_stream_shape (input : string) (lx : Lexer) :
  new_Lexer input = Done lx ->
  last (token_ lx) = Some token_type.Eof
  /\ count_token token_type.Indent (token_ lx)
     = count_token token_type.Dedent (token_ lx)
  /\ indents lx = 0
  /\ count_token token_type.Newline (token_ lx) = length (code_lines input)
  /\ exists chunks k,
       token_ lx = with_newlines chunks
                   ++ replicate k token_type.Dedent ++ [token_type.Eof]
       /\ Forall2 line_chunk (code_lines input) chunks
       /\ Forall (fun chunk => count_token token_type.Newline chunk = 0
                               /\ count_token token_type.Eof chunk = 0) chunks.
Proof.
  unfold new_Lexer, ReadToken. intros H.
  destruct (ReadLines (getlines input) (MkLexer [] 0)) as [lx1| |] eqn:E;
    simpl in H; try discriminate.
  destruct (ReadLines_spec _ _ _ E) as (chunks & Et & El & Fc & Hb).
  simpl in Et, Hb.
  assert (E2 : (if (0 <? indents lx1)%nat then ReadIndents 0 lx1 else lx1)
               = MkLexer (token_ lx1 ++ replicate (indents lx1) token_type.Dedent) 0).
  { destruct (0 <? indents lx1)%nat eqn:Hpos.
    - rewrite ReadIndents_spec. simpl. now rewrite Nat.sub_0_r.
    - apply Nat.ltb_ge in Hpos. destruct lx1 as [tk n]; simpl in *.
      replace n with 0 by lia. simpl. now rewrite app_nil_r. }
  rewrite E2 in H. simpl in H. injection H as <-. simpl.
  rewrite Et. split; [apply last_snoc_Some|].
  rewrite !count_token_app.
  rewrite count_token_replicate_same, !count_token_replicate_other by reflexivity.
  rewrite (count_with_newlines _ Fc).
  change (count_token token_type.Indent [token_type.Eof]) with 0.
  change (count_token token_type.Dedent [token_type.Eof]) with 0.
  change (count_token token_type.Newline [token_type.Eof]) with 0.
  unfold code_lines. rewrite (Forall2_length _ _ _ El).
  split; [lia|]. split; [reflexivity|]. split; [lia|].
  exists chunks, (indents lx1). rewrite <- app_assoc. now repeat split.
Qed.

(** ** Blank lines *)

Lemma find_first_not_of_spaces n : find_first_not_of chars.SP (spaces n) = Datatypes.None.
Proof. induction n as [|n IH]; simpl; [reflexivity|]. now rewrite IH. Qed.

Lemma find_first_not_of_spaces_then n c rest :
  c <> chars.SP ->
  find_first_not_of chars.SP (spaces n +:+ String.String c rest) = Some n.
Proof.
  intros Hc. induction n as [|n IH]; simpl.
  - destruct (chars.eqb c chars.SP) eqn:E; [|reflexivity].
    apply Ascii.eqb_eq in E. contradiction.
  - now rewrite IH.
Qed.

Lemma get_spaces_then n c rest :
  String.get n (spaces n +:+ String.String c rest) = Some c.
Proof. induction n as [|n IH]; simpl; [reflexivity|exact IH]. Qed.

Lemma blank_line_IsEmptyLine line : blank_line line -> IsEmptyLine line = true.
Proof.
  intros [[n ->]|(n & rest & ->)]; unfold IsEmptyLine.
  - rewrite find_first_not_of_spaces. now destruct (spaces n).
  - rewrite find_first_not_of_spaces_then by discriminate.
    rewrite get_spaces_then. now destruct (_ +:+ _).
Qed.

Lemma find_first_not_of_None line :
  find_first_not_of chars.SP line = Datatypes.None ->
  line = spaces (String.length line).
Proof.
  induction line as [|c line IH]; simpl; [reflexivity|].
  destruct (chars.eqb c chars.SP) eqn:E; [|discriminate].
  apply Ascii.eqb_eq in E. subst c.
  destruct (find_first_not_of chars.SP line); [discriminate|].
  intros _. now rewrite <- IH.
Qed.

Lemma find_first_not_of_Some line : forall pos c,
  find_first_not_of chars.SP line = Some pos -> String.get pos line = Some c ->
  exists rest, line = spaces pos +:+ String.String c rest.
Proof.
  induction line as [|x line IH]; intros pos c; simpl; [discriminate|].
  destruct (chars.eqb x chars.SP) eqn:E.
  - apply Ascii.eqb_eq in E. subst x.
    destruct (find_first_not_of chars.SP line) as [p|] eqn:Ep; [|discriminate].
    simpl. intros [= <-] Hg. simpl in Hg.
    destruct (IH p c eq_refl Hg) as [rest ->]. now exists rest.
  - intros [= <-] [= <-]. now exists line.
Qed.

(** The lines that [IsEmptyLine] accepts are exactly the blank lines. *)
Lemma IsEmptyLine_blank_line line : IsEmptyLine line = true <-> blank_line line.
Proof.
  split; [|apply blank_line_IsEmptyLine].
  unfold IsEmptyLine. destruct line as [|x line]; [left; now exists 0|].
  destruct (find_first_not_of _ _) as [pos|] eqn:E.
  - destruct (String.get pos _) as [c|] eqn:G; [|discriminate].
    intros Hc. apply Ascii.eqb_eq in Hc. subst c.
    destruct (find_first_not_of_Some _ _ _ E G) as [rest ->].
    right. now exists pos, rest.
  - intros _. left. eexists. now apply find_first_not_of_None.
Qed.

(** C5, amended. A line that is empty, made of space characters only,
    or whose first character other than a space is the hash sign, is a
    blank line for [IsEmptyLine]; the lexer pushes no token for it and
    keeps its indentation level, so the line can be dropped from the input
    without changing what the lexer does with the other lines. *)
Theorem blank_line_skipped (line : string) :
  blank_line line ->
  IsEmptyLine line = true
  /\ (forall lx, ReadLine line lx = Done lx)
  /\ (forall before after lx,
        ReadLines (before ++ line :: after) lx = ReadLines (before ++ after) lx).
Proof.
  intros Hb. pose proof (blank_line_IsEmptyLine _ Hb) as He.
  split; [exact He|]. split; [intros; now apply ReadLine_blank|].
  intros before after lx. rewrite !ReadLines_app. simpl.
  destruct (ReadLines before lx); simpl; try reflexivity.
  now rewrite ReadLine_blank.
Qed.

(** ** Characters that the scanning loop does not recognise *)

Lemma unrecognised_examples :
  unrecognised "~"%char /\ unrecognised "`"%char /\ unrecognised "|"%char.
Proof. repeat split; try reflexivity; discriminate. Qed.

(** C10. A character of a line body that is not white space, not the
    hash sign, not a quote, not a digit, a letter or an underscore, and
    in none of the three sets of punctuation, is skipped: the scan of the
    body goes on with the next character, with the same tokens, and no
    error is raised for the character. *)
Theorem unrecognised_char_skipped (c : ascii) (ss : string) (token_ : list Token) :
  unrecognised c ->
  ReadBody (String.String c ss) token_ = ReadBody ss token_.
Proof.
  intros (Hs & Hh & Hq & Hi & Hd & Hl & Ha).
  unfold ReadBody. simpl.
  destruct (chars.eqb c chars.hash) eqn:E.
  { apply Ascii.eqb_eq in E. contradiction. }
  rewrite Hs. unfold punct_block, IsPunct, identifier_block, string_block.
  rewrite Hd, Hl, Ha, Hi, Hq. reflexivity.
Qed.

End LexerFacts.

(** * Properties of the evaluator *)

Section EvaluatorFacts.

Import ast eval_spec.

Variable rt : Runtime.

Lemma bind_Value {A B} (c : M A) (k : A -> M B) cl m a cl1 m1 :
  c cl m = (Value a, cl1, m1) -> bind c k cl m = k a cl1 m1.
Proof. unfold bind. now intros ->. Qed.

Lemma bind_Throw {A B} (c : M A) (k : A -> M B) cl m e cl1 m1 :
  c cl m = (Throw e, cl1, m1) -> bind c k cl m = (Throw e, cl1, m1).
Proof. unfold bind. now intros ->. Qed.

Lemma Execute_S fuel s :
  Execute rt (S fuel) s = Execute_node rt (Execute rt fuel) s.
Proof. reflexivity. Qed.

(** *** Reading a dotted path *)

Lemma field_at_state parent name cl m :
  exists r, field_at parent name cl m = (r, cl, m).
Proof.
  unfold field_at. destruct (TryAs_ClassInstance parent) as [a|]; [|now eexists].
  unfold bind, instance_at. destruct (heap m !! a) as [inst|]; [|now eexists].
  destruct (Fields inst !! name); now eexists.
Qed.

Lemma accumulate_state names : forall init cl m,
  exists r, accumulate names init cl m = (r, cl, m).
Proof.
  induction names as [|name rest IH]; intros init cl m; simpl; [now eexists|].
  unfold bind. destruct (field_at_state init name cl m) as [[v| | |] ->]; eauto.
Qed.

(** Reading a variable or a field changes neither the closure nor the
    machine. *)
Lemma VariableValue_Execute_state dotted_ids cl m :
  exists r, VariableValue_Execute dotted_ids cl m = (r, cl, m).
Proof.
  destruct dotted_ids as [|var_name rest]; simpl; [now eexists|].
  unfold bind, get_var. destruct (cl !! var_name); [|now eexists].
  apply accumulate_state.
Qed.

Lemma VariableValue_unknown fuel var_name rest cl m :
  cl !! var_name = None ->
  Execute rt (S fuel) (VariableValue (var_name :: rest)) cl m
  = (Throw (runtime_error ("unknown variable " +:+ var_name)), cl, m).
Proof. intros H. simpl. unfold bind, get_var. now rewrite H. Qed.

Lemma VariableValue_bound fuel var_name rest cl m value :
  cl !! var_name = Some value ->
  Execute rt (S fuel) (VariableValue (var_name :: rest)) cl m
  = accumulate rest value cl m.
Proof. intros H. simpl. unfold bind, get_var. now rewrite H. Qed.

(** A field is read from a value that is not a class instance through
    the null pointer that [TryAs] returned. *)
Lemma accumulate_not_instance name rest parent cl m :
  TryAs_ClassInstance parent = None ->
  accumulate (name :: rest) parent cl m = (Undefined, cl, m).
Proof. intros H. simpl. unfold bind, field_at. now rewrite H. Qed.

(** A field that the instance does not have makes [at] throw. *)
Lemma accumulate_missing_field name rest a inst cl m :
  heap m !! a = Some inst -> Fields inst !! name = None ->
  accumulate (name :: rest) (Some (ClassInstance a)) cl m
  = (Throw out_of_range, cl, m).
Proof.
  intros Ha Hf. simpl. unfold bind, field_at, instance_at. simpl.
  unfold bind. now rewrite Ha, Hf.
Qed.

Lemma accumulate_field name rest a inst value cl m :
  heap m !! a = Some inst -> Fields inst !! name = Some value ->
  accumulate (name :: rest) (Some (ClassInstance a)) cl m
  = accumulate rest value cl m.
Proof.
  intros Ha Hf. simpl. unfold bind, field_at, instance_at. simpl.
  unfold bind. now rewrite Ha, Hf.
Qed.

(** *** [Return], [MethodBody] and [Compound] *)

Lemma Return_Execute fuel e cl m :
  Execute rt (S fuel) (Return e) cl m
  = match Execute rt (S fuel) e cl m with
    | (Value value, cl1, m1) => (Throw (Exception value), cl1, m1)
    | r => r
    end.
Proof.
  simpl. unfold bind, throw.
  destruct (Execute_node rt (Execute rt fuel) e cl m) as [[[v|x| |] cl1] m1];
    reflexivity.
Qed.

Lemma Return_not_Value fuel e cl m value cl1 m1 :
  Execute rt (S fuel) (Return e) cl m <> (Value value, cl1, m1).
Proof.
  rewrite Return_Execute.
  destruct (Execute rt (S fuel) e cl m) as [[[v|x| |] c] mm]; discriminate.
Qed.

Lemma Compound_cons fuel st rest cl m :
  Execute rt (S fuel) (Compound (st :: rest)) cl m
  = Compound_round st (Execute rt (S fuel) st)
      (Execute rt (S fuel) (Compound rest)) cl m.
Proof. reflexivity. Qed.

Lemma MethodBody_Execute fuel body cl m :
  Execute rt (S fuel) (MethodBody body) cl m
  = match Execute rt (S fuel) (Compound [body]) cl m with
    | (Throw (Exception value), cl1, m1) => (Value value, cl1, m1)
    | r => r
    end.
Proof. reflexivity. Qed.

(** An exception thrown by a statement leaves the [Compound] that runs
    the statement. *)
Lemma Compound_round_Throw st run_st rest cl m e cl1 m1 :
  run_st cl m = (Throw e, cl1, m1) ->
  Compound_round st run_st rest cl m = (Throw e, cl1, m1).
Proof.
  intros H. destruct st; simpl; unfold bind; rewrite H; reflexivity.
Qed.

Lemma Compound_round_ends st run_st rest cl m o cl1 m1 :
  ends_Compound st = true ->
  run_st cl m = (Value (Some o), cl1, m1) ->
  Compound_round st run_st rest cl m = (Value (Some o), cl1, m1).
Proof.
  intros Hs H. destruct st; try discriminate; simpl; unfold bind; now rewrite H.
Qed.

Lemma Compound_round_empty st run_st rest cl m cl1 m1 :
  ends_Compound st = true ->
  run_st cl m = (Value None, cl1, m1) ->
  Compound_round st run_st rest cl m = rest cl1 m1.
Proof.
  intros Hs H. destruct st; try discriminate; simpl; unfold bind; now rewrite H.
Qed.

Lemma Compound_round_other st run_st rest cl m r cl1 m1 :
  ends_Compound st = false ->
  (forall e, st <> Return e) ->
  run_st cl m = (Value r, cl1, m1) ->
  Compound_round st run_st rest cl m = rest cl1 m1.
Proof.
  intros Hs Hr H.
  destruct st; try discriminate; simpl; unfold bind; try now rewrite H.
  now destruct (Hr st).
Qed.

Lemma IfElse_Execute fuel condition if_body else_body cl m cond cl1 m1 :
  Execute rt (S fuel) condition cl m = (Value cond, cl1, m1) ->
  Execute rt (S fuel) (IfElse condition if_body else_body) cl m
  = match (if holds rt cond then if_body else else_body) with
    | Some body => Execute rt (S fuel) body cl1 m1
    | None => (Value None, cl1, m1)
    end.
Proof.
  intros H. rewrite !Execute_S in *. simpl. unfold bind. rewrite H.
  destruct cond as [o|]; simpl; [destruct (IsTrue rt (Some o))|];
    (destruct if_body, else_body; reflexivity).
Qed.

Lemma MethodBody_Throw fuel body cl m e cl1 m1 :
  Execute rt (S fuel) body cl m = (Throw e, cl1, m1) ->
  Execute rt (S fuel) (MethodBody body) cl m
  = match e with
    | Exception value => (Value value, cl1, m1)
    | _ => (Throw e, cl1, m1)
    end.
Proof.
  intros H. rewrite MethodBody_Execute, Compound_cons.
  rewrite (Compound_round_Throw _ _ _ _ _ _ _ _ H). now destruct e.
Qed.

Lemma MethodBody_no_Exception fuel body cl m value :
  (Execute rt (S fuel) (MethodBody body) cl m).1.1 <> Throw (Exception value).
Proof.
  rewrite MethodBody_Execute.
  destruct (Execute rt (S fuel) (Compound [body]) cl m) as [[[v|[v|w|]| |] c] mm];
    simpl; discriminate.
Qed.

(** C2. [Return] evaluates its expression and throws the return signal
    ([ast::Exception]) with the value; a statement that throws makes the
    [Compound] around it throw the same, and an [IfElse] hands on whatever
    the branch it runs does; [MethodBody] turns the return signal that its
    body throws into its own result, the value carried, and hands on
    every other exception, a runtime error among them, unchanged; no
    return signal leaves a [MethodBody]. *)
Theorem return_signal_caught_by_MethodBody (fuel : nat) :
  (forall e cl m,
     Execute rt (S fuel) (Return e) cl m
     = match Execute rt (S fuel) e cl m with
       | (Value value, cl1, m1) => (Throw (Exception value), cl1, m1)
       | r => r
       end)
  /\ (forall st rest cl m e cl1 m1,
        Execute rt (S fuel) st cl m = (Throw e, cl1, m1) ->
        Execute rt (S fuel) (Compound (st :: rest)) cl m = (Throw e, cl1, m1))
  /\ (forall condition if_body else_body cl m cond cl1 m1 body,
        Execute rt (S fuel) condition cl m = (Value cond, cl1, m1) ->
        (if holds rt cond then if_body else else_body) = Some body ->
        Execute rt (S fuel) (IfElse condition if_body else_body) cl m
        = Execute rt (S fuel) body cl1 m1)
  /\ (forall body cl m value cl1 m1,
        Execute rt (S fuel) body cl m = (Throw (Exception value), cl1, m1) ->
        Execute rt (S fuel) (MethodBody body) cl m = (Value value, cl1, m1))
  /\ (forall body cl m what cl1 m1,
        Execute rt (S fuel) body cl m = (Throw (runtime_error what), cl1, m1) ->
        Execute rt (S fuel) (MethodBody body) cl m
        = (Throw (runtime_error what), cl1, m1))
  /\ (forall body cl m,
        Execute rt (S fuel) (MethodBody body) cl m
        = match Execute rt (S fuel) (Compound [body]) cl m with
          | (Throw (Exception value), cl1, m1) => (Value value, cl1, m1)
          | r => r
          end)
  /\ (forall body cl m value,
        (Execute rt (S fuel) (MethodBody body) cl m).1.1 <> Throw (Exception value)).
Proof.
  split; [intros; apply Return_Execute|].
  split; [intros * H; rewrite Compound_cons; now apply Compound_round_Throw|].
  split; [intros * H Hb; rewrite (IfElse_Execute _ _ _ _ _ _ _ _ _ H), Hb; reflexivity|].
  split; [intros * H; now rewrite (MethodBody_Throw _ _ _ _ _ _ _ H)|].
  split; [intros * H; now rewrite (MethodBody_Throw _ _ _ _ _ _ _ H)|].
  split; [intros; apply MethodBody_Execute|].
  intros; apply MethodBody_no_Exception.
Qed.

Lemma MethodBody_Return fuel body cl m value cl1 m1 :
  Execute rt (S fuel) body cl m = (Throw (Exception value), cl1, m1) ->
  Execute rt (S fuel) (MethodBody body) cl m = (Value value, cl1, m1).
Proof. intros H. now rewrite (MethodBody_Throw _ _ _ _ _ _ _ H). Qed.

Lemma scenario5_result fuel cl m :
  (forall cond other,
     cl !! "cond" = Some cond -> holds rt cond = true ->
     cl !! "other" = Some other ->
     Execute rt (S fuel) scenario5 cl m
     = (Value (Some (Number (if holds rt other then 7 else 8))), cl, m))
  /\ (forall cond,
        cl !! "cond" = Some cond -> holds rt cond = false ->
        Execute rt (S fuel) scenario5 cl m = (Value (Some (Number 9)), cl, m)).
Proof.
  split.
  - intros cond other Hc Tc Ho. unfold scenario5.
    apply MethodBody_Return.
    rewrite Compound_cons. apply Compound_round_Throw.
    erewrite IfElse_Execute
      by (rewrite (VariableValue_bound _ _ _ _ _ _ Hc); reflexivity).
    rewrite Tc, Compound_cons.
    assert (E2 : Execute rt (S fuel)
                   (IfElse (VariableValue ["other"])
                      (Some (Compound [Return (NumericLiteral 7)])) None) cl m
                 = if holds rt other
                   then (Throw (Exception (Some (Number 7))), cl, m)
                   else (Value None, cl, m)).
    { erewrite IfElse_Execute
        by (rewrite (VariableValue_bound _ _ _ _ _ _ Ho); reflexivity).
      destruct (holds rt other); reflexivity. }
    destruct (holds rt other).
    + now apply Compound_round_Throw.
    + erewrite Compound_round_empty by (reflexivity || exact E2).
      reflexivity.
  - intros cond Hc Tc. unfold scenario5.
    apply MethodBody_Return.
    rewrite Compound_cons.
    erewrite Compound_round_empty; [reflexivity|reflexivity|].
    erewrite IfElse_Execute
      by (rewrite (VariableValue_bound _ _ _ _ _ _ Hc); reflexivity).
    now rewrite Tc.
Qed.

(** C3. A [Compound] runs its statements in order: an [IfElse] or a
    [MethodCall] with a non-empty result ends it with that result; after
    an empty result, and after any result of another statement, the rest
    is run from the closure and machine the statement left; with no
    statement left the result is [None].  With the method body of
    scenario 5 the result is 7 when [cond] and [other] are true, 8 when
    [cond] is true and [other] is false, and 9 when [cond] is false. *)
Theorem Compound_semantics (fuel : nat) :
  (forall cl m, Execute rt (S fuel) (Compound []) cl m = (Value None, cl, m))
  /\ (forall st rest cl m o cl1 m1,
        ends_Compound st = true ->
        Execute rt (S fuel) st cl m = (Value (Some o), cl1, m1) ->
        Execute rt (S fuel) (Compound (st :: rest)) cl m = (Value (Some o), cl1, m1))
  /\ (forall st rest cl m cl1 m1,
        ends_Compound st = true ->
        Execute rt (S fuel) st cl m = (Value None, cl1, m1) ->
        Execute rt (S fuel) (Compound (st :: rest)) cl m
        = Execute rt (S fuel) (Compound rest) cl1 m1)
  /\ (forall st rest cl m r cl1 m1,
        ends_Compound st = false ->
        Execute rt (S fuel) st cl m = (Value r, cl1, m1) ->
        Execute rt (S fuel) (Compound (st :: rest)) cl m
        = Execute rt (S fuel) (Compound rest) cl1 m1)
  /\ (forall cl m cond other,
        cl !! "cond" = Some cond -> cl !! "other" = Some other ->
        holds rt cond = true -> holds rt other = false ->
        Execute rt (S fuel) scenario5 cl m = (Value (Some (Number 8)), cl, m))
  /\ (forall cl m cond other,
        cl !! "cond" = Some cond -> cl !! "other" = Some other ->
        holds rt cond = true -> holds rt other = true ->
        Execute rt (S fuel) scenario5 cl m = (Value (Some (Number 7)), cl, m))
  /\ (forall cl m cond,
        cl !! "cond" = Some cond -> holds rt cond = false ->
        Execute rt (S fuel) scenario5 cl m = (Value (Some (Number 9)), cl, m)).
Proof.
  split; [reflexivity|].
  split; [intros * Hs H; rewrite Compound_cons; now apply Compound_round_ends|].
  split; [intros * Hs H; rewrite Compound_cons;
          now rewrite (Compound_round_empty _ _ _ _ _ _ _ Hs H)|].
  split.
  { intros * Hs H. rewrite Compound_cons.
    eapply Compound_round_other; [exact Hs| |exact H].
    intros e ->. now apply Return_not_Value in H. }
  split; [intros * Hc Ho Tc To;
          destruct (scenario5_result fuel cl m) as [H _];
          rewrite (H _ _ Hc Tc Ho), To; reflexivity|].
  split; [intros * Hc Ho Tc To;
          destruct (scenario5_result fuel cl m) as [H _];
          rewrite (H _ _ Hc Tc Ho), To; reflexivity|].
  intros * Hc Tc. destruct (scenario5_result fuel cl m) as [_ H]. eauto.
Qed.

(** *** [MethodCall] *)

Lemma eval_args_cons exec arg rest cl m :
  eval_args exec (arg :: rest) cl m
  = (let* value := exec arg in
     let* values := eval_args exec rest in
     ret (value :: values)) cl m.
Proof. reflexivity. Qed.

Lemma eval_args_length exec args : forall cl m values cl1 m1,
  eval_args exec args cl m = (Value values, cl1, m1) ->
  length values = length args.
Proof.
  induction args as [|arg rest IH]; intros cl m values cl1 m1 H.
  - injection H as <- _ _. reflexivity.
  - rewrite eval_args_cons in H. unfold bind in H.
    destruct (exec arg cl m) as [[[v|e| |] c] mm]; try discriminate.
    destruct (eval_args exec rest c mm) as [[[vs|e| |] c'] mm'] eqn:E;
      try discriminate.
    injection H as <- _ _. simpl. f_equal. eauto.
Qed.

(** C1, amended. [MethodCall::Execute] first evaluates the arguments,
    from left to right, and then the receiver, from the closure and
    machine the arguments left.  An exception of an argument ends the call
    before the receiver is evaluated, and an exception of the receiver
    ends it as well.  When the receiver's value is not a class instance,
    or its class has no method of that name for that many arguments, the
    runtime error "Bad Method call: <name>" is thrown; otherwise the
    method is called with the values of the arguments. *)
Theorem MethodCall_Execute_arguments_first (fuel : nat) (object : Statement)
    (method : string) (args : list Statement) (cl : Closure) (m : Machine) :
  (forall arg rest c mm,
     (forall e c1 mm1,
        Execute rt (S fuel) arg c mm = (Throw e, c1, mm1) ->
        eval_args (Execute rt (S fuel)) (arg :: rest) c mm = (Throw e, c1, mm1))
     /\ (forall value c1 mm1 e c2 mm2,
           Execute rt (S fuel) arg c mm = (Value value, c1, mm1) ->
           eval_args (Execute rt (S fuel)) rest c1 mm1 = (Throw e, c2, mm2) ->
           eval_args (Execute rt (S fuel)) (arg :: rest) c mm = (Throw e, c2, mm2))
     /\ (forall value c1 mm1 values c2 mm2,
           Execute rt (S fuel) arg c mm = (Value value, c1, mm1) ->
           eval_args (Execute rt (S fuel)) rest c1 mm1 = (Value values, c2, mm2) ->
           eval_args (Execute rt (S fuel)) (arg :: rest) c mm
           = (Value (value :: values), c2, mm2)))
  /\ (forall e cl1 m1,
        eval_args (Execute rt (S fuel)) args cl m = (Throw e, cl1, m1) ->
        Execute rt (S fuel) (MethodCall object method args) cl m = (Throw e, cl1, m1))
  /\ (forall actual_args cl1 m1,
        eval_args (Execute rt (S fuel)) args cl m = (Value actual_args, cl1, m1) ->
        length actual_args = length args
        /\ (forall e cl2 m2,
              Execute rt (S fuel) object cl1 m1 = (Throw e, cl2, m2) ->
              Execute rt (S fuel) (MethodCall object method args) cl m
              = (Throw e, cl2, m2))
        /\ (forall receiver cl2 m2,
              Execute rt (S fuel) object cl1 m1 = (Value receiver, cl2, m2) ->
              (TryAs_ClassInstance receiver = None ->
               Execute rt (S fuel) (MethodCall object method args) cl m
               = (Throw (runtime_error ("Bad Method call: " +:+ method)), cl2, m2))
              /\ (forall a inst,
                    receiver = Some (ClassInstance a) ->
                    heap m2 !! a = Some inst ->
                    Execute rt (S fuel) (MethodCall object method args) cl m
                    = if HasMethod rt (class_of inst) method (length args)
                      then lift (Call rt (Execute rt fuel) a method actual_args) cl2 m2
                      else (Throw (runtime_error ("Bad Method call: " +:+ method)),
                            cl2, m2)))).
Proof.
  split.
  { intros arg rest c mm. repeat split.
    - intros * H. rewrite eval_args_cons. unfold bind. now rewrite H.
    - intros * H1 H2. rewrite eval_args_cons. unfold bind. now rewrite H1, H2.
    - intros * H1 H2. rewrite eval_args_cons. unfold bind. now rewrite H1, H2. }
  split.
  { intros * H. change (Execute rt (S fuel)) with (Execute_node rt (Execute rt fuel)) in *.
    simpl. unfold bind at 1. now rewrite H. }
  intros actual_args cl1 m1 Ha.
  pose proof (eval_args_length _ _ _ _ _ _ _ Ha) as Hlen.
  split; [exact Hlen|].
  assert (Hcall : Execute rt (S fuel) (MethodCall object method args) cl m
          = (let* receiver := Execute rt (S fuel) object in
             match TryAs_ClassInstance receiver with
             | Some class_instance =>
                 let* has := instance_HasMethod rt class_instance method
                               (length actual_args) in
                 if has then lift (Call rt (Execute rt fuel) class_instance method actual_args)
                 else throw (runtime_error ("Bad Method call: " +:+ method))
             | None => throw (runtime_error ("Bad Method call: " +:+ method))
             end) cl1 m1).
  { change (Execute rt (S fuel)) with (Execute_node rt (Execute rt fuel)) in *.
    simpl. unfold bind at 1. now rewrite Ha. }
  rewrite Hcall. clear Hcall. split.
  { intros * H. now apply bind_Throw. }
  intros receiver cl2 m2 H. rewrite (bind_Value _ _ _ _ _ _ _ H). split.
  { now intros ->. }
  intros a inst -> Hi. simpl. unfold bind, instance_HasMethod, bind, instance_at.
  rewrite Hi, Hlen. simpl. now destruct (HasMethod rt _ _ _).
Qed.

(** *** Division *)

Lemma quot_in_int_range a b :
  in_int_range a = true -> in_int_range b = true ->
  b <> 0%Z -> ~ (a = INT_MIN /\ b = (-1)%Z) ->
  in_int_range (Z.quot a b) = true.
Proof.
  unfold in_int_range, INT_MIN, INT_MAX. intros Ha Hb Hz Hm.
  apply andb_true_iff in Ha as [Ha1 Ha2]. apply andb_true_iff in Hb as [Hb1 Hb2].
  apply Z.leb_le in Ha1, Ha2, Hb1, Hb2.
  apply andb_true_iff. rewrite !Z.leb_le.
  pose proof (Z.quot_rem' a b) as Hqr.
  pose proof (Z.rem_bound_abs a b Hz) as Hr.
  pose proof (Z.rem_sign_mul a b Hz) as Hs.
  unfold INT_MIN in Hm.
  nia.
Qed.

Lemma Div_numbers fuel lhs rhs cl m a cl1 m1 b cl2 m2 :
  Execute rt (S fuel) lhs cl m = (Value (Some (Number a)), cl1, m1) ->
  Execute rt (S fuel) rhs cl1 m1 = (Value (Some (Number b)), cl2, m2) ->
  Execute rt (S fuel) (Div lhs rhs) cl m
  = (if (b =? 0)%Z then throw (runtime_error "Zero Division!")
     else int_result (Z.quot a b)) cl2 m2.
Proof.
  intros Hl Hr. rewrite !Execute_S in *. simpl. unfold bind.
  now rewrite Hl, Hr.
Qed.

(** C6, amended. When both operands of [Div] are numbers [a] and [b]
    (values of [int]): if [b] is zero, the runtime error "Zero Division!"
    is thrown and there is no value; if [b] is not zero, and the operands
    are not [INT_MIN] and [-1], the result is the number [a / b] rounded
    towards zero. *)
Theorem Div_numbers_truncates (fuel : nat) (lhs rhs : Statement)
    (cl cl1 cl2 : Closure) (m m1 m2 : Machine) (a b : Z) :
  Execute rt (S fuel) lhs cl m = (Value (Some (Number a)), cl1, m1) ->
  Execute rt (S fuel) rhs cl1 m1 = (Value (Some (Number b)), cl2, m2) ->
  (b = 0%Z ->
   Execute rt (S fuel) (Div lhs rhs) cl m
   = (Throw (runtime_error "Zero Division!"), cl2, m2))
  /\ (in_int_range a = true -> in_int_range b = true ->
      b <> 0%Z -> ~ (a = INT_MIN /\ b = (-1)%Z) ->
      Execute rt (S fuel) (Div lhs rhs) cl m
      = (Value (Some (Number (Z.quot a b))), cl2, m2)).
Proof.
  intros Hl Hr. rewrite (Div_numbers _ _ _ _ _ _ _ _ _ _ _ Hl Hr). split.
  - intros ->. reflexivity.
  - intros Ha Hb Hz Hm. destruct (Z.eqb_spec b 0) as [|_]; [contradiction|].
    unfold int_result. now rewrite quot_in_int_range.
Qed.

(** *** [FieldAssignment] *)

Lemma Fields_subscript_spec a field_name cl m inst :
  heap m !! a = Some inst ->
  Fields_subscript a field_name cl m = (Value tt, cl, with_field_created a field_name m).
Proof.
  intros H. unfold Fields_subscript, with_field_created, bind, instance_at.
  rewrite H. simpl. destruct (Fields inst !! field_name); [reflexivity|].
  unfold set_Fields. now rewrite H.
Qed.

Lemma Fields_store_spec a field_name value cl m inst :
  heap m !! a = Some inst ->
  Fields_store a field_name value cl m
  = (Value tt, cl, with_field_stored a field_name value m).
Proof.
  intros H. unfold Fields_store, with_field_stored, bind, instance_at, set_Fields.
  rewrite H. simpl. now rewrite H.
Qed.

Lemma Fields_at_created a field_name m inst :
  heap m !! a = Some inst ->
  Fields_at a (with_field_created a field_name m)
  = Some (match Fields inst !! field_name with
          | Some _ => Fields inst
          | None => <[field_name := None]> (Fields inst)
          end).
Proof.
  intros H. unfold Fields_at, with_field_created. rewrite H.
  destruct (Fields inst !! field_name); simpl; [now rewrite H|].
  rewrite list_lookup_insert_eq; [reflexivity|].
  now apply lookup_lt_Some in H.
Qed.

Lemma Fields_at_stored a field_name value m inst :
  heap m !! a = Some inst ->
  Fields_at a (with_field_stored a field_name value m)
  = Some (<[field_name := value]> (Fields inst)).
Proof.
  intros H. unfold Fields_at, with_field_stored. rewrite H. simpl.
  rewrite list_lookup_insert_eq; [reflexivity|].
  now apply lookup_lt_Some in H.
Qed.

(** The steps of [FieldAssignment::Execute] in the order of the code.
    When the target path resolves to a class instance, [Execute] first
    takes the entry of the field in the fields of the instance, creating
    it with an empty holder when the field is absent, and then evaluates
    the right-hand side, from the machine in which the entry exists.
    When the right-hand side has a value, the value is stored under the
    field name and returned.  When the right-hand side throws, the
    exception leaves the assignment with the machine as the right-hand
    side left it. *)
Theorem FieldAssignment_creates_then_evaluates (fuel : nat) (object : list string)
    (field_name : string) (rv : Statement) (cl : Closure) (m : Machine)
    (a : nat) (inst : Instance) :
  (Execute rt (S fuel) (VariableValue object) cl m).1.1
  = Value (Some (ClassInstance a)) ->
  heap m !! a = Some inst ->
  Fields_at a (with_field_created a field_name m)
  = Some (match Fields inst !! field_name with
          | Some _ => Fields inst
          | None => <[field_name := None]> (Fields inst)
          end)
  /\ (forall value cl1 m1 inst1,
        Execute rt (S fuel) rv cl (with_field_created a field_name m)
        = (Value value, cl1, m1) ->
        heap m1 !! a = Some inst1 ->
        Execute rt (S fuel) (FieldAssignment object field_name rv) cl m
        = (Value value, cl1, with_field_stored a field_name value m1)
        /\ Fields_at a (with_field_stored a field_name value m1)
           = Some (<[field_name := value]> (Fields inst1)))
  /\ (forall e cl1 m1,
        Execute rt (S fuel) rv cl (with_field_created a field_name m)
        = (Throw e, cl1, m1) ->
        Execute rt (S fuel) (FieldAssignment object field_name rv) cl m
        = (Throw e, cl1, m1)).
Proof.
  intros Ht Hi. split; [now apply Fields_at_created|].
  assert (Ht' : Execute rt (S fuel) (VariableValue object) cl m
                = (Value (Some (ClassInstance a)), cl, m)).
  { destruct (VariableValue_Execute_state object cl m) as [r Hr].
    change (Execute rt (S fuel) (VariableValue object) cl m)
      with (VariableValue_Execute object cl m) in *.
    rewrite Hr in *. simpl in Ht. now subst r. }
  clear Ht. rename Ht' into Ht.
  assert (Hfa : Execute rt (S fuel) (FieldAssignment object field_name rv) cl m
          = (let* value := Execute rt (S fuel) rv in
             let* _ := Fields_store a field_name value in
             ret value) cl (with_field_created a field_name m)).
  { change (Execute rt (S fuel)) with (Execute_node rt (Execute rt fuel)) in *.
    simpl in *. rewrite (bind_Value _ _ _ _ _ _ _ Ht). simpl.
    now rewrite (bind_Value _ _ _ _ _ _ _ (Fields_subscript_spec _ _ _ _ _ Hi)). }
  rewrite Hfa. clear Hfa. split.
  - intros value cl1 m1 inst1 Hv H1.
    rewrite (bind_Value _ _ _ _ _ _ _ Hv).
    rewrite (bind_Value _ _ _ _ _ _ _ (Fields_store_spec _ _ _ _ _ _ H1)).
    split; [reflexivity|now apply Fields_at_stored].
  - intros e cl1 m1 He. now apply bind_Throw.
Qed.

(** *** [Stringify] and [Print] *)

Lemma written_output text m :
  output_good (context m) = true ->
  output (context (written text m)) = output (context m) +:+ text
  /\ output_good (context (written text m)) = true
  /\ heap (written text m) = heap m.
Proof. unfold written. intros H. rewrite H. simpl. auto. Qed.

Lemma append_assoc (s1 s2 s3 : string) : (s1 +:+ s2) +:+ s3 = s1 +:+ (s2 +:+ s3).
Proof.
  induction s1 as [|c s1 IH]; [reflexivity|].
  change (String.String c ((s1 +:+ s2) +:+ s3) = String.String c (s1 +:+ (s2 +:+ s3))).
  now rewrite IH.
Qed.

Lemma write_spec text cl m : write text cl m = (Value tt, cl, written text m).
Proof. reflexivity. Qed.



End EvaluatorFacts.

(** * Further properties of the lexer *)

Section LexerExtras.

Import parse lexer_spec lexer_extra.

(** ** Equality of tokens *)

(** X1. [operator==] on tokens is equality: it holds exactly when the two
    tokens are the same alternative with the same value. *)
Theorem Token_eq_iff (lhs rhs : Token) : Token_eq lhs rhs = true <-> lhs = rhs.
Proof.
  split.
  - destruct lhs, rhs; simpl; try discriminate; try reflexivity; intros H.
    + apply Z.eqb_eq in H. now subst.
    + apply String.eqb_eq in H. now subst.
    + apply Ascii.eqb_eq in H. now subst.
    + apply String.eqb_eq in H. now subst.
  - intros <-. destruct lhs; simpl; try reflexivity.
    + apply Z.eqb_refl.
    + apply String.eqb_refl.
    + apply Ascii.eqb_refl.
    + apply String.eqb_refl.
Qed.

(** ** Walking the token stream *)

Lemma NextToken_tokens lx :
  token_ (NextToken lx).2
  = if (1 <? length (token_ lx))%nat then tail (token_ lx) else token_ lx.
Proof. unfold NextToken. simpl. now destruct (1 <? length (token_ lx))%nat. Qed.

Lemma advance_S k lx : advance (S k) lx = (NextToken (advance k lx)).2.
Proof. reflexivity. Qed.

Lemma tail_drop {A} (l : list A) k : tail (drop k l) = drop (S k) l.
Proof.
  revert k. induction l as [|x l IH]; intros [|k]; simpl; try reflexivity.
  apply IH.
Qed.

Lemma advance_tokens k lx :
  token_ (advance k lx) = drop (min k (length (token_ lx) - 1)) (token_ lx).
Proof.
  induction k as [|k IH]; [now rewrite drop_0|].
  rewrite advance_S, NextToken_tokens, IH, length_drop.
  destruct (1 <? _)%nat eqn:E.
  - apply Nat.ltb_lt in E. rewrite tail_drop. f_equal. lia.
  - apply Nat.ltb_ge in E. f_equal. lia.
Qed.

Lemma count_Eof_with_newlines chunks :
  Forall (fun chunk => count_token token_type.Newline chunk = 0
                       /\ count_token token_type.Eof chunk = 0) chunks ->
  count_token token_type.Eof (with_newlines chunks) = 0.
Proof.
  induction 1 as [|chunk chunks [_ He] _ IH]; [reflexivity|].
  rewrite with_newlines_cons, !count_token_app, He, IH. reflexivity.
Qed.

(** The stream of an accepted input: code, then [Dedent]s, then the one
    [Eof]. *)
Lemma new_Lexer_tokens input lx :
  new_Lexer input = Done lx ->
  exists front, token_ lx = front ++ [token_type.Eof]
                /\ count_token token_type.Eof front = 0.
Proof.
  unfold new_Lexer, ReadToken. intros H.
  destruct (ReadLines (getlines input) (MkLexer [] 0)) as [lx1| |] eqn:E;
    simpl in H; try discriminate.
  destruct (ReadLines_spec _ _ _ E) as (chunks & Et & _ & Fc & _).
  simpl in Et. injection H as <-. simpl.
  destruct (0 <? indents lx1)%nat.
  - rewrite ReadIndents_spec. simpl. rewrite Et.
    eexists. split; [reflexivity|].
    rewrite !count_token_app, count_Eof_with_newlines by exact Fc.
    now rewrite !count_token_replicate_other.
  - rewrite Et. eexists. split; [reflexivity|].
    now apply count_Eof_with_newlines.
Qed.

(** The current token after [j] calls of [NextToken]. *)
Lemma CurrentToken_advance input lx j :
  new_Lexer input = Done lx ->
  CurrentToken (advance j lx) = Some (nth j (token_ lx) token_type.Eof).
Proof.
  intros H. destruct (new_Lexer_tokens _ _ H) as (front & E & C).
  unfold CurrentToken. rewrite advance_tokens, E.
  rewrite length_app. simpl.
  replace (length front + 1 - 1) with (length front) by lia.
  rewrite head_lookup, lookup_drop, Nat.add_0_r.
  destruct (Nat.le_gt_cases (length front) j) as [Hj|Hj].
  - rewrite Nat.min_r by lia.
    rewrite lookup_app_r, Nat.sub_diag by lia. simpl. f_equal.
    destruct (Nat.eq_dec j (length front)) as [->|Hne].
    + rewrite app_nth2, Nat.sub_diag by lia. reflexivity.
    + rewrite nth_overflow; [reflexivity|]. rewrite length_app. simpl. lia.
  - rewrite Nat.min_l by lia.
    rewrite lookup_app_l by lia.
    rewrite app_nth1 by lia.
    destruct (front !! j) as [t|] eqn:F; [|apply lookup_ge_None in F; lia].
    f_equal. symmetry. now apply nth_lookup_Some.
Qed.

(** X2. The deque of an accepted input is never empty and holds one
    [Eof], its last token.  After [k] calls of [NextToken] the current
    token is the token number [k] of the stream, and [Eof] once the
    stream is used up: [NextToken] does not remove the last token. *)
Theorem NextToken_walks_the_stream (input : string) (lx : Lexer) (k : nat) :
  new_Lexer input = Done lx ->
  count_token token_type.Eof (token_ lx) = 1
  /\ last (token_ lx) = Some token_type.Eof
  /\ CurrentToken (advance k lx) = Some (nth k (token_ lx) token_type.Eof)
  /\ (NextToken (advance k lx)).1
     = Some (nth (S k) (token_ lx) token_type.Eof)
  /\ (length (token_ lx) - 1 <= k ->
      CurrentToken (advance k lx) = Some token_type.Eof).
Proof.
  intros H. destruct (new_Lexer_tokens _ _ H) as (front & E & C).
  split.
  { rewrite E, count_token_app, C. reflexivity. }
  split; [rewrite E; apply last_snoc_Some|].
  split; [now apply (CurrentToken_advance input)|]. split.
  { change ((NextToken (advance k lx)).1)
      with (CurrentToken (NextToken (advance k lx)).2).
    rewrite <- advance_S. now apply (CurrentToken_advance input). }
  intros Hl. rewrite (CurrentToken_advance input) by exact H.
  f_equal. rewrite E in *. rewrite length_app in Hl.
  simpl in Hl.
  destruct (Nat.eq_dec k (length front)) as [->|Hne].
  - rewrite app_nth2, Nat.sub_diag by lia. reflexivity.
  - rewrite nth_overflow; [reflexivity|]. rewrite length_app. simpl. lia.
Qed.

(** ** Expecting a token *)





(** ** The tokens that the lexer emits *)

Lemma read_while_all p ss : all_chars p (read_while p ss).1 = true.
Proof.
  induction ss as [|c ss IH]; simpl; [reflexivity|].
  destruct (p c) eqn:E; [|reflexivity].
  destruct (read_while p ss) as [run rest]. simpl in *. now rewrite E, IH.
Qed.

Lemma digit_value_bounds c : chars.isdigit c = true -> (0 <= digit_value c <= 9)%Z.
Proof.
  unfold chars.isdigit, chars.between, digit_value. intros H.
  apply andb_true_iff in H as [H1 H2].
  apply Nat.leb_le in H1, H2. lia.
Qed.

Lemma decimal_from_nonneg s : forall acc,
  (0 <= acc)%Z -> all_chars chars.isdigit s = true -> (0 <= decimal_from acc s)%Z.
Proof.
  induction s as [|c s IH]; intros acc Ha Hs; simpl in *; [exact Ha|].
  apply andb_true_iff in Hs as [Hc Hs].
  apply IH; [|exact Hs]. pose proof (digit_value_bounds c Hc). lia.
Qed.

Lemma key_words_well_formed s t : key_words_ !! s = Some t -> well_formed t.
Proof.
  unfold key_words_. intros H. apply elem_of_list_to_map_2 in H.
  unfold key_words_list in H.
  repeat (apply elem_of_cons in H as [H|H]; [inversion H; exact I|]).
  inversion H.
Qed.

Lemma ReadIdentifiersOrNumber_well_formed c ss t rest :
  IsIdentifiersOrNumber c = true ->
  ReadIdentifiersOrNumber c ss = Done (t, rest) -> well_formed t.
Proof.
  unfold ReadIdentifiersOrNumber, ReadNumber, IsIdentifiersOrNumber, chars.isalnum.
  intros Hc. destruct (chars.isdigit c) eqn:Hd.
  - pose proof (read_while_all chars.isdigit ss) as Ha.
    destruct (read_while chars.isdigit ss) as [digits r]. simpl in Ha.
    unfold stoi. destruct (_ <=? INT_MAX)%Z eqn:Hm; [|discriminate].
    intros [= <- _]. simpl. apply Z.leb_le in Hm. split; [|exact Hm].
    unfold decimal. apply decimal_from_nonneg; [lia|]. simpl. now rewrite Hd.
  - match goal with
    | |- context [read_while ?p ss] =>
        pose proof (read_while_all p ss) as Ha;
        destruct (read_while p ss) as [run r]
    end.
    simpl in Ha. destruct (key_words_ !! _) eqn:Hk.
    + intros [= <- _]. eauto using key_words_well_formed.
    + intros [= <- _]. simpl. split; [|exact Hk].
      unfold ident_start. rewrite orb_false_r in Hc. rewrite Hc. exact Ha.
Qed.

Lemma Forall_snoc_well_formed (token_ : list Token) t :
  Forall well_formed token_ -> well_formed t -> Forall well_formed (token_ ++ [t]).
Proof. intros. apply Forall_app. split; [assumption|now constructor]. Qed.

Lemma punct_block_well_formed c token_ ss :
  c <> chars.hash -> Forall well_formed token_ ->
  Forall well_formed (punct_block c token_ ss).1.
Proof.
  intros Hh F. unfold punct_block. destruct (IsPunct c) eqn:Hp; [|exact F].
  match goal with
  | |- context [if ?b then token_ ++ [token_type.Char c] else token_] =>
      set (token_1 := if b then token_ ++ [token_type.Char c] else token_);
      assert (F1 : Forall well_formed token_1)
        by (subst token_1; destruct b;
            [apply Forall_snoc_well_formed; simpl; auto|exact F])
  end.
  destruct (chars.count logic_operations_ c =? 1)%nat; [|exact F1].
  destruct (peek_is _ ss).
  - destruct (key_words_ !! _) eqn:Hk; simpl; [|exact F1].
    apply Forall_snoc_well_formed; eauto using key_words_well_formed.
  - simpl. apply Forall_snoc_well_formed; simpl; auto.
Qed.

Lemma ScanLine_well_formed fuel : forall ss token_ toks,
  Forall well_formed token_ ->
  ScanLine fuel ss token_ = Done toks -> Forall well_formed toks.
Proof.
  induction fuel as [|fuel IH]; intros ss token_ toks F H.
  { destruct ss; simpl in H; [|discriminate]. now injection H as <-. }
  destruct ss as [|c ss1]; simpl in H; [now injection H as <-|].
  destruct (chars.eqb c chars.hash) eqn:Eh; [now injection H as <-|].
  destruct (chars.isspace c); [eauto|].
  assert (Hh : c <> chars.hash).
  { intros ->. unfold chars.eqb in Eh. now rewrite Ascii.eqb_refl in Eh. }
  pose proof (punct_block_well_formed c token_ ss1 Hh F) as F1.
  destruct (punct_block c token_ ss1) as [token_1 ss2]. simpl in F1.
  unfold identifier_block in H.
  destruct (IsIdentifiersOrNumber c) eqn:Ei.
  - destruct (ReadIdentifiersOrNumber c ss2) as [[t rest]| |] eqn:Er;
      simpl in H; try discriminate.
    pose proof (ReadIdentifiersOrNumber_well_formed _ _ _ _ Ei Er) as Wt.
    unfold string_block in H. destruct (IsString c).
    + destruct (ReadStrings c rest) as [[t' rest']| |] eqn:Es;
        simpl in H; try discriminate.
      destruct (ReadStrings_spec c rest) as [(s & r & Es' & _)|[e Es']];
        rewrite Es' in Es; [|discriminate]. injection Es as <- <-.
      eapply IH; [|exact H].
      repeat apply Forall_snoc_well_formed; simpl; auto.
    + simpl in H. eapply IH; [|exact H]. now apply Forall_snoc_well_formed.
  - simpl in H. unfold string_block in H. destruct (IsString c).
    + destruct (ReadStrings c ss2) as [[t' rest']| |] eqn:Es;
        simpl in H; try discriminate.
      destruct (ReadStrings_spec c ss2) as [(s & r & Es' & _)|[e Es']];
        rewrite Es' in Es; [|discriminate]. injection Es as <- <-.
      eapply IH; [|exact H]. apply Forall_snoc_well_formed; simpl; auto.
    + simpl in H. eauto.
Qed.

Lemma ReadLine_well_formed line lx lx' :
  Forall well_formed (token_ lx) -> ReadLine line lx = Done lx' ->
  Forall well_formed (token_ lx').
Proof.
  unfold ReadLine. intros F H.
  destruct (negb (IsEmptyLine line)); [|now injection H as <-].
  destruct (find_first_not_of chars.SP line) as [count_space|]; [|discriminate].
  destruct (negb _); [discriminate|].
  rewrite ReadIndents_spec in H. simpl in H.
  match type of H with
  | context [ReadBody ?ss ?tk] =>
      destruct (ReadBody ss tk) as [toks| |] eqn:E; simpl in H; try discriminate;
      assert (Ft : Forall well_formed toks)
  end.
  { unfold ReadBody in E. eapply ScanLine_well_formed; [|exact E].
    rewrite !Forall_app. repeat split; try exact F;
      now apply Forall_replicate. }
  injection H as <-. simpl. now apply Forall_snoc_well_formed.
Qed.

Lemma ReadLines_well_formed lines : forall lx lx',
  Forall well_formed (token_ lx) -> ReadLines lines lx = Done lx' ->
  Forall well_formed (token_ lx').
Proof.
  induction lines as [|line lines IH]; intros lx lx' F H; simpl in H.
  { now injection H as <-. }
  destruct (ReadLine line lx) as [lx1| |] eqn:E; simpl in H; try discriminate.
  eauto using ReadLine_well_formed.
Qed.

(** X4. Every token of an accepted input is well formed: a [Number] lies
    between 0 and [INT_MAX]; an [Id] is a letter or an underscore followed
    by letters, digits and underscores, and is none of the keywords; a
    [Char] is one of the punctuation characters of the three sets, and
    never the hash sign. *)
Theorem lexer_tokens_well_formed (input : string) (lx : Lexer) :
  new_Lexer input = Done lx -> Forall well_formed (token_ lx).
Proof.
  unfold new_Lexer, ReadToken. intros H.
  destruct (ReadLines (getlines input) (MkLexer [] 0)) as [lx1| |] eqn:E;
    simpl in H; try discriminate.
  assert (F1 : Forall well_formed (token_ lx1))
    by (eapply ReadLines_well_formed; [|exact E]; constructor).
  injection H as <-. simpl. apply Forall_snoc_well_formed; [|exact I].
  destruct (0 <? indents lx1)%nat; [|exact F1].
  rewrite ReadIndents_spec. simpl.
  rewrite !Forall_app. repeat split; try exact F1; now apply Forall_replicate.
Qed.

(** ** Indentation errors and blank inputs *)

Lemma ReadLine_odd_indent line lx :
  odd_indent line -> ReadLine line lx = Throw (MkLexerError "Invalid indents").
Proof.
  intros (k & c & rest & -> & Hsp & Hh). unfold ReadLine, IsEmptyLine.
  rewrite (find_first_not_of_spaces_then _ c rest Hsp), get_spaces_then.
  assert (E : chars.eqb c chars.hash = false).
  { unfold chars.eqb. destruct (Ascii.eqb_spec c chars.hash); congruence. }
  rewrite E.
  assert (E1 : negb (match spaces (2 * k + 1) +:+ String.String c rest with
                     | EmptyString => true
                     | String.String _ _ => false
                     end) = true).
  { replace (2 * k + 1) with (S (2 * k)) by lia. reflexivity. }
  rewrite E1.
  replace ((2 * k + 1) mod 2) with 1; [reflexivity|].
  rewrite Nat.add_comm, Nat.mul_comm, Nat.Div0.mod_add. reflexivity.
Qed.

Lemma ReadLines_Throw_in lines line : forall lx,
  In line lines ->
  (forall lx0, exists e, ReadLine line lx0 = Throw e) ->
  exists e, ReadLines lines lx = Throw e.
Proof.
  induction lines as [|l lines IH]; intros lx Hin Hthrow; [destruct Hin|].
  simpl. destruct Hin as [->|Hin].
  - destruct (Hthrow lx) as [e ->]. simpl. eauto.
  - pose proof (ReadLine_no_fuel l lx) as Hf.
    destruct (ReadLine l lx) as [lx1|e|]; simpl; eauto. congruence.
Qed.

(** X5. A line of code that starts after an odd number of spaces makes
    [ReadToken] throw the lexer error "Invalid indents" at that line, so
    an input with such a line is never accepted. *)
Theorem odd_indent_rejected (input line : string) :
  In line (getlines input) -> odd_indent line ->
  (forall lx, ReadLine line lx = Throw (MkLexerError "Invalid indents"))
  /\ (exists e, new_Lexer input = Throw e).
Proof.
  intros Hin Ho. split; [intros; now apply ReadLine_odd_indent|].
  unfold new_Lexer, ReadToken.
  destruct (ReadLines_Throw_in (getlines input) line (MkLexer [] 0) Hin)
    as [e ->]; [|simpl; eauto].
  intros lx0. rewrite ReadLine_odd_indent by exact Ho. eauto.
Qed.

Lemma ReadLines_all_blank lines : forall lx,
  Forall (fun line => IsEmptyLine line = true) lines -> ReadLines lines lx = Done lx.
Proof.
  induction lines as [|line lines IH]; intros lx F; [reflexivity|].
  simpl. rewrite ReadLine_blank by now inversion F.
  simpl. apply IH. now inversion F.
Qed.

(** X6. An input without a line of code, the empty input among them,
    gives the single token [Eof], and the level stays 0. *)
Theorem blank_input_is_Eof (input : string) :
  Forall (fun line => IsEmptyLine line = true) (getlines input) ->
  new_Lexer input = Done (MkLexer [token_type.Eof] 0).
Proof.
  intros F. unfold new_Lexer, ReadToken.
  now rewrite ReadLines_all_blank.
Qed.

(** ** String literals *)

Lemma append_cons_assoc (line : string) (x : ascii) (s : string) :
  (line +:+ String.String x EmptyString) +:+ s = line +:+ String.String x s.
Proof. now rewrite append_assoc. Qed.

Lemma escape_escaped c (x : ascii) (more line : string) :
  c = chars.quote \/ c = chars.apostrophe ->
  ReadStrings_loop c (escaped x +:+ more) line
  = ReadStrings_loop c more (line +:+ String.String x EmptyString).
Proof.
  intros Hc. unfold escaped.
  destruct (chars.eqb x chars.quote) eqn:E1.
  { apply Ascii.eqb_eq in E1. subst x. destruct Hc as [->| ->]; reflexivity. }
  destruct (chars.eqb x chars.apostrophe) eqn:E2.
  { apply Ascii.eqb_eq in E2. subst x. destruct Hc as [->| ->]; reflexivity. }
  destruct (chars.eqb x chars.backslash) eqn:E3.
  { apply Ascii.eqb_eq in E3. subst x. destruct Hc as [->| ->]; reflexivity. }
  destruct (chars.eqb x chars.LF) eqn:E4.
  { apply Ascii.eqb_eq in E4. subst x. destruct Hc as [->| ->]; reflexivity. }
  destruct (chars.eqb x chars.CR) eqn:E5.
  { apply Ascii.eqb_eq in E5. subst x. destruct Hc as [->| ->]; reflexivity. }
  destruct (chars.eqb x chars.TAB) eqn:E6.
  { apply Ascii.eqb_eq in E6. subst x. destruct Hc as [->| ->]; reflexivity. }
  change (String.String x EmptyString +:+ more) with (String.String x more).
  simpl. rewrite E3.
  destruct Hc as [->| ->]; [rewrite E1|rewrite E2]; reflexivity.
Qed.

Lemma ReadStrings_loop_literal c s : forall rest line,
  c = chars.quote \/ c = chars.apostrophe ->
  ReadStrings_loop c (literal_text s +:+ String.String c rest) line
  = Done (token_type.String (line +:+ s), rest).
Proof.
  induction s as [|x s IH]; intros rest line Hc.
  - change (literal_text EmptyString +:+ String.String c rest)
      with (String.String c rest).
    simpl. unfold chars.eqb. rewrite Ascii.eqb_refl.
    replace (line +:+ EmptyString) with line; [reflexivity|].
    clear. induction line as [|y line IH]; [reflexivity|].
    change (String.String y line = String.String y (line +:+ EmptyString)).
    now rewrite <- IH.
  - change (literal_text (String.String x s))
      with (escaped x +:+ literal_text s).
    rewrite append_assoc, escape_escaped, IH by exact Hc.
    now rewrite append_cons_assoc.
Qed.

(** X7. Every text can be written as a string literal: with either quote
    character, its characters written one by one, the two quotes and
    the backslash after a backslash, line feed, carriage return and tab
    as a backslash and the letter n, r or t, and then the closing quote,
    [ReadStrings] gives back the text as a [String] token and leaves the
    stream just after the closing quote. *)
Theorem ReadStrings_reads_back (c : ascii) (s rest : string) :
  c = chars.quote \/ c = chars.apostrophe ->
  ReadStrings c (literal_text s +:+ String.String c rest)
  = Done (token_type.String s, rest).
Proof. intros Hc. unfold ReadStrings. now rewrite ReadStrings_loop_literal. Qed.

Lemma ReadStrings_loop_unterminated c n : forall ss line,
  String.length ss <= n -> free_of c ss = true ->
  exists e, ReadStrings_loop c ss line = Throw e.
Proof.
  induction n as [|n IH]; intros ss line Hn Hf.
  { destruct ss; simpl in *; [eauto|lia]. }
  destruct ss as [|x rest]; simpl in *; [eauto|].
  apply andb_true_iff in Hf as [Hx Hf]. apply negb_true_iff in Hx. rewrite Hx.
  destruct (chars.eqb x chars.backslash).
  - destruct rest as [|e rest']; [eauto|].
    destruct (escape e) as [r|]; [|eauto].
    simpl in Hf. apply andb_true_iff in Hf as [_ Hf].
    apply IH; [simpl in Hn; lia|exact Hf].
  - apply IH; [lia|exact Hf].
Qed.

(** X8. A string literal that is not closed is an error: when the rest
    of the line holds no character equal to the opening quote,
    [ReadStrings] throws a [LexerError], whatever the escapes in it. *)
Theorem ReadStrings_unterminated (c : ascii) (ss : string) :
  free_of c ss = true -> exists e, ReadStrings c ss = Throw e.
Proof.
  intros Hf. unfold ReadStrings.
  now apply (ReadStrings_loop_unterminated c (String.length ss)).
Qed.

(** ** Number literals *)

Lemma digit_is_a_number_start c :
  chars.isdigit c = true ->
  chars.eqb c chars.hash = false /\ chars.isspace c = false
  /\ IsPunct c = false /\ IsIdentifiersOrNumber c = true /\ IsString c = false.
Proof.
  intros H.
  destruct c as [[] [] [] [] [] [] [] []];
    try (vm_compute in H; discriminate H); repeat split; reflexivity.
Qed.

Lemma read_while_all_taken p s :
  all_chars p s = true -> read_while p s = (s, EmptyString).
Proof.
  induction s as [|c s IH]; simpl; [reflexivity|].
  intros H. apply andb_true_iff in H as [Hc Hs]. now rewrite Hc, IH.
Qed.

Lemma string_of_uint_digits d :
  all_chars chars.isdigit (NilEmpty.string_of_uint d) = true.
Proof. induction d; simpl; auto. Qed.

Lemma decimal_from_pos d : forall acc : positive,
  decimal_from (Z.pos acc) (NilEmpty.string_of_uint d)
  = Z.pos (Pos.of_uint_acc d acc).
Proof.
  induction d; intros acc; simpl; [reflexivity| | | | | | | | | |];
    rewrite <- IHd; f_equal;
    try match goal with
        | |- context [digit_value ?c] =>
            let v := eval vm_compute in (digit_value c) in
            change (digit_value c) with v
        end; lia.
Qed.

Lemma decimal_from_zero d :
  decimal_from 0 (NilEmpty.string_of_uint d) = Z.of_N (Pos.of_uint d).
Proof.
  induction d; simpl; [reflexivity|exact IHd| | | | | | | | |];
    apply decimal_from_pos.
Qed.

Lemma show_int_pos p :
  show_int (Z.pos p) = NilEmpty.string_of_uint (Pos.to_uint p)
  /\ decimal (show_int (Z.pos p)) = Z.pos p.
Proof.
  unfold show_int. simpl.
  assert (E : NilZero.string_of_uint (Pos.to_uint p)
              = NilEmpty.string_of_uint (Pos.to_uint p)).
  { pose proof (DecimalPos.Unsigned.to_uint_nonnil p) as Hn.
    unfold NilZero.string_of_uint. now destruct (Pos.to_uint p). }
  rewrite E. split; [reflexivity|].
  unfold decimal. rewrite decimal_from_zero, DecimalPos.Unsigned.of_to.
  reflexivity.
Qed.

Lemma ReadBody_digits c s token_ :
  chars.isdigit c = true -> all_chars chars.isdigit s = true ->
  ReadBody (String.String c s) token_
  = match stoi (String.String c s) with
    | Some value => Done (token_ ++ [token_type.Number value])
    | Datatypes.None => Throw (MkLexerError "Number conversion error")
    end.
Proof.
  intros Hc Hs. destruct (digit_is_a_number_start c Hc) as (E1 & E2 & E3 & E4 & E5).
  unfold ReadBody. simpl. rewrite E1, E2.
  unfold punct_block. rewrite E3.
  unfold identifier_block. rewrite E4.
  unfold ReadIdentifiersOrNumber, ReadNumber. rewrite Hc.
  rewrite (read_while_all_taken _ _ Hs).
  destruct (stoi (String.String c s)); simpl; [|reflexivity].
  unfold string_block. rewrite E5. simpl.
  now destruct (String.length s).
Qed.

(** X9. Number literals read back: for every [n] from 0 on, scanning the
    decimal text of [n] (as [operator<<] writes an [int]) gives the one
    token [Number(n)] when [n] is at most [INT_MAX], and throws "Number
    conversion error" when it is larger. *)
Theorem number_text_reads_back (n : Z) (token_ : list Token) :
  (0 <= n)%Z ->
  ReadBody (show_int n) token_
  = if (n <=? INT_MAX)%Z then Done (token_ ++ [token_type.Number n])
    else Throw (MkLexerError "Number conversion error").
Proof.
  intros Hn. destruct n as [|p|p]; [reflexivity| |lia].
  destruct (show_int_pos p) as [Es Ed].
  pose proof (string_of_uint_digits (Pos.to_uint p)) as Hd.
  pose proof (DecimalPos.Unsigned.to_uint_nonnil p) as Hnil.
  rewrite <- Es in Hd.
  destruct (show_int (Z.pos p)) as [|c s] eqn:E.
  { destruct (Pos.to_uint p); try (cbn in Es; discriminate Es). now destruct Hnil. }
  simpl in Hd. apply andb_true_iff in Hd as [Hc Hs].
  rewrite (ReadBody_digits c s token_ Hc Hs). unfold stoi. rewrite Ed.
  now destruct (Z.pos p <=? INT_MAX)%Z.
Qed.

(** ** Words and operators *)

(** The scanning loop does the same with any number of rounds that is
    enough for the line. *)
Lemma ScanLine_fuel fuel1 : forall fuel2 ss token_,
  String.length ss <= fuel1 -> String.length ss <= fuel2 ->
  ScanLine fuel1 ss token_ = ScanLine fuel2 ss token_.
Proof.
  induction fuel1 as [|fuel1 IH]; intros fuel2 ss token_ H1 H2.
  { destruct ss; simpl in *; [|lia]. now destruct fuel2. }
  destruct ss as [|c ss1]; [now destruct fuel2|].
  destruct fuel2 as [|fuel2]; simpl in *; [lia|].
  destruct (chars.eqb c chars.hash); [reflexivity|].
  destruct (chars.isspace c); [apply IH; lia|].
  pose proof (punct_block_ok c token_ ss1) as Hp.
  destruct (punct_block c token_ ss1) as [token_1 ss2].
  destruct (identifier_block_ok c token_1 ss2)
    as [([token_2 ss3] & -> & Hi)|[e ->]]; simpl; [|reflexivity].
  destruct (string_block_ok c token_2 ss3)
    as [([token_3 ss4] & -> & Hs)|[e ->]]; simpl; [|reflexivity].
  pose proof (round_ok_trans _ _ _ _ (round_ok_trans _ _ _ _ Hp Hi) Hs)
    as [_ L]. simpl in L.
  apply IH; lia.
Qed.

Lemma ReadBody_ScanLine fuel ss token_ :
  String.length ss <= fuel -> ScanLine fuel ss token_ = ReadBody ss token_.
Proof. intros H. apply ScanLine_fuel; [exact H|lia]. Qed.

Lemma append_length (s1 s2 : string) :
  String.length (s1 +:+ s2) = String.length s1 + String.length s2.
Proof.
  induction s1 as [|c s1 IH]; [reflexivity|].
  change (S (String.length (s1 +:+ s2)) = S (String.length s1 + String.length s2)).
  now rewrite IH.
Qed.

Lemma read_while_run p s rest :
  all_chars p s = true ->
  match rest with
  | EmptyString => true
  | String.String c _ => negb (p c)
  end = true ->
  read_while p (s +:+ rest) = (s, rest).
Proof.
  intros Hs Hr. induction s as [|c s IH].
  - change (EmptyString +:+ rest) with rest.
    destruct rest as [|x rest]; [reflexivity|]. simpl.
    apply negb_true_iff in Hr. now rewrite Hr.
  - simpl in Hs. apply andb_true_iff in Hs as [Hc Hs].
    change (String.String c s +:+ rest) with (String.String c (s +:+ rest)).
    simpl. now rewrite Hc, (IH Hs).
Qed.

Lemma ident_start_is_a_word_start c :
  ident_start c = true ->
  chars.eqb c chars.hash = false /\ chars.isspace c = false
  /\ IsPunct c = false /\ IsIdentifiersOrNumber c = true /\ IsString c = false
  /\ chars.isdigit c = false.
Proof.
  intros H.
  destruct c as [[] [] [] [] [] [] [] []];
    try (vm_compute in H; discriminate H); repeat split; reflexivity.
Qed.

(** X10. A word is read whole and then looked up: when the body of a
    line starts with a name [s] that ends at the end of the line or
    before a character that cannot go on a name, the lexer pushes one
    token for all of [s], the keyword token when [s] is one of the nine
    keywords or [None], [True] or [False], and [Id(s)] otherwise, and
    goes on with the rest of the line.  So a name that only starts with
    a keyword is an identifier. *)
Theorem word_is_keyword_or_identifier (s rest : string) (token_ : list Token) :
  is_identifier s = true -> word_end rest = true ->
  ReadBody (s +:+ rest) token_ = ReadBody rest (token_ ++ [word_token s]).
Proof.
  intros Hs Hr. destruct s as [|c s]; [discriminate|].
  simpl in Hs. apply andb_true_iff in Hs as [Hc Hs].
  destruct (ident_start_is_a_word_start c Hc) as (E1 & E2 & E3 & E4 & E5 & E6).
  change (String.String c s +:+ rest) with (String.String c (s +:+ rest)).
  unfold ReadBody at 1. simpl. rewrite E1, E2.
  unfold punct_block. rewrite E3.
  unfold identifier_block. rewrite E4.
  unfold ReadIdentifiersOrNumber. rewrite E6.
  fold ident_char.
  change (fun p : ascii => chars.isalnum p || chars.eqb p "_"%char) with ident_char.
  rewrite (read_while_run ident_char s rest Hs Hr).
  assert (Hnext : forall t,
            (let* (token_2, ss3) := Done (token_ ++ [t], rest) in
             let* (token_3, ss4) := string_block c token_2 ss3 in
             ScanLine (String.length (s +:+ rest)) ss4 token_3)
            = ReadBody rest (token_ ++ [t])).
  { intros t. simpl. unfold string_block. rewrite E5. simpl.
    apply ReadBody_ScanLine. rewrite append_length. lia. }
  unfold word_token.
  destruct (key_words_ !! String.String c s) as [t|]; simpl; apply Hnext.
Qed.

Lemma punct_is_no_word_start c :
  IsPunct c = true -> c <> chars.hash ->
  chars.eqb c chars.hash = false /\ chars.isspace c = false
  /\ IsIdentifiersOrNumber c = false /\ IsString c = false.
Proof.
  intros H Hh.
  destruct c as [[] [] [] [] [] [] [] []];
    try (vm_compute in H; discriminate H); try (now destruct Hh);
    repeat split; reflexivity.
Qed.

(** X11. Punctuation: at a punctuation character [c] other than the
    hash sign, the lexer pushes the comparison token, [Eq], [NotEq],
    [LessOrEq] or [GreaterOrEq], and takes two characters when [c] is
    one of [=], [!], [<], [>] and an equals sign follows; otherwise it
    pushes [Char(c)] and takes the one character.  It then goes on with
    the rest of the line. *)
Theorem punctuation_tokens (c : ascii) (rest : string) (token_ : list Token) :
  IsPunct c = true -> c <> chars.hash ->
  ReadBody (String.String c rest) token_
  = match comparison_token c, peek_is "="%char rest with
    | Some t, true => ReadBody (ignore rest) (token_ ++ [t])
    | _, _ => ReadBody rest (token_ ++ [token_type.Char c])
    end.
Proof.
  intros Hp Hh.
  destruct (punct_is_no_word_start c Hp Hh) as (E1 & E2 & E3 & E4).
  unfold ReadBody at 1. simpl. rewrite E1, E2.
  assert (Hnext : forall toks ss,
            String.length ss <= String.length rest ->
            (let* (token_2, ss3) := identifier_block c toks ss in
             let* (token_3, ss4) := string_block c token_2 ss3 in
             ScanLine (String.length rest) ss4 token_3)
            = ReadBody ss toks).
  { intros toks ss Hl. unfold identifier_block, string_block.
    rewrite E3, E4. simpl. now apply ReadBody_ScanLine. }
  pose proof (ignore_length rest) as Hi.
  destruct c as [[] [] [] [] [] [] [] []];
    try (vm_compute in Hp; discriminate Hp); try (now destruct Hh);
    unfold punct_block, comparison_token;
    match goal with
    | |- context [IsPunct ?x] =>
        let v := eval vm_compute in (IsPunct x) in change (IsPunct x) with v
    end;
    repeat match goal with
    | |- context [chars.count ?l ?x] =>
        let v := eval vm_compute in (chars.count l x) in
        change (chars.count l x) with v
    | |- context [chars.eqb ?x ?y] =>
        let v := eval vm_compute in (chars.eqb x y) in
        change (chars.eqb x y) with v
    end;
    cbv beta iota;
    destruct (peek_is "="%char rest);
    repeat match goal with
    | |- context [key_words_ !! ?k] =>
        let v := eval vm_compute in (key_words_ !! k) in
        change (key_words_ !! k) with v
    end;
    simpl; apply Hnext; lia.
Qed.

(** ** Indentation *)

Lemma nested_app toks level new :
  nested toks level ->
  (forall k, count_token token_type.Dedent (take k new)
             <= count_token token_type.Indent (take k new) + level) ->
  forall level',
    count_token token_type.Indent new + level
    = count_token token_type.Dedent new + level' ->
    nested (toks ++ new) level'.
Proof.
  intros [Hpre Hall] Hnew level' Hl. split.
  - intros k. rewrite take_app, !count_token_app.
    destruct (decide (k <= length toks)) as [Hk|Hk].
    + replace (k - length toks) with 0 by lia. rewrite take_0.
      change (count_token _ []) with 0. specialize (Hpre k). lia.
    + rewrite take_ge by lia. specialize (Hnew (k - length toks)). lia.
  - rewrite !count_token_app. lia.
Qed.

Lemma count_token_take_body t new k :
  body_token t = false -> Forall (fun x => body_token x = true) new ->
  count_token t (take k new) = 0.
Proof.
  intros Ht Hn. apply count_token_body; [exact Ht|].
  now apply Forall_take.
Qed.

Lemma ReadIndents_nested count_spaces lx :
  nested (token_ lx) (indents lx) ->
  nested (token_ (ReadIndents count_spaces lx)) count_spaces
  /\ indents (ReadIndents count_spaces lx) = count_spaces.
Proof.
  intros H. rewrite ReadIndents_spec. simpl. split; [|reflexivity].
  apply (nested_app _ _ _ H).
  - intros k. rewrite take_app, !count_token_app, !take_replicate.
    rewrite !count_token_replicate_same by reflexivity.
    rewrite !count_token_replicate_other by reflexivity.
    rewrite length_replicate. lia.
  - rewrite !count_token_app.
    rewrite !count_token_replicate_same by reflexivity.
    rewrite !count_token_replicate_other by reflexivity. lia.
Qed.

Lemma nested_body toks level new :
  nested toks level ->
  Forall (fun t => body_token t = true \/ t = token_type.Newline
                   \/ t = token_type.Eof) new ->
  nested (toks ++ new) level.
Proof.
  intros H Hn.
  assert (Hc : forall t l,
            t = token_type.Indent \/ t = token_type.Dedent ->
            Forall (fun t => body_token t = true \/ t = token_type.Newline
                             \/ t = token_type.Eof) l ->
            count_token t l = 0).
  { intros t l Ht Hl. induction Hl as [|x l Hx _ IH]; [reflexivity|].
    change (x :: l) with ([x] ++ l). rewrite count_token_app, IH.
    destruct Ht as [-> | ->], Hx as [Hx|[-> | ->]];
      try reflexivity; destruct x; try discriminate Hx; reflexivity. }
  apply (nested_app _ _ _ H).
  - intros k. rewrite (Hc token_type.Dedent) by (auto using Forall_take). lia.
  - now rewrite !Hc by auto.
Qed.

Lemma ReadLine_nested line lx lx' :
  ReadLine line lx = Done lx' ->
  nested (token_ lx) (indents lx) -> nested (token_ lx') (indents lx').
Proof.
  unfold ReadLine. intros H Hn.
  destruct (negb (IsEmptyLine line)); [|now injection H as <-].
  destruct (find_first_not_of chars.SP line) as [count_space|]; [|discriminate].
  destruct (negb _); [discriminate|].
  match type of H with
  | context [ReadIndents ?n lx] =>
      destruct (ReadIndents_nested n lx Hn) as [Hn1 Hi1];
      set (lx1 := ReadIndents n lx) in *
  end.
  destruct (ReadBody_spec (substr count_space line) (token_ lx1))
    as [(new & E & F)|[e E]]; rewrite E in H; simpl in H; [|discriminate].
  injection H as <-. simpl. rewrite <- app_assoc. rewrite Hi1.
  apply nested_body; [exact Hn1|].
  apply Forall_app. split.
  - eapply Forall_impl; [exact F|]. auto.
  - constructor; [right; left; reflexivity|constructor].
Qed.

Lemma ReadLines_nested lines : forall lx lx',
  ReadLines lines lx = Done lx' ->
  nested (token_ lx) (indents lx) -> nested (token_ lx') (indents lx').
Proof.
  induction lines as [|line rest IH]; intros lx lx' H Hn; simpl in H.
  - now injection H as <-.
  - destruct (ReadLine line lx) as [lx1| |] eqn:E; try discriminate.
    simpl in H. eapply IH; [exact H|]. eapply ReadLine_nested; eauto.
Qed.

(** X12. The indentation tokens of an accepted input are nested like
    brackets: in every prefix of the token stream there are at least as
    many [Indent] as [Dedent] tokens, so no [Dedent] closes a block that
    was not opened, and over the whole stream they are as many. *)
Theorem indentation_is_nested (input : string) (lx : Lexer) (k : nat) :
  new_Lexer input = Done lx ->
  count_token token_type.Dedent (take k (token_ lx))
  <= count_token token_type.Indent (take k (token_ lx))
  /\ count_token token_type.Dedent (token_ lx)
     = count_token token_type.Indent (token_ lx).
Proof.
  unfold new_Lexer, ReadToken. intros H.
  destruct (ReadLines (getlines input) (MkLexer [] 0)) as [lx1| |] eqn:E;
    try discriminate.
  simpl in H. injection H as <-. simpl.
  assert (H0 : nested (token_ (MkLexer [] 0)) (indents (MkLexer [] 0))).
  { split; [intros j; simpl; now rewrite take_nil|reflexivity]. }
  pose proof (ReadLines_nested _ _ _ E H0) as Hn1.
  assert (Hn2 : nested (token_ (if (0 <? indents lx1)%nat then ReadIndents 0 lx1 else lx1)) 0).
  { destruct (0 <? indents lx1)%nat eqn:Ei.
    - apply ReadIndents_nested. exact Hn1.
    - apply Nat.ltb_ge in Ei. now replace 0 with (indents lx1) by lia. }
  assert (Hn3 : nested (token_ (if (0 <? indents lx1)%nat then ReadIndents 0 lx1 else lx1)
                        ++ [token_type.Eof]) 0).
  { apply nested_body; [exact Hn2|].
    constructor; [right; right; reflexivity|constructor]. }
  destruct Hn3 as [Hpre Hall]. split; [apply Hpre|lia].
Qed.

(** ** Comments at the end of a line *)

Lemma read_while_before_hash p ss comment :
  p chars.hash = false ->
  read_while p (ss +:+ String.String chars.hash comment)
  = ((read_while p ss).1, (read_while p ss).2 +:+ String.String chars.hash comment).
Proof.
  intros Hp. induction ss as [|c ss IH].
  - change (EmptyString +:+ String.String chars.hash comment)
      with (String.String chars.hash comment).
    simpl. now rewrite Hp.
  - change (String.String c ss +:+ String.String chars.hash comment)
      with (String.String c (ss +:+ String.String chars.hash comment)).
    simpl. destruct (p c); [|reflexivity].
    rewrite IH. now destruct (read_while p ss).
Qed.

Lemma read_while_rest_all p q ss :
  all_chars q ss = true -> all_chars q (read_while p ss).2 = true.
Proof.
  induction ss as [|c ss IH]; [reflexivity|]. intros H. simpl.
  destruct (p c); [|exact H].
  simpl in H. apply andb_true_iff in H as [_ H].
  specialize (IH H). now destruct (read_while p ss).
Qed.

Lemma ignore_all q ss : all_chars q ss = true -> all_chars q (ignore ss) = true.
Proof.
  destruct ss as [|c ss]; [reflexivity|]. simpl. intros H.
  now apply andb_true_iff in H as [_ H].
Qed.

Lemma punct_block_before_hash c token_ ss comment :
  punct_block c token_ (ss +:+ String.String chars.hash comment)
  = ((punct_block c token_ ss).1,
     (punct_block c token_ ss).2 +:+ String.String chars.hash comment).
Proof.
  unfold punct_block.
  destruct (IsPunct c); [|reflexivity].
  match goal with
  | |- context [if ?b then token_ ++ [token_type.Char c] else token_] =>
      generalize (if b then token_ ++ [token_type.Char c] else token_)
  end.
  intros token_1.
  destruct (chars.count logic_operations_ c =? 1)%nat; [|reflexivity].
  destruct ss as [|x ss]; [reflexivity|].
  change (String.String x ss +:+ String.String chars.hash comment)
    with (String.String x (ss +:+ String.String chars.hash comment)).
  simpl. destruct (chars.eqb x "="%char); [|reflexivity].
  now destruct (key_words_ !! _).
Qed.

Lemma punct_block_rest_all q c token_ ss :
  all_chars q ss = true -> all_chars q (punct_block c token_ ss).2 = true.
Proof.
  intros H. pose proof (ignore_all q ss H) as Hi. unfold punct_block.
  destruct (IsPunct c); [|exact H].
  destruct (chars.count logic_operations_ c =? 1)%nat; [|exact H].
  destruct (peek_is "="%char ss); [|exact H].
  now destruct (key_words_ !! _).
Qed.

Lemma identifier_block_before_hash c token_ ss comment :
  identifier_block c token_ (ss +:+ String.String chars.hash comment)
  = match identifier_block c token_ ss with
    | Done (toks, rest) => Done (toks, rest +:+ String.String chars.hash comment)
    | Throw e => Throw e
    | OutOfFuel => OutOfFuel
    end.
Proof.
  unfold identifier_block.
  destruct (IsIdentifiersOrNumber c); [|reflexivity].
  unfold ReadIdentifiersOrNumber, ReadNumber.
  destruct (chars.isdigit c).
  - rewrite read_while_before_hash by reflexivity.
    destruct (read_while chars.isdigit ss) as [digits rest]. simpl.
    now destruct (stoi (String.String c digits)).
  - rewrite read_while_before_hash by reflexivity.
    destruct (read_while _ ss) as [run rest]. simpl.
    now destruct (key_words_ !! String.String c run).
Qed.

Lemma identifier_block_rest_all q c token_ ss toks rest :
  all_chars q ss = true -> identifier_block c token_ ss = Done (toks, rest) ->
  all_chars q rest = true.
Proof.
  intros H. unfold identifier_block.
  destruct (IsIdentifiersOrNumber c); [|now intros [= _ <-]].
  unfold ReadIdentifiersOrNumber, ReadNumber.
  destruct (chars.isdigit c).
  - pose proof (read_while_rest_all chars.isdigit q ss H) as Hr.
    destruct (read_while chars.isdigit ss) as [digits rest']. simpl in *.
    destruct (stoi (String.String c digits)); simpl; [|discriminate].
    now intros [= _ <-].
  - match goal with
    | |- context [read_while ?p ss] =>
        pose proof (read_while_rest_all p q ss H) as Hr;
        destruct (read_while p ss) as [run rest']
    end.
    simpl in *.
    destruct (key_words_ !! String.String c run); simpl; now intros [= _ <-].
Qed.

Lemma ReadBody_before_hash comment n : forall code token_,
  String.length code <= n -> all_chars code_char code = true ->
  ReadBody (code +:+ String.String chars.hash comment) token_
  = ReadBody code token_.
Proof.
  induction n as [|n IH]; intros code token_ Hlen Hcode.
  { destruct code; [reflexivity|simpl in Hlen; lia]. }
  destruct code as [|c code]; [reflexivity|].
  simpl in Hlen, Hcode. apply andb_true_iff in Hcode as [Hc Hcode].
  unfold code_char in Hc. apply andb_true_iff in Hc as [Hh Hs].
  apply negb_true_iff in Hh, Hs.
  change (String.String c code +:+ String.String chars.hash comment)
    with (String.String c (code +:+ String.String chars.hash comment)).
  unfold ReadBody at 1 2. simpl. rewrite Hh.
  destruct (chars.isspace c).
  { change (ReadBody (code +:+ String.String chars.hash comment) token_
            = ReadBody code token_).
    apply IH; [lia|exact Hcode]. }
  rewrite punct_block_before_hash.
  pose proof (punct_block_ok c token_ code) as [_ Lp].
  pose proof (punct_block_rest_all code_char c token_ code Hcode) as Ap.
  destruct (punct_block c token_ code) as [token_1 ss2]. simpl in *.
  rewrite identifier_block_before_hash.
  pose proof (identifier_block_rest_all code_char c token_1 ss2) as Ai.
  destruct (identifier_block_ok c token_1 ss2)
    as [([token_2 ss3] & E & _ & Li)|[e E]]; rewrite E in *; simpl in *;
    [|reflexivity].
  specialize (Ai _ _ Ap eq_refl).
  unfold string_block. rewrite Hs. simpl.
  rewrite (ReadBody_ScanLine _ (ss3 +:+ String.String chars.hash comment))
    by (rewrite !append_length; lia).
  rewrite (ReadBody_ScanLine _ ss3) by lia.
  apply IH; [lia|exact Ai].
Qed.

(** X26. A comment at the end of a line of code is ignored: when the
    code before the hash sign holds no hash sign and no quote, the body
    of the line gives the same tokens, or the same error, with and
    without the hash sign and all that follows it. *)
Theorem trailing_comment_ignored (code comment : string) (token_ : list Token) :
  all_chars code_char code = true ->
  ReadBody (code +:+ String.String chars.hash comment) token_
  = ReadBody code token_.
Proof. intros H. now apply (ReadBody_before_hash comment (String.length code)). Qed.

End LexerExtras.

(** * Further properties of the evaluator *)

Section EvaluatorExtras.

Import ast eval_spec eval_extra.

Variable rt : Runtime.

Lemma two_operands {A} fuel lhs rhs (k : ObjectHolder -> ObjectHolder -> M A)
    cl m l cl1 m1 r cl2 m2 :
  Execute rt (S fuel) lhs cl m = (Value l, cl1, m1) ->
  Execute rt (S fuel) rhs cl1 m1 = (Value r, cl2, m2) ->
  (let* lhs_h := Execute rt (S fuel) lhs in
   let* rhs_h := Execute rt (S fuel) rhs in
   k lhs_h rhs_h) cl m
  = k l r cl2 m2.
Proof.
  intros Hl Hr. rewrite (bind_Value _ _ _ _ _ _ _ Hl).
  now rewrite (bind_Value _ _ _ _ _ _ _ Hr).
Qed.

(** ** Variables *)

(** X13. [Assignment] evaluates the right-hand side and binds the
    variable to its value in the closure the right-hand side left,
    replacing an earlier binding; the value is the result, reading the
    variable next gives the value, and reading another variable gives
    what it gave before.  When the right-hand side throws, the exception
    leaves the assignment and the variable is not bound by it. *)
Theorem Assignment_binds_the_value (fuel : nat) (var : string) (rv : Statement)
    (cl : Closure) (m : Machine) :
  (forall value cl1 m1,
     Execute rt (S fuel) rv cl m = (Value value, cl1, m1) ->
     Execute rt (S fuel) (Assignment var rv) cl m
     = (Value value, <[var := value]> cl1, m1)
     /\ Execute rt (S fuel) (VariableValue [var]) (<[var := value]> cl1) m1
        = (Value value, <[var := value]> cl1, m1)
     /\ (forall other, other <> var ->
           (Execute rt (S fuel) (VariableValue [other]) (<[var := value]> cl1) m1).1.1
           = (Execute rt (S fuel) (VariableValue [other]) cl1 m1).1.1))
  /\ (forall e cl1 m1,
        Execute rt (S fuel) rv cl m = (Throw e, cl1, m1) ->
        Execute rt (S fuel) (Assignment var rv) cl m = (Throw e, cl1, m1)).
Proof.
  split.
  - intros value cl1 m1 H. split; [|split].
    + change (Execute rt (S fuel)) with (Execute_node rt (Execute rt fuel)) in *.
      simpl. now rewrite (bind_Value _ _ _ _ _ _ _ H).
    + rewrite (VariableValue_bound rt fuel var [] _ _ value); [reflexivity|].
      apply lookup_insert_eq.
    + intros other Hne. simpl. unfold bind, get_var.
      rewrite lookup_insert_ne by congruence.
      now destruct (cl1 !! other).
  - intros e cl1 m1 H.
    change (Execute rt (S fuel)) with (Execute_node rt (Execute rt fuel)) in *.
    simpl. now rewrite (bind_Throw _ _ _ _ _ _ _ H).
Qed.

(** X14. [VariableValue] only reads: whatever its result, a value, the
    error of an unknown variable or of a missing field, it leaves the
    closure and the machine as they were. *)
Theorem VariableValue_only_reads (fuel : nat) (dotted_ids : list string)
    (cl : Closure) (m : Machine) :
  exists r, Execute rt (S fuel) (VariableValue dotted_ids) cl m = (r, cl, m).
Proof. apply VariableValue_Execute_state. Qed.

(** ** Fields *)

Lemma accumulate_app names1 names2 : forall init cl m,
  accumulate (names1 ++ names2) init cl m
  = (let* value := accumulate names1 init in accumulate names2 value) cl m.
Proof.
  induction names1 as [|name rest IH]; intros init cl m; [reflexivity|].
  simpl. unfold bind.
  destruct (field_at init name cl m) as [[[v|e| |] c] mm]; try reflexivity.
  rewrite IH. reflexivity.
Qed.

Lemma VariableValue_app fuel path names cl m value :
  Execute rt (S fuel) (VariableValue path) cl m = (Value value, cl, m) ->
  Execute rt (S fuel) (VariableValue (path ++ names)) cl m
  = accumulate names value cl m.
Proof.
  destruct path as [|var_name rest]; [discriminate|].
  simpl. unfold bind, get_var.
  destruct (cl !! var_name) as [v|]; [|discriminate].
  intros H. rewrite accumulate_app. unfold bind. now rewrite H.
Qed.

Lemma FieldAssignment_Execute fuel object field_name rv cl m a :
  Execute rt (S fuel) (VariableValue object) cl m
  = (Value (Some (ClassInstance a)), cl, m) ->
  Execute rt (S fuel) (FieldAssignment object field_name rv) cl m
  = (let* _ := Fields_subscript a field_name in
     let* value := Execute rt (S fuel) rv in
     let* _ := Fields_store a field_name value in
     ret value) cl m.
Proof.
  intros H. change (Execute rt (S fuel)) with (Execute_node rt (Execute rt fuel)) in *.
  simpl in *. now rewrite (bind_Value _ _ _ _ _ _ _ H).
Qed.

(** X15. A [FieldAssignment] whose target path resolves to a class
    instance stores the value of the right-hand side in the instance
    itself, not in a copy: afterwards every path that resolves to the
    same instance reads the value through the field.  The other fields
    of the instance read as before, the other instances and the output
    are untouched. *)
Theorem FieldAssignment_stores_in_the_instance (fuel : nat)
    (object alias : list string) (field_name : string) (rv : Statement)
    (cl : Closure) (m : Machine) (a : nat) (inst : Instance)
    (value : ObjectHolder) (cl1 : Closure) (m1 : Machine) (inst1 : Instance) :
  Execute rt (S fuel) (VariableValue object) cl m
  = (Value (Some (ClassInstance a)), cl, m) ->
  heap m !! a = Some inst ->
  Execute rt (S fuel) rv cl (with_field_created a field_name m) = (Value value, cl1, m1) ->
  heap m1 !! a = Some inst1 ->
  Execute rt (S fuel) (VariableValue alias) cl1 (with_field_stored a field_name value m1)
  = (Value (Some (ClassInstance a)), cl1, with_field_stored a field_name value m1) ->
  Execute rt (S fuel) (FieldAssignment object field_name rv) cl m
  = (Value value, cl1, with_field_stored a field_name value m1)
  /\ Execute rt (S fuel) (VariableValue (alias ++ [field_name])) cl1
       (with_field_stored a field_name value m1)
     = (Value value, cl1, with_field_stored a field_name value m1)
  /\ (forall other kept, other <> field_name ->
        Fields inst1 !! other = Some kept ->
        Execute rt (S fuel) (VariableValue (alias ++ [other])) cl1
          (with_field_stored a field_name value m1)
        = (Value kept, cl1, with_field_stored a field_name value m1))
  /\ (forall b, b <> a ->
        heap (with_field_stored a field_name value m1) !! b = heap m1 !! b)
  /\ context (with_field_stored a field_name value m1) = context m1.
Proof.
  intros Ho Ha Hrv Ha1 Hal.
  pose proof (Fields_at_stored a field_name value m1 inst1 Ha1) as Hst.
  unfold Fields_at in Hst.
  destruct (heap (with_field_stored a field_name value m1) !! a) as [inst2|] eqn:E2;
    [|discriminate].
  injection Hst as Hst.
  split; [|split; [|split; [|split]]].
  - rewrite (FieldAssignment_Execute _ _ _ _ _ _ _ Ho).
    rewrite (bind_Value _ _ _ _ _ _ _ (Fields_subscript_spec a field_name cl m inst Ha)).
    rewrite (bind_Value _ _ _ _ _ _ _ Hrv).
    now rewrite (bind_Value _ _ _ _ _ _ _ (Fields_store_spec a field_name value cl1 m1 inst1 Ha1)).
  - rewrite (VariableValue_app _ _ _ _ _ _ Hal).
    rewrite (accumulate_field field_name [] a inst2 value); [reflexivity|exact E2|].
    rewrite Hst. apply lookup_insert_eq.
  - intros other kept Hne Hk.
    rewrite (VariableValue_app _ _ _ _ _ _ Hal).
    rewrite (accumulate_field other [] a inst2 kept); [reflexivity|exact E2|].
    rewrite Hst. rewrite lookup_insert_ne by congruence. exact Hk.
  - intros b Hb. unfold with_field_stored. rewrite Ha1. simpl.
    apply list_lookup_insert_ne. congruence.
  - unfold with_field_stored. now rewrite Ha1.
Qed.

(** ** Arithmetic *)

(** X16. [Add], [Sub] and [Mult] on two numbers whose sum, difference
    or product is an [int]: both operands are evaluated, the left one
    first, and the result is the number of the sum, the difference or
    the product, from the closure and the machine the right operand
    left. *)
Theorem arithmetic_on_numbers (fuel : nat) (lhs rhs : Statement)
    (cl : Closure) (m : Machine) (a b : Z) (cl1 : Closure) (m1 : Machine)
    (cl2 : Closure) (m2 : Machine) :
  Execute rt (S fuel) lhs cl m = (Value (Some (Number a)), cl1, m1) ->
  Execute rt (S fuel) rhs cl1 m1 = (Value (Some (Number b)), cl2, m2) ->
  Forall (fun '(node, operation) =>
            in_int_range (operation a b) = true ->
            Execute rt (S fuel) (node lhs rhs) cl m
            = (Value (Some (Number (operation a b))), cl2, m2))
    [ (Add, Z.add); (Sub, Z.sub); (Mult, Z.mul) ].
Proof.
  intros Hl Hr.
  change (Execute rt (S fuel)) with (Execute_node rt (Execute rt fuel)) in *.
  repeat constructor; intros Hin; simpl;
    rewrite (bind_Value _ _ _ _ _ _ _ Hl), (bind_Value _ _ _ _ _ _ _ Hr);
    simpl; unfold int_result; now rewrite Hin.
Qed.

(** X17. [Add] groups to either side: when the three operands evaluate
    one after the other to strings, [(x + y) + z] and [x + (y + z)] both
    give the three texts in a row; when they evaluate to numbers whose
    partial sums are [int]s, both give the sum.  In both groupings the
    operands are evaluated in the order [x], [y], [z]. *)
Theorem Add_groups_to_either_side (fuel : nat) (x y z : Statement)
    (cl : Closure) (m : Machine)
    (vx : ObjectHolder) (cl1 : Closure) (m1 : Machine)
    (vy : ObjectHolder) (cl2 : Closure) (m2 : Machine)
    (vz : ObjectHolder) (cl3 : Closure) (m3 : Machine) :
  Execute rt (S fuel) x cl m = (Value vx, cl1, m1) ->
  Execute rt (S fuel) y cl1 m1 = (Value vy, cl2, m2) ->
  Execute rt (S fuel) z cl2 m2 = (Value vz, cl3, m3) ->
  (forall a b c,
     vx = Some (String a) -> vy = Some (String b) -> vz = Some (String c) ->
     Execute rt (S fuel) (Add (Add x y) z) cl m
     = (Value (Some (String (a +:+ b +:+ c))), cl3, m3)
     /\ Execute rt (S fuel) (Add x (Add y z)) cl m
        = (Value (Some (String (a +:+ b +:+ c))), cl3, m3))
  /\ (forall a b c,
        vx = Some (Number a) -> vy = Some (Number b) -> vz = Some (Number c) ->
        in_int_range (a + b) = true -> in_int_range (b + c) = true ->
        in_int_range (a + b + c) = true ->
        Execute rt (S fuel) (Add (Add x y) z) cl m
        = (Value (Some (Number (a + b + c))), cl3, m3)
        /\ Execute rt (S fuel) (Add x (Add y z)) cl m
           = (Value (Some (Number (a + b + c))), cl3, m3)).
Proof.
  intros Hx Hy Hz.
  change (Execute rt (S fuel)) with (Execute_node rt (Execute rt fuel)) in *.
  split.
  - intros a b c -> -> ->. split.
    + assert (Hxy : Execute_node rt (Execute rt fuel) (Add x y) cl m
                    = (Value (Some (String (a +:+ b))), cl2, m2)).
      { simpl. now rewrite (bind_Value _ _ _ _ _ _ _ Hx), (bind_Value _ _ _ _ _ _ _ Hy). }
      change (Execute_node rt (Execute rt fuel) (Add (Add x y) z))
        with (let* lhs_h := Execute_node rt (Execute rt fuel) (Add x y) in
              let* rhs_h := Execute_node rt (Execute rt fuel) z in
              match TryAs_Number lhs_h, TryAs_Number rhs_h with
              | Some a, Some b => int_result (a + b)
              | _, _ =>
                  match TryAs_String lhs_h, TryAs_String rhs_h with
                  | Some a, Some b => ret (Some (String (a +:+ b)))
                  | _, _ => class_operation rt (Execute rt fuel) lhs_h rhs_h
                              "__add__" "Bad Addition!"
                  end
              end).
      rewrite (bind_Value _ _ _ _ _ _ _ Hxy), (bind_Value _ _ _ _ _ _ _ Hz).
      simpl. now rewrite append_assoc.
    + assert (Hyz : Execute_node rt (Execute rt fuel) (Add y z) cl1 m1
                    = (Value (Some (String (b +:+ c))), cl3, m3)).
      { simpl. now rewrite (bind_Value _ _ _ _ _ _ _ Hy), (bind_Value _ _ _ _ _ _ _ Hz). }
      change (Execute_node rt (Execute rt fuel) (Add x (Add y z)))
        with (let* lhs_h := Execute_node rt (Execute rt fuel) x in
              let* rhs_h := Execute_node rt (Execute rt fuel) (Add y z) in
              match TryAs_Number lhs_h, TryAs_Number rhs_h with
              | Some a, Some b => int_result (a + b)
              | _, _ =>
                  match TryAs_String lhs_h, TryAs_String rhs_h with
                  | Some a, Some b => ret (Some (String (a +:+ b)))
                  | _, _ => class_operation rt (Execute rt fuel) lhs_h rhs_h
                              "__add__" "Bad Addition!"
                  end
              end).
      now rewrite (bind_Value _ _ _ _ _ _ _ Hx), (bind_Value _ _ _ _ _ _ _ Hyz).
  - intros a b c -> -> -> Hab Hbc Habc. split.
    + assert (Hxy : Execute_node rt (Execute rt fuel) (Add x y) cl m
                    = (Value (Some (Number (a + b))), cl2, m2)).
      { simpl. rewrite (bind_Value _ _ _ _ _ _ _ Hx), (bind_Value _ _ _ _ _ _ _ Hy).
        simpl. unfold int_result. now rewrite Hab. }
      change (Execute_node rt (Execute rt fuel) (Add (Add x y) z))
        with (let* lhs_h := Execute_node rt (Execute rt fuel) (Add x y) in
              let* rhs_h := Execute_node rt (Execute rt fuel) z in
              match TryAs_Number lhs_h, TryAs_Number rhs_h with
              | Some a, Some b => int_result (a + b)
              | _, _ =>
                  match TryAs_String lhs_h, TryAs_String rhs_h with
                  | Some a, Some b => ret (Some (String (a +:+ b)))
                  | _, _ => class_operation rt (Execute rt fuel) lhs_h rhs_h
                              "__add__" "Bad Addition!"
                  end
              end).
      rewrite (bind_Value _ _ _ _ _ _ _ Hxy), (bind_Value _ _ _ _ _ _ _ Hz).
      simpl. unfold int_result. now rewrite Habc.
    + assert (Hyz : Execute_node rt (Execute rt fuel) (Add y z) cl1 m1
                    = (Value (Some (Number (b + c))), cl3, m3)).
      { simpl. rewrite (bind_Value _ _ _ _ _ _ _ Hy), (bind_Value _ _ _ _ _ _ _ Hz).
        simpl. unfold int_result. now rewrite Hbc. }
      change (Execute_node rt (Execute rt fuel) (Add x (Add y z)))
        with (let* lhs_h := Execute_node rt (Execute rt fuel) x in
              let* rhs_h := Execute_node rt (Execute rt fuel) (Add y z) in
              match TryAs_Number lhs_h, TryAs_Number rhs_h with
              | Some a, Some b => int_result (a + b)
              | _, _ =>
                  match TryAs_String lhs_h, TryAs_String rhs_h with
                  | Some a, Some b => ret (Some (String (a +:+ b)))
                  | _, _ => class_operation rt (Execute rt fuel) lhs_h rhs_h
                              "__add__" "Bad Addition!"
                  end
              end).
      rewrite (bind_Value _ _ _ _ _ _ _ Hx), (bind_Value _ _ _ _ _ _ _ Hyz).
      simpl. unfold int_result. rewrite Z.add_assoc. now rewrite Habc.
Qed.

Lemma class_operation_instance fuel a r operation what cl m inst :
  heap m !! a = Some inst ->
  class_operation rt (Execute rt fuel) (Some (ClassInstance a)) r operation what cl m
  = if HasMethod rt (class_of inst) operation 1
    then lift (Call rt (Execute rt fuel) a operation [r]) cl m
    else (Throw (runtime_error what), cl, m).
Proof.
  intros Ha. unfold class_operation, executeBinaryOperationOnClasses,
    instance_HasMethod, instance_at, bind, lift. simpl. rewrite Ha.
  destruct (HasMethod rt (class_of inst) operation 1); [|reflexivity].
  unfold ret. simpl.
  destruct (Call rt (Execute rt fuel) a operation [r] m) as [[v|e| |] mm];
    reflexivity.
Qed.

(** X18. An arithmetic node whose left operand is a class instance calls
    the operator method of the instance, [__add__], [__sub__],
    [__mul__] or [__div__], with the right operand as the only argument,
    whatever the right operand is; the result of the call is the result
    of the node.  When the class has no such method of one parameter the
    node throws its error. *)
Theorem operator_method_of_the_left_operand (fuel : nat)
    (node : Statement -> Statement -> Statement) (operation what : string)
    (lhs rhs : Statement) (cl : Closure) (m : Machine) (a : nat)
    (cl1 : Closure) (m1 : Machine) (r : ObjectHolder) (cl2 : Closure)
    (m2 : Machine) (inst : Instance) :
  In (node, operation, what) arithmetic_nodes ->
  Execute rt (S fuel) lhs cl m = (Value (Some (ClassInstance a)), cl1, m1) ->
  Execute rt (S fuel) rhs cl1 m1 = (Value r, cl2, m2) ->
  heap m2 !! a = Some inst ->
  Execute rt (S fuel) (node lhs rhs) cl m
  = if HasMethod rt (class_of inst) operation 1
    then lift (Call rt (Execute rt fuel) a operation [r]) cl2 m2
    else (Throw (runtime_error what), cl2, m2).
Proof.
  intros Hin Hl Hr Ha.
  change (Execute rt (S fuel)) with (Execute_node rt (Execute rt fuel)) in *.
  simpl in Hin.
  destruct Hin as [H|[H|[H|[H|[]]]]]; injection H as <- <- <-; simpl;
    rewrite (bind_Value _ _ _ _ _ _ _ Hl), (bind_Value _ _ _ _ _ _ _ Hr);
    simpl; apply (class_operation_instance fuel a r _ _ cl2 m2 inst Ha).
Qed.

(** X19. An arithmetic node throws its error, "Bad Addition!", "Bad
    Subtraction!", "Bad Multiplication!" or "Bad Division!", when the
    left operand is not a class instance and the operands are not two
    numbers, nor, for [Add], two strings.  So a number and a string, an
    empty holder, or a class instance on the right only, are all
    refused, after both operands were evaluated. *)
Theorem arithmetic_type_error (fuel : nat)
    (node : Statement -> Statement -> Statement) (operation what : string)
    (lhs rhs : Statement) (cl : Closure) (m : Machine) (l : ObjectHolder)
    (cl1 : Closure) (m1 : Machine) (r : ObjectHolder) (cl2 : Closure)
    (m2 : Machine) :
  In (node, operation, what) arithmetic_nodes ->
  Execute rt (S fuel) lhs cl m = (Value l, cl1, m1) ->
  Execute rt (S fuel) rhs cl1 m1 = (Value r, cl2, m2) ->
  TryAs_ClassInstance l = None ->
  TryAs_Number l = None \/ TryAs_Number r = None ->
  (operation = "__add__" -> TryAs_String l = None \/ TryAs_String r = None) ->
  Execute rt (S fuel) (node lhs rhs) cl m = (Throw (runtime_error what), cl2, m2).
Proof.
  intros Hin Hl Hr Hc Hn Hs.
  change (Execute rt (S fuel)) with (Execute_node rt (Execute rt fuel)) in *.
  assert (Hco : forall operation what,
            class_operation rt (Execute rt fuel) l r operation what cl2 m2
            = (Throw (runtime_error what), cl2, m2)).
  { intros. unfold class_operation. now rewrite Hc. }
  simpl in Hin.
  destruct Hin as [H|[H|[H|[H|[]]]]]; injection H as <- <- <-; simpl;
    rewrite (bind_Value _ _ _ _ _ _ _ Hl), (bind_Value _ _ _ _ _ _ _ Hr).
  - destruct (Hs eq_refl) as [Hs'|Hs']; destruct Hn as [Hn'|Hn'];
      rewrite ?Hs', ?Hn';
      destruct (TryAs_Number l); destruct (TryAs_Number r);
      destruct (TryAs_String l); destruct (TryAs_String r);
      try discriminate; apply Hco.
  - destruct Hn as [Hn'|Hn']; rewrite Hn';
      destruct (TryAs_Number l); destruct (TryAs_Number r);
      try discriminate; apply Hco.
  - destruct Hn as [Hn'|Hn']; rewrite Hn';
      destruct (TryAs_Number l); destruct (TryAs_Number r);
      try discriminate; apply Hco.
  - destruct Hn as [Hn'|Hn']; rewrite Hn';
      destruct (TryAs_Number l); destruct (TryAs_Number r);
      try discriminate; apply Hco.
Qed.

(** ** Logic *)

(** X20. [Or] and [And] do not short-circuit: the right operand is
    evaluated, from the closure and the machine that the left one left,
    also when the left operand already decides the result, so an
    exception of the right operand always leaves the node.  With two
    values the result is a [Bool], an empty operand counting as
    [Bool(false)]. *)
Theorem logic_evaluates_both_operands (fuel : nat) (lhs rhs : Statement)
    (cl : Closure) (m : Machine) (l : ObjectHolder) (cl1 : Closure) (m1 : Machine) :
  Execute rt (S fuel) lhs cl m = (Value l, cl1, m1) ->
  (forall r cl2 m2,
     Execute rt (S fuel) rhs cl1 m1 = (Value r, cl2, m2) ->
     Execute rt (S fuel) (Or lhs rhs) cl m
     = (Value (Some (Bool (truth rt l || truth rt r))), cl2, m2)
     /\ Execute rt (S fuel) (And lhs rhs) cl m
        = (Value (Some (Bool (truth rt l && truth rt r))), cl2, m2))
  /\ (forall e cl2 m2,
        Execute rt (S fuel) rhs cl1 m1 = (Throw e, cl2, m2) ->
        Execute rt (S fuel) (Or lhs rhs) cl m = (Throw e, cl2, m2)
        /\ Execute rt (S fuel) (And lhs rhs) cl m = (Throw e, cl2, m2))
  /\ truth rt None = IsTrue rt (Some (Bool false)).
Proof.
  intros Hl.
  change (Execute rt (S fuel)) with (Execute_node rt (Execute rt fuel)) in *.
  split; [|split; [|reflexivity]].
  - intros r cl2 m2 Hr. split; simpl;
      now rewrite (bind_Value _ _ _ _ _ _ _ Hl), (bind_Value _ _ _ _ _ _ _ Hr).
  - intros e cl2 m2 Hr. split; simpl;
      now rewrite (bind_Value _ _ _ _ _ _ _ Hl), (bind_Throw _ _ _ _ _ _ _ Hr).
Qed.

Lemma Not_Execute fuel argument cl m value cl1 m1 :
  Execute rt (S fuel) argument cl m = (Value value, cl1, m1) ->
  Execute rt (S fuel) (Not argument) cl m
  = (Value (Some (Bool (negb (truth rt value)))), cl1, m1).
Proof.
  intros H. change (Execute rt (S fuel)) with (Execute_node rt (Execute rt fuel)) in *.
  simpl. now rewrite (bind_Value _ _ _ _ _ _ _ H).
Qed.

(** X21. With a runtime whose [IsTrue] of a [Bool] is the boolean it
    holds, the logic nodes obey De Morgan's laws as statements and not
    only as values: [not (x or y)] and [(not x) and (not y)] evaluate
    [x], then [y], and give the same [Bool] from the same closure and
    machine, and so do [not (x and y)] and [(not x) or (not y)]; a
    double [not] gives the truth value of its operand. *)
Theorem logic_De_Morgan (fuel : nat) (x y : Statement)
    (cl : Closure) (m : Machine) (vx : ObjectHolder) (cl1 : Closure) (m1 : Machine)
    (vy : ObjectHolder) (cl2 : Closure) (m2 : Machine) :
  (forall b, IsTrue rt (Some (Bool b)) = b) ->
  Execute rt (S fuel) x cl m = (Value vx, cl1, m1) ->
  Execute rt (S fuel) y cl1 m1 = (Value vy, cl2, m2) ->
  Execute rt (S fuel) (Not (Or x y)) cl m
  = Execute rt (S fuel) (And (Not x) (Not y)) cl m
  /\ Execute rt (S fuel) (Not (And x y)) cl m
     = Execute rt (S fuel) (Or (Not x) (Not y)) cl m
  /\ Execute rt (S fuel) (Not (Or x y)) cl m
     = (Value (Some (Bool (negb (truth rt vx || truth rt vy)))), cl2, m2)
  /\ Execute rt (S fuel) (Not (Not x)) cl m
     = (Value (Some (Bool (truth rt vx))), cl1, m1).
Proof.
  intros Hb Hx Hy.
  pose proof (Not_Execute _ _ _ _ _ _ _ Hx) as Hnx.
  pose proof (Not_Execute _ _ _ _ _ _ _ Hy) as Hny.
  assert (Hor : Execute rt (S fuel) (Or x y) cl m
                = (Value (Some (Bool (truth rt vx || truth rt vy))), cl2, m2)).
  { change (Execute rt (S fuel)) with (Execute_node rt (Execute rt fuel)) in *.
    simpl. now rewrite (bind_Value _ _ _ _ _ _ _ Hx), (bind_Value _ _ _ _ _ _ _ Hy). }
  assert (Hand : Execute rt (S fuel) (And x y) cl m
                 = (Value (Some (Bool (truth rt vx && truth rt vy))), cl2, m2)).
  { change (Execute rt (S fuel)) with (Execute_node rt (Execute rt fuel)) in *.
    simpl. now rewrite (bind_Value _ _ _ _ _ _ _ Hx), (bind_Value _ _ _ _ _ _ _ Hy). }
  assert (Hand' : Execute rt (S fuel) (And (Not x) (Not y)) cl m
                  = (Value (Some (Bool (negb (truth rt vx) && negb (truth rt vy)))), cl2, m2)).
  { change (Execute rt (S fuel) (And (Not x) (Not y)))
      with (let* lhs_h := Execute rt (S fuel) (Not x) in
            let* rhs_h := Execute rt (S fuel) (Not y) in
            ret (Some (Bool (truth rt lhs_h && truth rt rhs_h)))).
    rewrite (bind_Value _ _ _ _ _ _ _ Hnx), (bind_Value _ _ _ _ _ _ _ Hny).
    unfold ret, truth. now rewrite !Hb. }
  assert (Hor' : Execute rt (S fuel) (Or (Not x) (Not y)) cl m
                 = (Value (Some (Bool (negb (truth rt vx) || negb (truth rt vy)))), cl2, m2)).
  { change (Execute rt (S fuel) (Or (Not x) (Not y)))
      with (let* lhs_h := Execute rt (S fuel) (Not x) in
            let* rhs_h := Execute rt (S fuel) (Not y) in
            ret (Some (Bool (truth rt lhs_h || truth rt rhs_h)))).
    rewrite (bind_Value _ _ _ _ _ _ _ Hnx), (bind_Value _ _ _ _ _ _ _ Hny).
    unfold ret, truth. now rewrite !Hb. }
  rewrite (Not_Execute _ _ _ _ _ _ _ Hor), (Not_Execute _ _ _ _ _ _ _ Hand).
  rewrite Hand', Hor', (Not_Execute _ _ _ _ _ _ _ Hnx).
  assert (Ht : forall b, truth rt (Some (Bool b)) = b) by (intros b; apply Hb).
  rewrite !Ht, negb_orb, negb_andb, negb_involutive. auto.
Qed.

(** ** Instances *)

(** X22. [NewInstance] allocates the instance before anything else: its
    address is one that no instance had, and the instances that were
    there stay as they were.  When the class has no [__init__] of as
    many parameters as there are arguments, the arguments are not
    evaluated at all: the closure is unchanged and the machine only has
    the new instance, without fields, more.  When it has one, the
    arguments are evaluated with the new instance already allocated,
    [__init__] is called on it with their values, and the result of the
    node is the instance whatever [__init__] returned. *)
Theorem NewInstance_allocates_first (fuel : nat) (class_ : Class)
    (args : list Statement) (cl : Closure) (m : Machine) :
  (HasMethod rt class_ "__init__" (length args) = false ->
   Execute rt (S fuel) (NewInstance class_ args) cl m
   = (Value (Some (ClassInstance (length (heap m)))), cl, with_new_instance class_ m))
  /\ (forall values cl1 m1 returned m2,
        HasMethod rt class_ "__init__" (length args) = true ->
        eval_args (Execute rt (S fuel)) args cl (with_new_instance class_ m)
        = (Value values, cl1, m1) ->
        Call rt (Execute rt fuel) (length (heap m)) "__init__" values m1
        = (Value returned, m2) ->
        Execute rt (S fuel) (NewInstance class_ args) cl m
        = (Value (Some (ClassInstance (length (heap m)))), cl1, m2))
  /\ heap m !! length (heap m) = None
  /\ heap (with_new_instance class_ m) !! length (heap m) = Some (MkInstance class_ ∅)
  /\ (forall a inst, heap m !! a = Some inst ->
        heap (with_new_instance class_ m) !! a = Some inst)
  /\ context (with_new_instance class_ m) = context m.
Proof.
  change (Execute rt (S fuel)) with (Execute_node rt (Execute rt fuel)) in *.
  split; [|split; [|split; [|split; [|split]]]].
  - intros H. simpl. unfold bind, new_ClassInstance. now rewrite H.
  - intros values cl1 m1 returned m2 H Hargs Hcall.
    simpl. unfold bind at 1. unfold new_ClassInstance. rewrite H.
    fold (with_new_instance class_ m).
    rewrite (bind_Value _ _ _ _ _ _ _ Hargs).
    unfold bind, lift. now rewrite Hcall.
  - apply lookup_ge_None_2. lia.
  - unfold with_new_instance. simpl.
    rewrite lookup_app_r by lia. now rewrite Nat.sub_diag.
  - intros a inst H. unfold with_new_instance. simpl.
    now apply lookup_app_l_Some.
  - reflexivity.
Qed.

(** ** Printing *)

Lemma written_written a b m :
  output_good (context m) = true ->
  written b (written a m) = written (a +:+ b) m.
Proof.
  intros H. unfold written. rewrite H. simpl.
  now rewrite append_assoc.
Qed.

Lemma written_nothing m : written EmptyString m = m.
Proof.
  unfold written. destruct m as [hp [o g]]. simpl. destruct g; [|reflexivity].
  f_equal. f_equal. induction o as [|c o IHo]; [reflexivity|].
  change (String.String c (o +:+ EmptyString) = String.String c o).
  now rewrite IHo.
Qed.

Lemma Print_loop_spaced fuel cl h args texts :
  Forall2 (prints_as rt fuel cl h) args texts ->
  forall m, heap m = h -> output_good (context m) = true ->
  Print_loop rt (Execute rt fuel) (Execute rt (S fuel)) false args cl m
  = (Value tt, cl, written (spaced texts) m).
Proof.
  induction 1 as [|arg text args texts Harg _ IH]; intros m Hh Hg.
  - simpl spaced. now rewrite written_nothing.
  - destruct (written_output " " m Hg) as (_ & Hg1 & Hh1).
    destruct (Harg (written " " m)) as (value & He & Hr);
      [congruence|exact Hg1|].
    destruct (written_output text (written " " m) Hg1) as (_ & Hg2 & Hh2).
    change (Print_loop rt (Execute rt fuel) (Execute rt (S fuel)) false (arg :: args))
      with (let* _ := write " " in
            let* object := Execute rt (S fuel) arg in
            let* text := render rt (Execute rt fuel) object in
            let* _ := write text in
            Print_loop rt (Execute rt fuel) (Execute rt (S fuel)) false args).
    rewrite (bind_Value _ _ _ _ _ _ _ (write_spec " " cl m)).
    rewrite (bind_Value _ _ _ _ _ _ _ He), (bind_Value _ _ _ _ _ _ _ Hr).
    rewrite (bind_Value _ _ _ _ _ _ _ (write_spec text cl _)).
    rewrite IH by congruence.
    rewrite !written_written by assumption.
    reflexivity.
Qed.

(** X23. [Print] of any number of arguments that only read, on an output
    stream in a good state: the texts of the values are written in the
    order of the arguments with one space between two of them and one
    line feed after the last; without arguments only the line feed is
    written.  The result is [None] and the closure is unchanged. *)
Theorem Print_joins_with_spaces (fuel : nat) (args : list Statement)
    (texts : list string) (cl : Closure) (m : Machine) :
  output_good (context m) = true ->
  Forall2 (prints_as rt fuel cl (heap m)) args texts ->
  Execute rt (S fuel) (Print args) cl m
  = (Value None, cl, written (join_space texts +:+ newline) m).
Proof.
  intros Hg Hargs.
  assert (Hl : Print_loop rt (Execute rt fuel) (Execute rt (S fuel)) true args cl m
               = (Value tt, cl, written (join_space texts) m)).
  { destruct Hargs as [|arg text args texts Harg Hrest].
    - simpl join_space. now rewrite written_nothing.
    - destruct (Harg m eq_refl Hg) as (value & He & Hr).
      destruct (written_output text m Hg) as (_ & Hg1 & Hh1).
      change (Print_loop rt (Execute rt fuel) (Execute rt (S fuel)) true (arg :: args))
        with (let* _ := ret tt in
              let* object := Execute rt (S fuel) arg in
              let* text := render rt (Execute rt fuel) object in
              let* _ := write text in
              Print_loop rt (Execute rt fuel) (Execute rt (S fuel)) false args).
      erewrite bind_Value by reflexivity.
      rewrite (bind_Value _ _ _ _ _ _ _ He), (bind_Value _ _ _ _ _ _ _ Hr).
      rewrite (bind_Value _ _ _ _ _ _ _ (write_spec text cl _)).
      rewrite (Print_loop_spaced fuel cl (heap m) args texts Hrest) by congruence.
      now rewrite written_written by assumption. }
  change (Execute rt (S fuel) (Print args) cl m)
    with (if output_good (context m) then
            (let* _ := Print_loop rt (Execute rt fuel) (Execute rt (S fuel)) true args in
             let* _ := write newline in
             ret (None : ObjectHolder)) cl m
          else ret (None : ObjectHolder) cl m).
  rewrite Hg, (bind_Value _ _ _ _ _ _ _ Hl).
  rewrite (bind_Value _ _ _ _ _ _ _ (write_spec newline cl _)).
  now rewrite written_written by assumption.
Qed.

(** ** Blocks and method bodies *)

Lemma Compound_app fuel more statements : forall cl m r cl1 m1,
  Execute rt (S fuel) (Compound statements) cl m = (Value r, cl1, m1) ->
  Execute rt (S fuel) (Compound (statements ++ more)) cl m
  = match r with
    | Some _ => (Value r, cl1, m1)
    | None => Execute rt (S fuel) (Compound more) cl1 m1
    end.
Proof.
  induction statements as [|st rest IH]; intros cl m r cl1 m1 H.
  - change (Execute rt (S fuel) (Compound []) cl m) with (@Value ObjectHolder None, cl, m) in H.
    injection H as <- <- <-. reflexivity.
  - change ((st :: rest) ++ more) with (st :: (rest ++ more)).
    rewrite Compound_cons in *.
    destruct (Execute rt (S fuel) st cl m) as [[[v|e| |] c] mm] eqn:E.
    + destruct (ends_Compound st) eqn:Hst.
      * destruct v as [o|].
        -- rewrite (Compound_round_ends _ _ _ _ _ o c mm Hst E) in H.
           rewrite (Compound_round_ends _ _ _ _ _ o c mm Hst E).
           now injection H as <- <- <-.
        -- rewrite (Compound_round_empty _ _ _ _ _ c mm Hst E) in H.
           rewrite (Compound_round_empty _ _ _ _ _ c mm Hst E).
           now apply IH.
      * destruct st; try discriminate Hst;
          try (rewrite (Compound_round_other _ _ _ _ _ v c mm Hst) in H;
               [|discriminate | exact E];
               rewrite (Compound_round_other _ _ _ _ _ v c mm Hst);
               [now apply IH | discriminate | exact E]).
        now destruct (Return_not_Value rt fuel st cl m v c mm).
    + rewrite (Compound_round_Throw _ _ _ _ _ _ _ _ E) in H. discriminate.
    + destruct st; unfold Compound_round, bind in H; rewrite E in H; discriminate.
    + destruct st; unfold Compound_round, bind in H; rewrite E in H; discriminate.
Qed.

Lemma plain_Compound fuel statements :
  Forall (fun st => ends_Compound st = false) statements ->
  forall cl m r cl1 m1,
    Execute rt (S fuel) (Compound statements) cl m = (Value r, cl1, m1) ->
    r = None.
Proof.
  induction 1 as [|st rest Hst _ IH]; intros cl m r cl1 m1 H.
  - now injection H as <- _ _.
  - rewrite Compound_cons in H.
    destruct (Execute rt (S fuel) st cl m) as [[[v|e| |] c] mm] eqn:E.
    + destruct st; try discriminate Hst;
        try (rewrite (Compound_round_other _ _ _ _ _ v c mm Hst) in H;
             [now apply IH in H | discriminate | exact E]).
      now destruct (Return_not_Value rt fuel st cl m v c mm).
    + rewrite (Compound_round_Throw _ _ _ _ _ _ _ _ E) in H. discriminate.
    + destruct st; unfold Compound_round, bind in H; rewrite E in H; discriminate.
    + destruct st; unfold Compound_round, bind in H; rewrite E in H; discriminate.
Qed.

(** X24. A [Compound] is a sequence: when the statements of a block end
    normally, the block followed by more statements goes on with them,
    from the closure and the machine the block left, if the result of
    the block is [None], and ends with the result of the block, the more
    statements not being run, if it is a value.  The result of a block
    none of whose statements is an [IfElse] or a [MethodCall] is always
    [None], whatever its statements evaluated to. *)
Theorem Compound_runs_in_sequence (fuel : nat) (statements more : list Statement)
    (cl : Closure) (m : Machine) (r : ObjectHolder) (cl1 : Closure) (m1 : Machine) :
  Execute rt (S fuel) (Compound statements) cl m = (Value r, cl1, m1) ->
  (r = None ->
   Execute rt (S fuel) (Compound (statements ++ more)) cl m
   = Execute rt (S fuel) (Compound more) cl1 m1)
  /\ (r <> None ->
      Execute rt (S fuel) (Compound (statements ++ more)) cl m = (Value r, cl1, m1))
  /\ (Forall (fun st => ends_Compound st = false) statements -> r = None).
Proof.
  intros H. pose proof (Compound_app fuel more _ _ _ _ _ _ H) as Happ.
  split; [|split].
  - intros ->. exact Happ.
  - intros Hr. destruct r; [exact Happ|now destruct Hr].
  - intros Hp. exact (plain_Compound fuel statements Hp _ _ _ _ _ H).
Qed.

(** X25. [MethodBody] gives the value of a [return] only: when the body
    is not an [IfElse] or a [MethodCall] and ends normally, with
    whatever result, the result of the [MethodBody] is [None].  A body
    that is a [Compound] is such a body, so the value with which an
    [IfElse] or a [MethodCall] ends the [Compound] is dropped. *)
Theorem MethodBody_drops_the_result (fuel : nat) (body : Statement)
    (cl : Closure) (m : Machine) (r : ObjectHolder) (cl1 : Closure) (m1 : Machine) :
  ends_Compound body = false ->
  Execute rt (S fuel) body cl m = (Value r, cl1, m1) ->
  Execute rt (S fuel) (MethodBody body) cl m = (Value None, cl1, m1).
Proof.
  intros Hb H. rewrite MethodBody_Execute, Compound_cons.
  destruct body; try discriminate Hb;
    try (rewrite (Compound_round_other _ _ _ _ _ r cl1 m1 Hb);
         [reflexivity | discriminate | exact H]).
  now destruct (Return_not_Value rt fuel body cl m r cl1 m1).
Qed.

(** ** Conditions *)

(** X27. With a runtime whose [IsTrue] of a [Bool] is the boolean it
    holds, negating the condition of an [IfElse] swaps its branches:
    [if not c: a else: b] does what [if c: b else: a] does, whether a
    branch is there or not, for every outcome of the condition.  An
    empty condition counts as false for both. *)
Theorem IfElse_of_Not_swaps_branches (fuel : nat) (condition : Statement)
    (if_body else_body : option Statement) (cl : Closure) (m : Machine) :
  (forall b, IsTrue rt (Some (Bool b)) = b) ->
  Execute rt (S fuel) (IfElse (Not condition) if_body else_body) cl m
  = Execute rt (S fuel) (IfElse condition else_body if_body) cl m.
Proof.
  intros Hb.
  change (Execute rt (S fuel)) with (Execute_node rt (Execute rt fuel)).
  simpl. unfold bind.
  destruct (Execute_node rt (Execute rt fuel) condition cl m)
    as [[[v|e| |] cl1] m1]; try reflexivity.
  unfold ret. rewrite Hb. destruct v as [o|]; simpl.
  - now destruct (IsTrue rt (Some o)).
  - now rewrite Hb.
Qed.

End EvaluatorExtras.

(** * The theorems at concrete inputs *)

Section Examples.

Import parse lexer_spec.

Lemma lexer_stream_shape_scenario1 :
  new_Lexer scenario1 = Done (MkLexer scenario1_tokens 0)
  /\ last scenario1_tokens = Some token_type.Eof
  /\ count_token token_type.Indent scenario1_tokens
     = count_token token_type.Dedent scenario1_tokens
  /\ count_token token_type.Newline scenario1_tokens = length (code_lines scenario1).
Proof.
  assert (H : new_Lexer scenario1 = Done (MkLexer scenario1_tokens 0))
    by (vm_compute; reflexivity).
  split; [exact H|].
  destruct (lexer_stream_shape scenario1 (MkLexer scenario1_tokens 0) H)
    as (H1 & H2 & _ & H4 & _).
  repeat split; assumption.
Defined.

Lemma blank_line_skipped_comment :
  blank_line "  # note"
  /\ IsEmptyLine "  # note" = true
  /\ ReadLine "  # note" (MkLexer [token_type.Indent] 1)
     = Done (MkLexer [token_type.Indent] 1).
Proof.
  assert (H : blank_line "  # note") by (right; exists 2, " note"; reflexivity).
  split; [exact H|].
  destruct (blank_line_skipped "  # note" H) as (H1 & H2 & _).
  split; [exact H1|apply H2].
Defined.

(** A line that holds only a tab is white space from end to end; the
    lexer does not take it for a blank line: it closes the open block
    with a [Dedent], dropping the level from 1 to 0, and pushes a
    [Newline]. *)
Lemma tab_line_is_not_skipped :
  whitespace_only tab_line = true
  /\ IsEmptyLine tab_line = false
  /\ ReadLine tab_line (MkLexer [] 1)
     = Done (MkLexer [token_type.Dedent; token_type.Newline] 0)
  /\ ReadLine tab_line (MkLexer [] 1) <> Done (MkLexer [] 1)
  /\ tokens block_with_tab_line
     = Done [ token_type.If; token_type.Id "x"; token_type.Char ":"; token_type.Newline;
              token_type.Indent; token_type.Id "y"; token_type.Newline;
              token_type.Dedent; token_type.Newline;
              token_type.Indent; token_type.Id "z"; token_type.Newline;
              token_type.Dedent; token_type.Eof ].
Proof.
  split; [reflexivity|]. split; [reflexivity|]. split; [reflexivity|].
  split; [discriminate|]. vm_compute. reflexivity.
Qed.

Lemma unrecognised_char_skipped_tilde :
  unrecognised "~"%char
  /\ ReadBody "~x" [] = ReadBody "x" []
  /\ ReadBody "~x" [] = Done [token_type.Id "x"].
Proof.
  assert (H : unrecognised "~"%char) by apply unrecognised_examples.
  split; [exact H|].
  pose proof (unrecognised_char_skipped "~"%char "x" [] H) as E.
  split; [exact E|]. rewrite E. reflexivity.
Defined.

End Examples.

Section EvaluatorExamples.

Import ast eval_spec.

#[local] Abbreviation rt := runtime_model.rt.

(** The receiver [x] is a number and the argument divides by zero: the
    error is that of the argument, not "Bad Method call: get", so the
    argument was evaluated before the receiver was looked at.  In the same
    way an argument that prints has printed when the call fails. *)
Lemma MethodCall_receiver_is_not_first :
  Execute rt 1 (VariableValue ["x"]) closure1 machine1
  = (Value (Some (Number 1)), closure1, machine1)
  /\ Execute rt 1 call_on_number closure1 machine1
     = (Throw (runtime_error "Zero Division!"), closure1, machine1)
  /\ Execute rt 1 call_on_number closure1 machine1
     <> (Throw (runtime_error "Bad Method call: get"), closure1, machine1)
  /\ Execute rt 1 call_on_number_printing closure1 machine1
     = (Throw (runtime_error "Bad Method call: get"), closure1,
        written newline (written "argument" machine1))
  /\ output (context (written newline (written "argument" machine1)))
     <> output (context machine1).
Proof.
  split; [reflexivity|]. split; [vm_compute; reflexivity|].
  split; [intros H; vm_compute in H; discriminate H|].
  split; [vm_compute; reflexivity|]. vm_compute. discriminate.
Qed.

Lemma MethodCall_Execute_get :
  Execute rt 2
    (MethodCall (VariableValue ["self"]) "get"
       [Add (NumericLiteral 41) (VariableValue ["x"])]) closure1 machine1
  = (Value (Some (Number 42)), closure1, machine1).
Proof.
  destruct (MethodCall_Execute_arguments_first rt 1 (VariableValue ["self"]) "get"
              [Add (NumericLiteral 41) (VariableValue ["x"])] closure1 machine1)
    as (_ & _ & H).
  destruct (H [Some (Number 42)] closure1 machine1 eq_refl) as (_ & _ & H2).
  destruct (H2 (Some (ClassInstance 0)) closure1 machine1 eq_refl) as [_ H3].
  exact (H3 0 (MkInstance Box ∅) eq_refl eq_refl).
Defined.

Lemma return_signal_example :
  Execute rt 1 (Return (NumericLiteral 5)) closure1 machine1
  = (Throw (Exception (Some (Number 5))), closure1, machine1)
  /\ Execute rt 1 (MethodBody (Return (NumericLiteral 5))) closure1 machine1
     = (Value (Some (Number 5)), closure1, machine1)
  /\ Execute rt 1
       (MethodBody (Div (NumericLiteral 1) (NumericLiteral 0))) closure1 machine1
     = (Throw (runtime_error "Zero Division!"), closure1, machine1).
Proof.
  destruct (return_signal_caught_by_MethodBody rt 0) as (_ & _ & _ & H4 & H5 & _).
  split; [reflexivity|].
  split; [apply H4; reflexivity|apply H5; reflexivity].
Defined.

Lemma scenario5_example :
  Execute rt 1 scenario5
    (<["cond" := Some (Bool true)]> (<["other" := Some (Number 0)]> ∅)) machine0
  = (Value (Some (Number 8)),
     <["cond" := Some (Bool true)]> (<["other" := Some (Number 0)]> ∅), machine0).
Proof.
  destruct (Compound_semantics rt 0) as (_ & _ & _ & _ & H & _).
  apply (H _ _ (Some (Bool true)) (Some (Number 0))); reflexivity.
Defined.

(** [INT_MIN / -1] has no value: the quotient, 2147483648, is not an
    [int]. *)
Lemma Div_INT_MIN_by_minus_one :
  in_int_range INT_MIN = true
  /\ in_int_range (-1) = true
  /\ Z.quot INT_MIN (-1) = 2147483648%Z
  /\ in_int_range (Z.quot INT_MIN (-1)) = false
  /\ Execute rt 1 (Div (NumericLiteral INT_MIN) (NumericLiteral (-1))) closure1 machine1
     = (Undefined, closure1, machine1)
  /\ Execute rt 1 (Div (NumericLiteral INT_MIN) (NumericLiteral (-1))) closure1 machine1
     <> (Value (Some (Number (Z.quot INT_MIN (-1)))), closure1, machine1).
Proof.
  repeat split; try reflexivity.
  intros H. vm_compute in H. discriminate H.
Qed.

Lemma Div_numbers_truncates_example :
  Execute rt 1 (Div (NumericLiteral (-7)) (NumericLiteral 2)) closure1 machine1
  = (Value (Some (Number (-3))), closure1, machine1)
  /\ Execute rt 1 (Div (NumericLiteral 1) (NumericLiteral 0)) closure1 machine1
     = (Throw (runtime_error "Zero Division!"), closure1, machine1).
Proof.
  split.
  - destruct (Div_numbers_truncates rt 0 (NumericLiteral (-7)) (NumericLiteral 2)
                closure1 closure1 closure1 machine1 machine1 machine1 (-7) 2
                eq_refl eq_refl) as [_ H].
    apply H; [reflexivity|reflexivity|discriminate|].
    intros [H1 _]. discriminate H1.
  - destruct (Div_numbers_truncates rt 0 (NumericLiteral 1) (NumericLiteral 0)
                closure1 closure1 closure1 machine1 machine1 machine1 1 0
                eq_refl eq_refl) as [H _].
    apply H. reflexivity.
Defined.

(** C7 at the failing input: the instance bound to [self] has no field
    and the right-hand side divides by zero.  The error leaves the
    assignment, and the instance has gained the field [f], holding the
    empty value: the entry was made before the right-hand side was
    evaluated.  [Assignment] with the same right-hand side binds
    nothing.  For the same reason [self.f = self.f] reads the entry it
    has just made and ends with the empty value, where reading [self.f]
    alone throws. *)
Theorem FieldAssignment_entry_before_value (rt0 : Runtime) (fuel : nat) :
  Fields_at 0 machine1 = Some ∅
  /\ Execute rt0 (S fuel) failing_field_assignment closure1 machine1
     = (Throw (runtime_error "Zero Division!"), closure1,
        with_field_created 0 "f" machine1)
  /\ Fields_at 0 (with_field_created 0 "f" machine1) = Some (<["f" := None]> ∅)
  /\ Fields_at 0 (with_field_created 0 "f" machine1) <> Fields_at 0 machine1
  /\ Execute rt0 (S fuel)
       (Assignment "z" (Div (NumericLiteral 1) (NumericLiteral 0))) closure1 machine1
     = (Throw (runtime_error "Zero Division!"), closure1, machine1)
  /\ Execute rt0 (S fuel) (VariableValue ["self"; "f"]) closure1 machine1
     = (Throw out_of_range, closure1, machine1)
  /\ Execute rt0 (S fuel) field_assigned_from_itself closure1 machine1
     = (Value None, closure1,
        with_field_stored 0 "f" None (with_field_created 0 "f" machine1)).
Proof.
  split; [reflexivity|]. split; [vm_compute; reflexivity|].
  split; [vm_compute; reflexivity|].
  split; [vm_compute; discriminate|].
  split; [vm_compute; reflexivity|].
  split; vm_compute; reflexivity.
Qed.

Lemma FieldAssignment_example :
  Execute rt 1 (FieldAssignment ["self"] "f" (NumericLiteral 5)) closure1 machine1
  = (Value (Some (Number 5)), closure1,
     with_field_stored 0 "f" (Some (Number 5)) (with_field_created 0 "f" machine1))
  /\ Fields_at 0
       (with_field_stored 0 "f" (Some (Number 5)) (with_field_created 0 "f" machine1))
     = Some (<["f" := Some (Number 5)]> (<["f" := None]> ∅))
  /\ Execute rt 1 failing_field_assignment closure1 machine1
     = (Throw (runtime_error "Zero Division!"), closure1,
        with_field_created 0 "f" machine1).
Proof.
  destruct (FieldAssignment_creates_then_evaluates rt 0 ["self"] "f"
              (NumericLiteral 5) closure1 machine1 0 (MkInstance Box ∅)
              eq_refl eq_refl) as (_ & H & _).
  destruct (H (Some (Number 5)) closure1 (with_field_created 0 "f" machine1)
              (MkInstance Box (<["f" := None]> ∅)) eq_refl eq_refl) as [H1 H2].
  split; [exact H1|]. split; [exact H2|].
  destruct (FieldAssignment_creates_then_evaluates rt 0 ["self"] "f"
              (Div (NumericLiteral 1) (NumericLiteral 0)) closure1 machine1 0
              (MkInstance Box ∅) eq_refl eq_refl) as (_ & _ & H3).
  apply H3. reflexivity.
Defined.

(** C8 at the failing input: [x] is bound to a number, and reading
    [x.f] dereferences the null pointer that [TryAs] returned for it. *)
Lemma VariableValue_field_of_number (rt0 : Runtime) (fuel : nat) :
  closure1 !! "x" = Some (Some (Number 1))
  /\ TryAs_ClassInstance (Some (Number 1)) = None
  /\ Execute rt0 (S fuel) (VariableValue ["x"; "f"]) closure1 machine1
     = (Undefined, closure1, machine1).
Proof.
  split; [reflexivity|]. split; [reflexivity|].
  rewrite (VariableValue_bound rt0 fuel "x" ["f"] closure1 machine1 (Some (Number 1)))
    by reflexivity.
  now apply accumulate_not_instance.
Qed.



End EvaluatorExamples.

(** * The further properties at concrete inputs *)

Section LexerExtraExamples.

Import parse lexer_spec lexer_extra.

Lemma NextToken_walks_the_stream_example :
  CurrentToken (advance 2 (MkLexer scenario1_tokens 0)) = Some (token_type.Number 1)
  /\ (NextToken (advance 2 (MkLexer scenario1_tokens 0))).1 = Some token_type.Newline
  /\ CurrentToken (advance 100 (MkLexer scenario1_tokens 0)) = Some token_type.Eof.
Proof.
  assert (H : new_Lexer scenario1 = Done (MkLexer scenario1_tokens 0))
    by (vm_compute; reflexivity).
  destruct (NextToken_walks_the_stream scenario1 (MkLexer scenario1_tokens 0) 2 H)
    as (_ & _ & H1 & H2 & _).
  destruct (NextToken_walks_the_stream scenario1 (MkLexer scenario1_tokens 0) 100 H)
    as (_ & _ & _ & _ & H3).
  split; [exact H1|]. split; [exact H2|]. apply H3. simpl. lia.
Defined.


Lemma lexer_tokens_well_formed_example : Forall well_formed scenario1_tokens.
Proof.
  apply (lexer_tokens_well_formed scenario1 (MkLexer scenario1_tokens 0)).
  vm_compute. reflexivity.
Defined.

Lemma odd_indent_rejected_example :
  ReadLine " x" (MkLexer [] 0) = Throw (MkLexerError "Invalid indents")
  /\ exists e, new_Lexer ("y" +:+ String.String chars.LF " x") = Throw e.
Proof.
  destruct (odd_indent_rejected ("y" +:+ String.String chars.LF " x") " x")
    as [H1 H2].
  - right. left. reflexivity.
  - exists 0, "x"%char, EmptyString. split; [reflexivity|]. split; discriminate.
  - split; [apply H1|exact H2].
Defined.

Lemma blank_input_is_Eof_example :
  new_Lexer ("  # a comment" +:+ String.String chars.LF "   ")
  = Done (MkLexer [token_type.Eof] 0).
Proof.
  apply blank_input_is_Eof.
  constructor; [reflexivity|]. constructor; [reflexivity|]. constructor.
Defined.

Lemma ReadStrings_reads_back_example :
  ReadStrings chars.apostrophe
    (literal_text "it's" +:+ String.String chars.apostrophe " + 1")
  = Done (token_type.String "it's", " + 1").
Proof. apply ReadStrings_reads_back. right. reflexivity. Defined.

Lemma ReadStrings_unterminated_example :
  exists e, ReadStrings chars.quote "it's" = Throw e.
Proof. apply ReadStrings_unterminated. reflexivity. Defined.

Lemma number_text_reads_back_example :
  ReadBody (show_int 2147483647) [] = Done [token_type.Number 2147483647]
  /\ ReadBody (show_int 2147483648) []
     = Throw (MkLexerError "Number conversion error").
Proof.
  split.
  - apply (number_text_reads_back 2147483647 []). lia.
  - apply (number_text_reads_back 2147483648 []). lia.
Defined.

Lemma word_is_keyword_or_identifier_example :
  ReadBody "printer(x)" [] = ReadBody "(x)" [token_type.Id "printer"]
  /\ ReadBody "print x" [] = ReadBody " x" [token_type.Print].
Proof.
  split.
  - apply (word_is_keyword_or_identifier "printer" "(x)" []); reflexivity.
  - apply (word_is_keyword_or_identifier "print" " x" []); reflexivity.
Defined.

Lemma punctuation_tokens_example :
  ReadBody "<= 2" [] = ReadBody " 2" [token_type.LessOrEq]
  /\ ReadBody "= 2" [] = ReadBody " 2" [token_type.Char "="].
Proof.
  split.
  - apply (punctuation_tokens "<" "= 2" []); [reflexivity|discriminate].
  - apply (punctuation_tokens "=" " 2" []); [reflexivity|discriminate].
Defined.

Lemma indentation_is_nested_example :
  count_token token_type.Dedent (take 9 scenario1_tokens)
  <= count_token token_type.Indent (take 9 scenario1_tokens).
Proof.
  apply (indentation_is_nested scenario1 (MkLexer scenario1_tokens 0) 9).
  vm_compute. reflexivity.
Defined.

Lemma trailing_comment_ignored_example :
  ReadBody "x = 1 # set x" [] = ReadBody "x = 1 " []
  /\ ReadBody "x = 1 # set x" []
     = Done [token_type.Id "x"; token_type.Char "="; token_type.Number 1].
Proof.
  assert (H : ReadBody "x = 1 # set x" [] = ReadBody "x = 1 " [])
    by (apply (trailing_comment_ignored "x = 1 " " set x" []); reflexivity).
  split; [exact H|]. rewrite H. reflexivity.
Defined.

End LexerExtraExamples.

Section EvaluatorExtraExamples.

Import ast eval_spec eval_extra.

#[local] Abbreviation rt := runtime_model.rt.

Lemma Assignment_binds_the_value_example :
  Execute rt 1 (Assignment "x" (NumericLiteral 5)) closure1 machine1
  = (Value (Some (Number 5)), <["x" := Some (Number 5)]> closure1, machine1)
  /\ Execute rt 1 (VariableValue ["x"]) (<["x" := Some (Number 5)]> closure1) machine1
     = (Value (Some (Number 5)), <["x" := Some (Number 5)]> closure1, machine1).
Proof.
  destruct (Assignment_binds_the_value rt 0 "x" (NumericLiteral 5) closure1 machine1)
    as [H _].
  destruct (H (Some (Number 5)) closure1 machine1 eq_refl) as (H1 & H2 & _).
  split; [exact H1|exact H2].
Defined.

Lemma FieldAssignment_stores_in_the_instance_example :
  Execute rt 1 (FieldAssignment ["p"] "f" (NumericLiteral 5)) closure2 machine1
  = (Value (Some (Number 5)), closure2,
     with_field_stored 0 "f" (Some (Number 5)) (with_field_created 0 "f" machine1))
  /\ Execute rt 1 (VariableValue ["q"; "f"]) closure2
       (with_field_stored 0 "f" (Some (Number 5)) (with_field_created 0 "f" machine1))
     = (Value (Some (Number 5)), closure2,
        with_field_stored 0 "f" (Some (Number 5)) (with_field_created 0 "f" machine1)).
Proof.
  destruct (FieldAssignment_stores_in_the_instance rt 0 ["p"] ["q"] "f"
              (NumericLiteral 5) closure2 machine1 0 (MkInstance Box ∅)
              (Some (Number 5)) closure2 (with_field_created 0 "f" machine1)
              (MkInstance Box (<["f" := None]> ∅))
              eq_refl eq_refl eq_refl eq_refl eq_refl) as (H1 & H2 & _).
  split; [exact H1|exact H2].
Defined.

Lemma arithmetic_on_numbers_example :
  Execute rt 1 (Mult (NumericLiteral 6) (NumericLiteral 7)) closure1 machine1
  = (Value (Some (Number 42)), closure1, machine1)
  /\ Execute rt 1 (Sub (NumericLiteral 3) (NumericLiteral 5)) closure1 machine1
     = (Value (Some (Number (-2))), closure1, machine1).
Proof.
  split.
  - exact (Forall_lookup_1 _ _ 2 (Mult, Z.mul)
             (arithmetic_on_numbers rt 0 (NumericLiteral 6) (NumericLiteral 7)
                closure1 machine1 6 7 closure1 machine1 closure1 machine1
                eq_refl eq_refl) eq_refl eq_refl).
  - exact (Forall_lookup_1 _ _ 1 (Sub, Z.sub)
             (arithmetic_on_numbers rt 0 (NumericLiteral 3) (NumericLiteral 5)
                closure1 machine1 3 5 closure1 machine1 closure1 machine1
                eq_refl eq_refl) eq_refl eq_refl).
Defined.

Lemma Add_groups_to_either_side_example :
  Execute rt 1
    (Add (Add (StringLiteral "a") (StringLiteral "b")) (StringLiteral "c"))
    closure1 machine1
  = (Value (Some (String "abc")), closure1, machine1)
  /\ Execute rt 1
       (Add (StringLiteral "a") (Add (StringLiteral "b") (StringLiteral "c")))
       closure1 machine1
     = (Value (Some (String "abc")), closure1, machine1).
Proof.
  destruct (Add_groups_to_either_side rt 0 (StringLiteral "a") (StringLiteral "b")
              (StringLiteral "c") closure1 machine1
              (Some (String "a")) closure1 machine1
              (Some (String "b")) closure1 machine1
              (Some (String "c")) closure1 machine1
              eq_refl eq_refl eq_refl) as [H _].
  exact (H "a" "b" "c" eq_refl eq_refl eq_refl).
Defined.

Lemma operator_method_of_the_left_operand_example :
  Execute rt 2 (Add (VariableValue ["self"]) (NumericLiteral 3)) closure1 machine2
  = (Value (Some (Number 3)), closure1, machine2)
  /\ Execute rt 2 (Sub (VariableValue ["self"]) (NumericLiteral 3)) closure1 machine2
     = (Throw (runtime_error "Bad Subtraction!"), closure1, machine2).
Proof.
  split.
  - apply (operator_method_of_the_left_operand rt 1 Add "__add__" "Bad Addition!"
             (VariableValue ["self"]) (NumericLiteral 3) closure1 machine2 0
             closure1 machine2 (Some (Number 3)) closure1 machine2
             (MkInstance Money ∅));
      [left; reflexivity|reflexivity|reflexivity|reflexivity].
  - apply (operator_method_of_the_left_operand rt 1 Sub "__sub__" "Bad Subtraction!"
             (VariableValue ["self"]) (NumericLiteral 3) closure1 machine2 0
             closure1 machine2 (Some (Number 3)) closure1 machine2
             (MkInstance Money ∅));
      [right; left; reflexivity|reflexivity|reflexivity|reflexivity].
Defined.

Lemma arithmetic_type_error_example :
  Execute rt 1 (Add (NumericLiteral 1) (StringLiteral "a")) closure1 machine1
  = (Throw (runtime_error "Bad Addition!"), closure1, machine1)
  /\ Execute rt 1 (Mult (NumericLiteral 2) (VariableValue ["self"])) closure1 machine1
     = (Throw (runtime_error "Bad Multiplication!"), closure1, machine1).
Proof.
  split.
  - apply (arithmetic_type_error rt 0 Add "__add__" "Bad Addition!"
             (NumericLiteral 1) (StringLiteral "a") closure1 machine1
             (Some (Number 1)) closure1 machine1 (Some (String "a")) closure1 machine1);
      [left; reflexivity|reflexivity|reflexivity|reflexivity
      |right; reflexivity|intros _; left; reflexivity].
  - apply (arithmetic_type_error rt 0 Mult "__mul__" "Bad Multiplication!"
             (NumericLiteral 2) (VariableValue ["self"]) closure1 machine1
             (Some (Number 2)) closure1 machine1 (Some (ClassInstance 0))
             closure1 machine1);
      [right; right; left; reflexivity|reflexivity|reflexivity|reflexivity
      |right; reflexivity|intros H; discriminate H].
Defined.

Lemma logic_evaluates_both_operands_example :
  Execute rt 1 (Or (BoolLiteral true) (Div (NumericLiteral 1) (NumericLiteral 0)))
    closure1 machine1
  = (Throw (runtime_error "Zero Division!"), closure1, machine1)
  /\ Execute rt 1 (And (BoolLiteral false) (Assignment "y" (NumericLiteral 1)))
       closure1 machine1
     = (Value (Some (Bool false)), <["y" := Some (Number 1)]> closure1, machine1).
Proof.
  split.
  - destruct (logic_evaluates_both_operands rt 0 (BoolLiteral true)
                (Div (NumericLiteral 1) (NumericLiteral 0)) closure1 machine1
                (Some (Bool true)) closure1 machine1 eq_refl) as (_ & H & _).
    exact (proj1 (H (runtime_error "Zero Division!") closure1 machine1 eq_refl)).
  - destruct (logic_evaluates_both_operands rt 0 (BoolLiteral false)
                (Assignment "y" (NumericLiteral 1)) closure1 machine1
                (Some (Bool false)) closure1 machine1 eq_refl) as (H & _).
    exact (proj2 (H (Some (Number 1)) (<["y" := Some (Number 1)]> closure1) machine1
                    eq_refl)).
Defined.

Lemma logic_De_Morgan_example :
  Execute rt 1 (Not (Or (BoolLiteral false) (NumericLiteral 0))) closure1 machine1
  = Execute rt 1 (And (Not (BoolLiteral false)) (Not (NumericLiteral 0)))
      closure1 machine1
  /\ Execute rt 1 (Not (Or (BoolLiteral false) (NumericLiteral 0))) closure1 machine1
     = (Value (Some (Bool true)), closure1, machine1).
Proof.
  destruct (logic_De_Morgan rt 0 (BoolLiteral false) (NumericLiteral 0)
              closure1 machine1 (Some (Bool false)) closure1 machine1
              (Some (Number 0)) closure1 machine1
              (fun b => eq_refl) eq_refl eq_refl) as (H1 & _ & H3 & _).
  split; [exact H1|exact H3].
Defined.

Lemma NewInstance_allocates_first_example :
  Execute rt 1 (NewInstance Box [Div (NumericLiteral 1) (NumericLiteral 0)])
    closure1 machine1
  = (Value (Some (ClassInstance 1)), closure1, with_new_instance Box machine1).
Proof.
  destruct (NewInstance_allocates_first rt 0 Box
              [Div (NumericLiteral 1) (NumericLiteral 0)] closure1 machine1)
    as (H & _).
  apply H. reflexivity.
Defined.

Lemma Print_joins_with_spaces_example :
  Execute rt 1 (Print [NumericLiteral 1; StringLiteral "a"; NoneLiteral])
    closure1 machine1
  = (Value None, closure1, written ("1 a None" +:+ newline) machine1).
Proof.
  apply (Print_joins_with_spaces rt 0
           [NumericLiteral 1; StringLiteral "a"; NoneLiteral] ["1"; "a"; "None"]
           closure1 machine1); [reflexivity|].
  repeat constructor; intros m _ _; eexists; split; reflexivity.
Defined.

Lemma Compound_runs_in_sequence_example :
  Execute rt 1
    (Compound ([Assignment "y" (NumericLiteral 5)] ++ [Return (VariableValue ["y"])]))
    closure1 machine1
  = Execute rt 1 (Compound [Return (VariableValue ["y"])])
      (<["y" := Some (Number 5)]> closure1) machine1.
Proof.
  destruct (Compound_runs_in_sequence rt 0 [Assignment "y" (NumericLiteral 5)]
              [Return (VariableValue ["y"])] closure1 machine1 None
              (<["y" := Some (Number 5)]> closure1) machine1 eq_refl) as (H & _).
  apply H. reflexivity.
Defined.

Lemma MethodBody_drops_the_result_example :
  Execute rt 2 body_without_return closure1 machine1
  = (Value (Some (Number 5)), closure1, machine1)
  /\ Execute rt 2 (MethodBody body_without_return) closure1 machine1
     = (Value None, closure1, machine1).
Proof.
  assert (H : Execute rt 2 body_without_return closure1 machine1
              = (Value (Some (Number 5)), closure1, machine1))
    by (vm_compute; reflexivity).
  split; [exact H|].
  exact (MethodBody_drops_the_result rt 1 body_without_return closure1 machine1
           (Some (Number 5)) closure1 machine1 eq_refl H).
Defined.

Lemma IfElse_of_Not_swaps_branches_example :
  Execute rt 1
    (IfElse (Not (VariableValue ["x"])) (Some (NumericLiteral 1))
       (Some (NumericLiteral 2))) closure1 machine1
  = Execute rt 1
      (IfElse (VariableValue ["x"]) (Some (NumericLiteral 2))
         (Some (NumericLiteral 1))) closure1 machine1.
Proof.
  apply (IfElse_of_Not_swaps_branches rt 0). intros b. reflexivity.
Defined.

End EvaluatorExtraExamples.
